(** * Asset Companion: sizing, fitting and alpha repair, verified

    A shallow embedding of the decision logic of the [asset_companion]
    package ([size_utils.py], [scale.py], [pad_crop.py], [detect.py],
    [alpha_fix.py], [pipeline.py]) together with the properties its
    specification states about it.

    Python [int] is [Z].  A Python [float] is a finite IEEE-754 binary64
    number and a numpy [float32] a finite binary32 number; both are
    represented by the rational they denote, and every arithmetic
    operation rounds its exact result to nearest, ties to even. *)

From Stdlib Require Import ZArith QArith Qround Qabs Qreduction Qpower.
From Stdlib Require Import Lia Lqa List String DecimalString Bool.
Import ListNotations.

Local Open Scope Z_scope.

(** ** Exceptions *)

Inductive exn : Type :=
| AssertionError (msg : string)
| ValueError (msg : string)
| ZeroDivisionError (msg : string)
| RuntimeError (msg : string)
| OSError (msg : string)
| Cv2Error (msg : string).

(** [str(e)] *)
Definition exn_str (e : exn) : string :=
  match e with
  | AssertionError msg | ValueError msg | ZeroDivisionError msg
  | RuntimeError msg | OSError msg | Cv2Error msg => msg
  end.

Inductive result (A : Type) : Type :=
| Ok (a : A)
| Raise (e : exn).
Arguments Ok {A} a.
Arguments Raise {A} e.

Definition bind {A B : Type} (m : result A) (k : A -> result B) : result B :=
  match m with
  | Ok a => k a
  | Raise e => Raise e
  end.

Notation "x <- m ;; k" := (bind m (fun x => k))
  (at level 61, m at next level, right associativity).

(** ** Binary floating point, round to nearest even *)

Module Float.

Local Open Scope Q_scope.

Definition pow2 (e : Z) : Q := 2 ^ e.

(** [ilog2 q] is the exponent [e] with [2^e <= q < 2^(e+1)], for [0 < q]. *)
Definition ilog2 (q : Q) : Z :=
  let e0 := (Z.log2 (Qnum q) - Z.log2 (Zpos (Qden q)))%Z in
  if Qle_bool (pow2 e0) q then e0 else (e0 - 1)%Z.

(** Python's [round] on a float and the significand rounding of IEEE-754:
    nearest integer, a tie goes to the even one. *)
Definition round_half_even (q : Q) : Z :=
  let f := Qfloor q in
  match Qcompare (q - inject_Z f) (1 # 2) with
  | Lt => f
  | Gt => (f + 1)%Z
  | Eq => if Z.even f then f else (f + 1)%Z
  end.

(** Rounding of a positive rational to [prec] significant bits. *)
Definition round_pos (prec : Z) (q : Q) : Q :=
  let e := (ilog2 q - (prec - 1))%Z in
  inject_Z (round_half_even (q / pow2 e)) * pow2 e.

(** The value an operation with exact result [q] returns in a binary format
    with [prec] bits of precision (53 for binary64, 24 for binary32).  The
    exponent range is not modelled: image dimensions and channel values stay
    far from overflow and from the subnormal numbers. *)
Definition fl (prec : Z) (q : Q) : Q :=
  match Qcompare q 0 with
  | Eq => 0
  | Gt => Qred (round_pos prec (Qred q))
  | Lt => Qred (- round_pos prec (Qred (- q)))
  end.

(** [int(x)]: truncation toward zero. *)
Definition trunc (x : Q) : Z :=
  if Qle_bool 0 x then Qfloor x else Qceiling x.

End Float.

(** ** Python numbers *)

Module Py.
Import Float.

(** A [float] is the rational it denotes. *)
Definition float := Q.

Definition binary64 : Z := 53.

(** A literal such as [0.05] denotes the double nearest to it. *)
Definition lit (q : Q) : float := fl binary64 q.

Definition float_of_int (z : Z) : float := fl binary64 (inject_Z z).

(** [a / b] on two ints: the correctly rounded quotient. *)
Definition truediv (a b : Z) : result float :=
  if b =? 0 then Raise (ZeroDivisionError "division by zero")
  else Ok (fl binary64 (inject_Z a / inject_Z b)).

Definition fdiv (x y : float) : result float :=
  if Qeq_bool y 0 then Raise (ZeroDivisionError "float division by zero")
  else Ok (fl binary64 (x / y)).

Definition fmul (x y : float) : float := fl binary64 (x * y).
Definition fsub (x y : float) : float := fl binary64 (x - y).

Definition fabs (x : float) : float := Qabs x.

Definition flt (x y : float) : bool := negb (Qle_bool y x).
Definition fle (x y : float) : bool := Qle_bool x y.

(** [int(x)] and [round(x)] on a float. *)
Definition int (x : float) : Z := trunc x.
Definition round (x : float) : Z := round_half_even x.

End Py.

(** ** size_utils.py *)

(** The loop [while power < value: power <<= 1].  [power] starts at 1, so
    it at least doubles on every iteration and [value] iterations always
    suffice (lemma [while_power_lt_exit]). *)
Fixpoint while_power_lt (fuel : nat) (power value : Z) : Z :=
  match fuel with
  | O => power
  | S n => if power <? value
           then while_power_lt n (Z.shiftl power 1) value
           else power
  end.

Definition round_to_power_of_two (value : Z) : Z :=
  if value <=? 0 then 1
  else
    let power := while_power_lt (Z.to_nat value) 1 value in
    if power - value <? value - power / 2 then power
    else if power / 2 >? 0 then power / 2 else 1.

Definition round_to_multiple (value multiple : Z) : result Z :=
  if value <=? 0 then Ok multiple
  else q <- Py.truediv value multiple ;; Ok (Py.round q * multiple).

Definition auto_suggest_size (width height : Z) (prefer_power_of_two : bool)
  : result (Z * Z) :=
  if (width <=? 0) || (height <=? 0) then Ok (256, 256)
  else
    aspect <- Py.truediv width height ;;
    let long_side := Z.max width height in
    suggested_long <-
      (if prefer_power_of_two then Ok (round_to_power_of_two long_side)
       else round_to_multiple long_side 8) ;;
    wh <-
      (if width >=? height then
         let suggested_w := suggested_long in
         q <- Py.fdiv (Py.float_of_int suggested_w) aspect ;;
         Ok (suggested_w, Z.max 8 (Py.round q))
       else
         let suggested_h := suggested_long in
         Ok (Z.max 8 (Py.round (Py.fmul (Py.float_of_int suggested_h) aspect)),
             suggested_h)) ;;
    suggested_w <- round_to_multiple (fst wh) 8 ;;
    suggested_h <- round_to_multiple (snd wh) 8 ;;
    Ok (suggested_w, suggested_h).

Definition calculate_target_size (width height : Z) (mode : string)
    (custom_width custom_height : option Z) (multiple : Z) : result (Z * Z) :=
  if String.eqb mode "custom" then
    match custom_width, custom_height with
    | Some cw, Some ch => Ok (cw, ch)
    | _, _ => Raise (ValueError
                "custom_width and custom_height required for custom mode")
    end
  else if String.eqb mode "power_of_two" then
    aspect <- (if height >? 0 then Py.truediv width height else Ok (Py.lit 1)) ;;
    let long_side := Z.max width height in
    let suggested_long := round_to_power_of_two long_side in
    if width >=? height then
      let target_w := suggested_long in
      q <- Py.fdiv (Py.float_of_int target_w) aspect ;;
      Ok (target_w, Z.max 8 (round_to_power_of_two (Py.round q)))
    else
      let target_h := suggested_long in
      Ok (Z.max 8 (round_to_power_of_two
                     (Py.round (Py.fmul (Py.float_of_int target_h) aspect))),
          target_h)
  else if String.eqb mode "multiple" then
    aspect <- (if height >? 0 then Py.truediv width height else Ok (Py.lit 1)) ;;
    let long_side := Z.max width height in
    suggested_long <- round_to_multiple long_side multiple ;;
    if width >=? height then
      let target_w := suggested_long in
      q <- Py.fdiv (Py.float_of_int target_w) aspect ;;
      r <- round_to_multiple (Py.round q) multiple ;;
      Ok (target_w, Z.max multiple r)
    else
      let target_h := suggested_long in
      r <- round_to_multiple
             (Py.round (Py.fmul (Py.float_of_int target_h) aspect)) multiple ;;
      Ok (Z.max multiple r, target_h)
  else auto_suggest_size width height true.

(** ** Images (PIL) *)

(** A pixel is the list of its band values, as in the last axis of
    [np.array(img)]: [[r; g; b; a]] in mode RGBA, [[r; g; b]] in mode RGB. *)
Definition Pixel := list Z.

Record Image : Type := mkImage {
  mode : string;
  width : Z;
  height : Z;
  rows : list (list Pixel)
}.

Definition size (img : Image) : Z * Z := (width img, height img).

Definition zrange (n : Z) : list Z := map Z.of_nat (seq 0 (Z.to_nat n)).

(** The [h] rows of [w] pixels each whose pixel at column [x] of row [y]
    is [f x y]. *)
Definition build (w h : Z) (f : Z -> Z -> Pixel) : list (list Pixel) :=
  map (fun y => map (fun x => f x y) (zrange w)) (zrange h).

Definition in_bounds (img : Image) (x y : Z) : bool :=
  (0 <=? x) && (x <? width img) && (0 <=? y) && (y <? height img).

Definition getpixel (img : Image) (x y : Z) : Pixel :=
  if in_bounds img x y
  then nth (Z.to_nat x) (nth (Z.to_nat y) (rows img) []) []
  else [].

(** The image has as many rows and columns as its size says. *)
Definition well_formed (img : Image) : Prop :=
  0 <= width img /\ 0 <= height img /\
  Z.of_nat (List.length (rows img)) = height img /\
  Forall (fun row => Z.of_nat (List.length row) = width img) (rows img).

(** Number of bands of a mode ([Image.getmodebands]). *)
Definition getmodebands (m : string) : nat :=
  if existsb (String.eqb m) ["RGBA"; "CMYK"; "RGBX"; "RGBa"]%string then 4
  else if existsb (String.eqb m) ["RGB"; "YCbCr"; "LAB"; "HSV"]%string then 3
  else if existsb (String.eqb m) ["LA"; "PA"; "La"]%string then 2
  else 1.

Inductive Resampling : Type := NEAREST | LANCZOS.

Inductive InpaintMethod : Type := INPAINT_TELEA | INPAINT_NS.

(** The numerical kernels of Pillow and OpenCV the package calls.  Their
    results are left open; what the package does with sizes, modes, offsets
    and errors around them is spelled out below. *)
Class Imaging : Type := {
  (** [resample f img w h x y]: pixel [(x, y)] of [img] resized to
      [w] x [h] with filter [f]. *)
  resample : Resampling -> Image -> Z -> Z -> Z -> Z -> Pixel;
  (** [im.convert(dst)] on one pixel, for the mode pairs not given in
      [convert]. *)
  convert_other : string -> string -> Pixel -> Pixel;
  (** [cv2.inpaint(bgr, mask, 3, method)]: the RGB value at [(x, y)]. *)
  cv2_inpaint : InpaintMethod -> Image -> Z -> Z -> Pixel;
  (** [cv2.GaussianBlur(alpha, (0, 0), radius)]: the float32 value at
      [(x, y)] of the blurred alpha plane. *)
  cv2_GaussianBlur : Image -> Q -> Z -> Z -> Q;
  (** The spectral-residual saliency estimate of [bbox_from_saliency]:
      the bounding rectangle [(x, y, ww, hh)] of the largest contour on the
      downscaled image, or [None] when the saliency module is missing, fails
      or finds no contour. *)
  cv2_saliency_rect : Image -> option (Z * Z * Z * Z);
  (** [img.filter(ImageFilter.GaussianBlur(radius))]: the pixel at
      [(x, y)] of the blurred image. *)
  pil_GaussianBlur : Image -> Q -> Z -> Z -> Pixel;
  (** [len(np.unique(small.reshape(-1, 3), axis=0))] and the share of
      Canny edge pixels, on the sample of at most 128 x 128 that
      [detect_kind] takes of the image. *)
  count_unique_colors : Image -> Z;
  canny_edge_ratio : Image -> Q;
  (** The external super-resolution tool run on an image: the upscaled
      image, or the error of [run_realesrgan] (binary missing, non-zero exit
      code, no output file, timeout). *)
  realesrgan : Image -> result Image
}.

Section PIL.
Context {imaging : Imaging}.

(** [Image.new(mode, (w, h), color)] *)
Definition Image_new (m : string) (w h : Z) (color : Pixel) : result Image :=
  if (w <? 0) || (h <? 0)
  then Raise (ValueError "Width and height must be >= 0")
  else Ok (mkImage m w h (build w h (fun _ _ => color))).

(** [im.convert(dst)] on one pixel. *)
Definition convert (src dst : string) (p : Pixel) : Pixel :=
  if String.eqb src dst then p
  else if String.eqb dst "RGBA" then
    if String.eqb src "RGB" then
      match p with
      | [r; g; b] => [r; g; b; 255]
      | _ => convert_other src dst p
      end
    else if String.eqb src "L" then
      match p with
      | [l] => [l; l; l; 255]
      | _ => convert_other src dst p
      end
    else convert_other src dst p
  else convert_other src dst p.

(** [canvas.paste(im, (x, y))]: [im], converted to the mode of [canvas],
    replaces the pixels of the box at [(x, y)]; what falls outside
    [canvas] is clipped. *)
Definition paste (canvas im : Image) (x y : Z) : Image :=
  mkImage (mode canvas) (width canvas) (height canvas)
    (build (width canvas) (height canvas)
       (fun i j =>
          if (x <=? i) && (i <? x + width im) && (y <=? j) && (j <? y + height im)
          then convert (mode im) (mode canvas) (getpixel im (i - x) (j - y))
          else getpixel canvas i j)).

(** [im.resize((w, h), resample=f)] *)
Definition resize (im : Image) (wh : Z * Z) (f : Resampling) : result Image :=
  let '(w, h) := wh in
  if (w <? 1) || (h <? 1)
  then Raise (ValueError "height and width must be > 0")
  else Ok (mkImage (mode im) w h (build w h (resample f im w h))).

(** [im.crop((x0, y0, x1, y1))]; pixels outside [im] are zero. *)
Definition crop (im : Image) (box : Z * Z * Z * Z) : result Image :=
  let '(x0, y0, x1, y1) := box in
  if x1 <? x0 then Raise (ValueError "Coordinate 'right' is less than 'left'")
  else if y1 <? y0 then Raise (ValueError "Coordinate 'lower' is less than 'upper'")
  else Ok (mkImage (mode im) (x1 - x0) (y1 - y0)
             (build (x1 - x0) (y1 - y0)
                (fun i j =>
                   if in_bounds im (x0 + i) (y0 + j)
                   then getpixel im (x0 + i) (y0 + j)
                   else repeat 0 (getmodebands (mode im))))).

(** ** scale.py *)

Definition choose_integer_scale (src_wh : Z * Z) (target : Z) : Z :=
  let '(w, h) := src_wh in
  let sf := Z.max 1 (Z.min (target / Z.max 1 w) (target / Z.max 1 h)) in
  Z.max sf 1.

Definition resize_nearest (pil_img : Image) (scale : Z) : result Image :=
  resize pil_img (width pil_img * scale, height pil_img * scale) NEAREST.

Definition resize_lanczos_to_box (pil_img : Image) (target_wh : Z * Z)
  : result Image :=
  resize pil_img target_wh LANCZOS.

Definition resize_lanczos_fit_long (pil_img : Image) (target_long : Z)
  : result Image :=
  let '(w, h) := size pil_img in
  let long_side := Z.max w h in
  if long_side <=? target_long then Ok pil_img
  else
    new_wh <-
      (if w >=? h then
         s <- Py.truediv target_long w ;;
         Ok (target_long, Z.max 1 (Py.int (Py.fmul (Py.float_of_int h) s)))
       else
         s <- Py.truediv target_long h ;;
         Ok (Z.max 1 (Py.int (Py.fmul (Py.float_of_int w) s)), target_long)) ;;
    resize pil_img new_wh LANCZOS.

End PIL.

Definition string_of_Z (z : Z) : string := NilZero.string_of_int (Z.to_int z).

Section Package.
Context {imaging : Imaging}.

(** ** detect.py *)

(** The coordinates [(x, y)] of the pixels whose alpha exceeds the
    threshold, in row-major order ([np.where(mask)]). *)
Definition alpha_mask_coords (pil_img : Image) (alpha_threshold : Z)
  : list (Z * Z) :=
  flat_map
    (fun y => flat_map
       (fun x => if nth 3 (getpixel pil_img x y) 0 >? alpha_threshold
                 then [(x, y)] else [])
       (zrange (width pil_img)))
    (zrange (height pil_img)).

Definition list_min (d : Z) (l : list Z) : Z := fold_left Z.min l d.
Definition list_max (d : Z) (l : list Z) : Z := fold_left Z.max l d.

Definition bbox_from_alpha (pil_img : Image) (alpha_threshold : Z)
  : option (Z * Z * Z * Z) :=
  if negb (String.eqb (mode pil_img) "RGBA") then None
  else
    match alpha_mask_coords pil_img alpha_threshold with
    | [] => None
    | (x, y) :: rest =>
        let xs := map fst rest in
        let ys := map snd rest in
        Some (list_min x xs, list_min y ys, list_max x xs, list_max y ys)
    end.

Definition is_alpha_bbox_meaningful (pil_img : Image) (bbox : Z * Z * Z * Z)
    (min_trim_ratio : Py.float) : result bool :=
  let '(x0, y0, x1, y1) := bbox in
  let '(img_w, img_h) := size pil_img in
  let original_area := img_w * img_h in
  let bbox_area := (x1 - x0 + 1) * (y1 - y0 + 1) in
  r <- Py.truediv bbox_area original_area ;;
  let trim_ratio := Py.fsub (Py.lit 1) r in
  width_ratio <- Py.truediv (x1 - x0 + 1) img_w ;;
  height_ratio <- Py.truediv (y1 - y0 + 1) img_h ;;
  Ok (Py.fle min_trim_ratio trim_ratio
      || Py.flt width_ratio (Py.lit (95 # 100))
      || Py.flt height_ratio (Py.lit (95 # 100))).

Definition bbox_from_saliency (pil_img : Image) : result (Z * Z * Z * Z) :=
  let w := width pil_img in
  let h := height pil_img in
  scale <- Py.fdiv (Py.lit 256) (Py.float_of_int (Z.max h w)) ;;
  match cv2_saliency_rect pil_img with
  | None => Ok (0, 0, w - 1, h - 1)
  | Some (x, y, ww, hh) =>
      inv <- Py.fdiv (Py.lit 1) scale ;;
      let x0 := Py.int (Py.fmul (Py.float_of_int x) inv) in
      let y0 := Py.int (Py.fmul (Py.float_of_int y) inv) in
      let x1 := Z.min (w - 1) (Py.int (Py.fmul (Py.float_of_int (x + ww)) inv)) in
      let y1 := Z.min (h - 1) (Py.int (Py.fmul (Py.float_of_int (y + hh)) inv)) in
      let m := Py.int (Py.fmul (Py.lit (1 # 100)) (Py.float_of_int (Z.max w h))) in
      Ok (Z.max 0 (x0 - m), Z.max 0 (y0 - m),
          Z.min (w - 1) (x1 + m), Z.min (h - 1) (y1 + m))
  end.

Definition crop_to_bbox (pil_img : Image) (bbox : Z * Z * Z * Z) (margin : Z)
  : result Image :=
  let '(x0, y0, x1, y1) := bbox in
  let x0 := Z.max 0 (x0 - margin) in
  let y0 := Z.max 0 (y0 - margin) in
  let x1 := Z.min (width pil_img - 1) (x1 + margin) in
  let y1 := Z.min (height pil_img - 1) (y1 + margin) in
  crop pil_img (x0, y0, x1 + 1, y1 + 1).

(** ** pad_crop.py *)

Definition aspect_delta (w h : Z) : result Py.float :=
  q <- (if h >? 1 then Py.truediv w h
        else Py.fdiv (Py.float_of_int w) (Py.lit 1)) ;;
  Ok (Py.fabs (Py.fsub q (Py.lit 1))).

Definition transparent : Pixel := [0; 0; 0; 0].

Definition pad_to_square (pil_img : Image) (side : Z) (inpaint : bool)
    (method : string) : result Image :=
  let '(w, h) := size pil_img in
  if negb ((w <=? side) && (h <=? side)) then
    Raise (AssertionError
             ("pad_to_square invariant violated: " ++ string_of_Z w ++ "x"
              ++ string_of_Z h ++ " > " ++ string_of_Z side ++ "x"
              ++ string_of_Z side))
  else if (w =? side) && (h =? side) then Ok pil_img
  else
    canvas <- Image_new "RGBA" side side transparent ;;
    let x := (side - w) / 2 in
    let y := (side - h) / 2 in
    let canvas := paste canvas pil_img x y in
    if negb inpaint then Ok canvas
    else
      let flag := if String.eqb method "telea" then INPAINT_TELEA
                  else INPAINT_NS in
      Ok (mkImage "RGBA" (width canvas) (height canvas)
            (build (width canvas) (height canvas)
               (fun i j => (cv2_inpaint flag canvas i j ++ [255])%list))).

Definition smart_square (pil_img : Image) (side : Z)
    (use_saliency allow_crop : bool) : result Image :=
  let '(w, h) := size pil_img in
  if (w =? side) && (h =? side) then Ok pil_img
  else
    d <- aspect_delta w h ;;
    if Py.flt d (Py.lit (1 # 10)) then
      if Z.max w h >? side then
        img_fit <- resize_lanczos_fit_long pil_img side ;;
        pad_to_square img_fit side false "telea"
      else pad_to_square pil_img side false "telea"
    else
      img_fit <- resize_lanczos_fit_long pil_img side ;;
      let '(w, h) := size img_fit in
      if negb allow_crop then pad_to_square img_fit side false "telea"
      else if (w >=? side) && (h >=? side) then
        cxy <-
          (if use_saliency then
             bbox <- bbox_from_saliency img_fit ;;
             let '(b0, b1, b2, b3) := bbox in
             Ok ((b0 + b2) / 2, (b1 + b3) / 2)
           else Ok (w / 2, h / 2)) ;;
        let '(cx, cy) := cxy in
        let x0 := Z.max 0 (Z.min (w - side) (cx - side / 2)) in
        let y0 := Z.max 0 (Z.min (h - side) (cy - side / 2)) in
        crop img_fit (x0, y0, x0 + side, y0 + side)
      else pad_to_square img_fit side false "telea".

Definition fit_to_size (pil_img : Image) (target_w target_h : Z)
    (allow_crop : bool) : result Image :=
  let '(w, h) := size pil_img in
  if (w =? target_w) && (h =? target_h) then Ok pil_img
  else
    img_aspect <- (if h >? 0 then Py.truediv w h else Ok (Py.lit 1)) ;;
    target_aspect <-
      (if target_h >? 0 then Py.truediv target_w target_h else Ok (Py.lit 1)) ;;
    let needs_downscale := (w >? target_w) || (h >? target_h) in
    img_fit <-
      (if needs_downscale then
         new_wh <-
           (if Py.fle target_aspect img_aspect then
              scale <- Py.truediv target_w w ;;
              Ok (target_w, Z.max 1 (Py.int (Py.fmul (Py.float_of_int h) scale)))
            else
              scale <- Py.truediv target_h h ;;
              Ok (Z.max 1 (Py.int (Py.fmul (Py.float_of_int w) scale)), target_h)) ;;
         let '(new_w, new_h) := new_wh in
         new_wh <-
           (if new_w >? target_w then
              s <- Py.truediv target_w new_w ;;
              Ok (target_w, Py.int (Py.fmul (Py.float_of_int new_h) s))
            else Ok (new_w, new_h)) ;;
         let '(new_w, new_h) := new_wh in
         new_wh <-
           (if new_h >? target_h then
              s <- Py.truediv target_h new_h ;;
              Ok (Py.int (Py.fmul (Py.float_of_int new_w) s), target_h)
            else Ok (new_w, new_h)) ;;
         resize_lanczos_to_box pil_img new_wh
       else Ok pil_img) ;;
    let '(w, h) := size img_fit in
    let pad :=
      canvas <- Image_new "RGBA" target_w target_h transparent ;;
      let x := (target_w - w) / 2 in
      let y := (target_h - h) / 2 in
      Ok (paste canvas img_fit x y) in
    if negb allow_crop then pad
    else if (w >=? target_w) && (h >=? target_h) then
      let x0 := (w - target_w) / 2 in
      let y0 := (h - target_h) / 2 in
      crop img_fit (x0, y0, x0 + target_w, y0 + target_h)
    else pad.

End Package.

(** ** numpy float32 arithmetic *)

Module Np.
Import Float.

Definition binary32 : Z := 24.

Definition float32 := Q.

(** [arr.astype(np.float32)] on an integer, and a Python float scalar
    taking part in a float32 operation. *)
Definition of_int (z : Z) : float32 := fl binary32 (inject_Z z).
Definition scalar (q : Q) : float32 := fl binary32 q.

Definition div (x y : float32) : float32 := fl binary32 (x / y).
Definition add (x y : float32) : float32 := fl binary32 (x + y).
Definition sub (x y : float32) : float32 := fl binary32 (x - y).
Definition mul (x y : float32) : float32 := fl binary32 (x * y).

Definition gt (x y : float32) : bool := negb (Qle_bool x y).

(** [np.clip(x, lo, hi)] *)
Definition clip (x lo hi : float32) : float32 :=
  if Qle_bool x lo then lo else if Qle_bool hi x then hi else x.

(** [x.astype(np.uint8)] for a value already within [0, 255]. *)
Definition to_uint8 (x : float32) : Z := trunc x.

End Np.

Section AlphaFix.
Context {imaging : Imaging}.

(** ** alpha_fix.py *)

(** One channel of one pixel in [unpremultiply_rgba]: with
    [a = alpha / 255.0] in float32, the value of a pixel in the mask
    [a > 1e-5] is divided by [clip(a, 1e-5, 1.0)]; then every value is
    clipped to [0, 255] and cast back to uint8. *)
Definition unpremultiply_channel (alpha c : Z) : Z :=
  let a := Np.div (Np.of_int alpha) (Np.scalar 255) in
  let mask := Np.gt a (Np.scalar (1 # 100000)) in
  let c32 := Np.of_int c in
  let c' := if mask
            then Np.div c32 (Np.clip a (Np.scalar (1 # 100000)) (Np.scalar 1))
            else c32 in
  Np.to_uint8 (Np.clip c' (Np.scalar 0) (Np.scalar 255)).

Definition unpremultiply_pixel (p : Pixel) : Pixel :=
  match p with
  | [r; g; b; alpha] =>
      [unpremultiply_channel alpha r; unpremultiply_channel alpha g;
       unpremultiply_channel alpha b; Np.to_uint8 (Np.of_int alpha)]
  | _ => p
  end.

Definition unpremultiply_rgba (pil_img : Image) : Image :=
  if negb (String.eqb (mode pil_img) "RGBA") then pil_img
  else mkImage "RGBA" (width pil_img) (height pil_img)
         (map (map unpremultiply_pixel) (rows pil_img)).

Definition set_alpha (p : Pixel) (a : Z) : Pixel :=
  match p with
  | [r; g; b; _] => [r; g; b; a]
  | _ => p
  end.

(** [cv2.dilate] with a square kernel of ones: the maximum over the window,
    pixels outside the image left out. *)
Definition dilate_alpha (pil_img : Image) (radius x y : Z) : Z :=
  let alpha i j := nth 3 (getpixel pil_img i j) 0 in
  let window :=
    flat_map
      (fun dj => flat_map
         (fun di =>
            let i := x - radius + di in
            let j := y - radius + dj in
            if in_bounds pil_img i j then [alpha i j] else [])
         (zrange (radius * 2 + 1)))
      (zrange (radius * 2 + 1)) in
  list_max (alpha x y) window.

Definition defringe_alpha (pil_img : Image) (radius : Z) : result Image :=
  if negb (String.eqb (mode pil_img) "RGBA") then Ok pil_img
  else if radius * 2 + 1 <? 0
  then Raise (ValueError "negative dimensions are not allowed")
  else Ok (mkImage "RGBA" (width pil_img) (height pil_img)
             (build (width pil_img) (height pil_img)
                (fun x y => set_alpha (getpixel pil_img x y)
                              (dilate_alpha pil_img radius x y)))).

Definition smooth_alpha_edges (pil_img : Image) (radius : Q) : Image :=
  if negb (String.eqb (mode pil_img) "RGBA") then pil_img
  else mkImage "RGBA" (width pil_img) (height pil_img)
         (build (width pil_img) (height pil_img)
            (fun x y =>
               let alpha_blur := cv2_GaussianBlur pil_img radius x y in
               let alpha_smooth :=
                 Np.to_uint8 (Np.clip alpha_blur (Np.scalar 0) (Np.scalar 255)) in
               match getpixel pil_img x y with
               | [r; g; b; _] =>
                   [Np.to_uint8 (Np.of_int r); Np.to_uint8 (Np.of_int g);
                    Np.to_uint8 (Np.of_int b);
                    Np.to_uint8 (Np.of_int alpha_smooth)]
               | p => p
               end)).

End AlphaFix.

(** ** The file system *)

Record Path : Type := mkPath {
  parent : string;
  stem : string;
  suffix : string
}.

(** [str(path)] *)
Definition str (p : Path) : string := (parent p ++ "/" ++ stem p ++ suffix p)%string.

Inductive Kind : Type := Kind_auto | pixel_art | illustration.

Definition Kind_value (k : Kind) : string :=
  match k with
  | Kind_auto => "auto"
  | pixel_art => "pixel_art"
  | illustration => "illustration"
  end.

Inductive Value : Type :=
| VStr (s : string)
| VInt (z : Z)
| VBool (b : bool)
| VBBox (bbox : Z * Z * Z * Z).

(** The metadata dict, in insertion order. *)
Definition Meta := list (string * Value).

Inductive file : Type :=
| ImageFile (img : Image) (icc : option string)
| LogFile (lines : list Meta)
| OtherFile.

(** The files by path, and the paths the process can write
    (directory creatable, file writable). *)
Record World : Type := mkWorld {
  files : string -> option file;
  writable : string -> bool
}.

Definition update (W : World) (path : string) (f : option file) : World :=
  mkWorld (fun p => if String.eqb p path then f else files W p) (writable W).

(** Computations on the file system that may raise. *)
Definition M (A : Type) : Type := World -> result A * World.

Definition ret {A : Type} (a : A) : M A := fun W => (Ok a, W).

Definition lift {A : Type} (r : result A) : M A := fun W => (r, W).

Definition bindM {A B : Type} (m : M A) (k : A -> M B) : M B :=
  fun W =>
    match m W with
    | (Ok a, W') => k a W'
    | (Raise e, W') => (Raise e, W')
    end.

Notation "x <~ m ;; k" := (bindM m (fun x => k))
  (at level 61, m at next level, right associativity).

Definition write_file (path : string) (f : file) : M unit :=
  fun W =>
    if writable W path then (Ok tt, update W path (Some f))
    else (Raise (OSError "Permission denied"), W).

(** [path.unlink(missing_ok=True)] inside [try ... except Exception: pass] *)
Definition unlink_quietly (path : string) : M unit :=
  fun W => (Ok tt, if writable W path then update W path None else W).

(** [with open(path, "a") as f: f.write(json.dumps(meta) + "\n")], after
    creating the parent directory. *)
Definition append_log (path : string) (meta : Meta) : M unit :=
  fun W =>
    if writable W path then
      let f := match files W path with
               | None => LogFile [meta]
               | Some (LogFile lines) => LogFile (lines ++ [meta])
               | Some _ => OtherFile
               end in
      (Ok tt, update W path (Some f))
    else (Raise (OSError "Permission denied"), W).

Section Pipeline.
Context {imaging : Imaging}.

(** ** io.py *)

(** [img.convert(dst)] *)
Definition convert_image (img : Image) (dst : string) : Image :=
  mkImage dst (width img) (height img)
    (map (map (convert (mode img) dst)) (rows img)).

(** Returns the image together with [get_icc_profile] of it. *)
Definition load_image_rgba (path : Path) : M (Image * option string) :=
  fun W =>
    match files W (str path) with
    | Some (ImageFile img icc) =>
        let img :=
          if String.eqb (mode img) "P" || String.eqb (mode img) "L"
          then convert_image img "RGBA"
          else if String.eqb (mode img) "RGB" then convert_image img "RGB"
          else if String.eqb (mode img) "RGBA" then img
          else convert_image img "RGBA" in
        (Ok (img, icc), W)
    | Some _ => (Raise (OSError "cannot identify image file"), W)
    | None => (Raise (OSError "No such file or directory"), W)
    end.

Definition save_image_with_icc (img : Image) (output_path : Path)
    (icc_profile : option string) : M unit :=
  let icc := match icc_profile with
             | Some EmptyString => None
             | other => other
             end in
  write_file (str output_path) (ImageFile img icc).

(** ** realesrgan.py, seen from the pipeline *)

Definition run_realesrgan (input_path output_path : Path) : M unit :=
  fun W =>
    match files W (str input_path) with
    | Some (ImageFile img _) =>
        match realesrgan img with
        | Ok out => write_file (str output_path) (ImageFile out None) W
        | Raise e => (Raise e, W)
        end
    | _ => (Raise (OSError ("Input file not found: " ++ str input_path)), W)
    end.

(** ** detect.py: detect_kind *)

Definition detect_kind (pil_img : Image) (pixel_color_threshold : Z)
    (edge_threshold : Py.float) : result Kind :=
  if (width pil_img <? 1) || (height pil_img <? 1)
  then Raise (Cv2Error "resize: empty image")
  else
    let few_colors := count_unique_colors pil_img <? pixel_color_threshold in
    let edge_ratio := canny_edge_ratio pil_img in
    if few_colors && Py.flt edge_threshold edge_ratio then Ok pixel_art
    else Ok illustration.

(** ** enhance.py *)

(** [clip(c + amount * (c - blur), 0, 255)] in float32, cast to uint8. *)
Definition sharpen_channel (amount : Py.float) (c cb : Z) : Z :=
  let x := Np.of_int c in
  let xb := Np.of_int cb in
  Np.to_uint8
    (Np.clip (Np.add x (Np.mul (Np.scalar amount) (Np.sub x xb)))
       (Np.scalar 0) (Np.scalar 255)).

Definition unsharp_mask (pil_img : Image) (radius : Q) (amount : Py.float)
    (rgb_only : bool) : Image :=
  mkImage (mode pil_img) (width pil_img) (height pil_img)
    (build (width pil_img) (height pil_img)
       (fun x y =>
          let p := getpixel pil_img x y in
          let pb := pil_GaussianBlur pil_img radius x y in
          if rgb_only && String.eqb (mode pil_img) "RGBA" then
            match p, pb with
            | [r; g; b; a], [rb; gb; bb; _] =>
                [sharpen_channel amount r rb; sharpen_channel amount g gb;
                 sharpen_channel amount b bb; Np.to_uint8 (Np.of_int a)]
            | _, _ => p
            end
          else map (fun ccb => sharpen_channel amount (fst ccb) (snd ccb))
                 (combine p pb))).

(** ** pipeline.py *)

Definition error_meta (src : Path) (e : exn) : Meta :=
  [("src", VStr (str src)); ("error", VStr (exn_str e)); ("ok", VBool false)]%string.

Definition tmp_in (src dst : Path) : Path :=
  mkPath (parent dst) (".__tmp_in_" ++ stem src) ".png".

Definition tmp_out (src dst : Path) : Path :=
  mkPath (parent dst) (".__tmp_sr_" ++ stem src) ".png".

(** Everything up to the image that is to be saved: load, kind, trim,
    alpha repair, scaling, fitting, enhancement. *)
Definition process_image (src dst : Path) (target : Z)
    (target_w target_h : option Z) (kind : Kind) (superres : string)
  : M (Meta * Image * option string) :=
  loaded <~ load_image_rgba src ;;
  let '(pil, icc) := loaded in
  let meta : Meta :=
    [("src", VStr (str src)); ("w", VInt (width pil));
     ("h", VInt (height pil))]%string in
  let '(final_w, final_h, is_square) :=
    match target_w, target_h with
    | Some tw, Some th => (tw, th, false)
    | _, _ => (target, target, true)
    end in
  k <~ lift (match kind with
             | Kind_auto => detect_kind pil 80 (Py.lit (12 # 100))
             | _ => Ok kind
             end) ;;
  let meta := (meta ++ [("kind", VStr (Kind_value k))])%list%string in
  trim <~ lift (match bbox_from_alpha pil 5 with
                | Some bbox =>
                    meaningful <- is_alpha_bbox_meaningful pil bbox (Py.lit (5 # 100)) ;;
                    if meaningful
                    then cropped <- crop_to_bbox pil bbox 2 ;;
                         Ok (cropped, bbox, true)
                    else Ok (pil, (0, 0, width pil - 1, height pil - 1), false)
                | None => Ok (pil, (0, 0, width pil - 1, height pil - 1), false)
                end) ;;
  let '(pil, bbox, trimmed) := trim in
  let meta :=
    (meta ++ [("bbox", VBBox bbox); ("trimmed", VBool trimmed)])%list%string in
  let pil := unpremultiply_rgba pil in
  pil <~ lift (match k with
               | pixel_art => defringe_alpha pil 1
               | _ => Ok pil
               end) ;;
  let fit (pil : Image) : result Image :=
    if is_square then smart_square pil target false false
    else fit_to_size pil final_w final_h false in
  pil <~ (match k with
          | pixel_art =>
              lift (let sf :=
                      if is_square then choose_integer_scale (size pil) target
                      else
                        let long_side := Z.max (width pil) (height pil) in
                        let target_long := Z.max final_w final_h in
                        choose_integer_scale (long_side, long_side) target_long in
                    pil <- resize_nearest pil sf ;;
                    fit pil)
          | _ =>
              pil <~ (if String.eqb superres "realesrgan" then
                        _ <~ save_image_with_icc pil (tmp_in src dst) icc ;;
                        _ <~ run_realesrgan (tmp_in src dst) (tmp_out src dst) ;;
                        reloaded <~ load_image_rgba (tmp_out src dst) ;;
                        _ <~ unlink_quietly (str (tmp_in src dst)) ;;
                        _ <~ unlink_quietly (str (tmp_out src dst)) ;;
                        ret (fst reloaded)
                      else ret pil) ;;
              pil <~ lift (fit pil) ;;
              ret (smooth_alpha_edges pil (1 # 2))
          end) ;;
  let pil := match k with
             | pixel_art => unsharp_mask pil 1 (Py.lit (2 # 10)) false
             | _ => unsharp_mask pil 1 (Py.lit (1 # 10)) true
             end in
  ret (meta, pil, icc).

(** The body of the [try] block. *)
Definition process_body (src dst : Path) (target : Z)
    (target_w target_h : option Z) (kind : Kind) (superres : string)
    (log_jsonl : option Path) : M Meta :=
  processed <~ process_image src dst target target_w target_h kind superres ;;
  let '(meta, pil, icc) := processed in
  _ <~ save_image_with_icc pil dst icc ;;
  let meta :=
    (meta ++ [("dst", VStr (str dst)); ("ok", VBool true);
              ("final_w", VInt (width pil)); ("final_h", VInt (height pil))])%list%string in
  _ <~ (match log_jsonl with
        | Some l => append_log (str l) meta
        | None => ret tt
        end) ;;
  ret meta.

Definition process_one (src dst : Path) (target : Z)
    (target_w target_h : option Z) (kind : Kind) (superres : string)
    (outpaint : bool) (log_jsonl : option Path) : M Meta :=
  fun W =>
    match process_body src dst target target_w target_h kind superres log_jsonl W with
    | (Ok meta, W') => (Ok meta, W')
    | (Raise e, W') =>
        let error_msg := (str src ++ ": " ++ exn_str e)%string in
        let W'' :=
          match log_jsonl with
          | Some l => snd (append_log (str l) (error_meta src e) W')
          | None => W'
          end in
        (Raise (RuntimeError error_msg), W'')
    end.

End Pipeline.

(** ** A concrete backend and sample images *)

(** Nearest-neighbour sampling, identity conversion and blur, no saliency:
    one possible choice of the kernels, used to run the definitions. *)
Definition nearest_imaging : Imaging := {|
  resample := fun _ im w h x y =>
                getpixel im (x * width im / w) (y * height im / h);
  convert_other := fun _ _ p => p;
  cv2_inpaint := fun _ im x y => firstn 3 (getpixel im x y);
  cv2_GaussianBlur := fun im _ x y => inject_Z (nth 3 (getpixel im x y) 0);
  cv2_saliency_rect := fun _ => None;
  pil_GaussianBlur := fun im _ x y => getpixel im x y;
  count_unique_colors := fun _ => 256;
  canny_edge_ratio := fun _ => 0%Q;
  realesrgan := fun _ => Raise (RuntimeError "realesrgan-ncnn-vulkan not found")
|}.

Definition sample_rgba : Image :=
  mkImage "RGBA" 2 1 [[[10; 20; 30; 255]; [40; 50; 60; 0]]].


(** A 60 x 40 RGB image of one colour. *)
Definition sample_large : Image :=
  mkImage "RGB" 60 40 (build 60 40 (fun _ _ => [9; 9; 9])).

(** A 100 x 100 RGBA image, opaque white. *)
Definition sample_100 : Image :=
  mkImage "RGBA" 100 100 (build 100 100 (fun _ _ => [255; 255; 255; 255])).

Definition sample_src : Path := mkPath "inputs" "hero" ".png".
Definition sample_dst : Path := mkPath "output" "hero_ac" ".png".
Definition sample_log : Path := mkPath "logs" "run" ".jsonl".



(** A backend whose super-resolution tool works: it enlarges four times by
    pixel repetition.  The other kernels are those of [nearest_imaging]. *)
Definition upscaling_imaging : Imaging := {|
  resample := fun _ im w h x y =>
                getpixel im (x * width im / w) (y * height im / h);
  convert_other := fun _ _ p => p;
  cv2_inpaint := fun _ im x y => firstn 3 (getpixel im x y);
  cv2_GaussianBlur := fun im _ x y => inject_Z (nth 3 (getpixel im x y) 0);
  cv2_saliency_rect := fun _ => None;
  pil_GaussianBlur := fun im _ x y => getpixel im x y;
  count_unique_colors := fun _ => 256;
  canny_edge_ratio := fun _ => 0%Q;
  realesrgan := fun im =>
                  Ok (mkImage (mode im) (4 * width im) (4 * height im)
                        (build (4 * width im) (4 * height im)
                           (fun x y => getpixel im (x / 4) (y / 4))))
|}.

(** The source image exists and every path can be written. *)
Definition writable_world : World :=
  mkWorld
    (fun p => if String.eqb p (str sample_src)
              then Some (ImageFile sample_rgba None) else None)
    (fun _ => true).

(** ** Vocabulary of the specification *)

Section Vocabulary.
Context {imaging : Imaging}.

(** [out] shows the whole of [fit], unchanged up to the conversion to the
    mode of [out], centred in a box of [tw] x [th]. *)
Definition centred_in (out fit : Image) (tw th : Z) : Prop :=
  width fit <= tw /\ height fit <= th /\
  forall x y, 0 <= x < width fit -> 0 <= y < height fit ->
    getpixel out ((tw - width fit) / 2 + x) ((th - height fit) / 2 + y)
    = convert (mode fit) (mode out) (getpixel fit x y).

(** Outside the box of [fit], [out] is fully transparent. *)
Definition transparent_around (out fit : Image) (tw th : Z) : Prop :=
  forall i j, 0 <= i < tw -> 0 <= j < th ->
    ~ ((tw - width fit) / 2 <= i < (tw - width fit) / 2 + width fit /\
       (th - height fit) / 2 <= j < (th - height fit) / 2 + height fit) ->
    getpixel out i j = transparent.

(** [fit] is [img] itself or [img] resampled as a whole: nothing was cut. *)
Definition fitted_from (fit img : Image) : Prop :=
  fit = img \/ exists wh, resize img wh LANCZOS = Ok fit.

End Vocabulary.

(** The dimensions Pillow can hold (C [int]). *)
Definition valid_dim (n : Z) : Prop := 1 <= n < 2 ^ 31.

(** Round-half-even of the exact quotient [v / m], in integer terms. *)
Definition div_half_even (v m : Z) : Z :=
  let f := v / m in
  match 2 * (v mod m) ?= m with
  | Lt => f
  | Gt => f + 1
  | Eq => if Z.even f then f else f + 1
  end.

(** The unit roundoff of binary64. *)
Definition u53 : Q := 1 # 9007199254740992.

(** The doubles nearest to 0.95 and 0.05. *)
Definition c95 : Q := (4278419646001971 # 4503599627370496)%Q.
Definition c05 : Q := (3602879701896397 # 72057594037927936)%Q.

(** Bound on the pixel count of an image for which the double arithmetic of
    [is_alpha_bbox_meaningful] is precise enough to decide like the exact
    ratios; Pillow refuses to open images of more than about [2^28] pixels. *)
Definition area_bound : Z := 2 ^ 40.

(** The decision of [is_alpha_bbox_meaningful] on exact ratios: at least
    5 % of the area is trimmed, or the width ratio or the height ratio is
    below 0.95. *)
Definition meaningful_exact (img_w img_h : Z) (bbox : Z * Z * Z * Z) : Prop :=
  let '(x0, y0, x1, y1) := bbox in
  let bbox_area := inject_Z ((x1 - x0 + 1) * (y1 - y0 + 1)) in
  let original_area := inject_Z (img_w * img_h) in
  (5 # 100 <= 1 - bbox_area / original_area \/
  inject_Z (x1 - x0 + 1) / inject_Z img_w < 95 # 100 \/
  inject_Z (y1 - y0 + 1) / inject_Z img_h < 95 # 100)%Q.



(** Every band of the pixel is a uint8 value. *)
Definition channel_values (p : Pixel) : Prop := Forall (fun c => 0 <= c <= 255) p.

(** The mode strings that select the default, auto mode. *)
Definition is_auto (mode : string) : Prop :=
  mode <> "custom"%string /\ mode <> "power_of_two"%string /\
  mode <> "multiple"%string.

Section PipelineVocabulary.
Context {imaging : Imaging}.

(** [frames P m]: [m] leaves the permissions alone and changes no file
    outside the paths [P]. *)
Definition frames {A : Type} (P : string -> Prop) (m : M A) : Prop :=
  forall W r W', m W = (r, W') ->
    writable W' = writable W /\ forall p, ~ P p -> files W' p = files W p.

Definition is_tmp (src dst : Path) (p : string) : Prop :=
  p = str (tmp_in src dst) \/ p = str (tmp_out src dst).


(** The log file after one more record. *)
Definition appended (f : option file) (meta : Meta) : file :=
  match f with
  | None => LogFile [meta]
  | Some (LogFile lines) => LogFile (lines ++ [meta])
  | Some _ => OtherFile
  end.

End PipelineVocabulary.

(** The alpha value of the pixel at [(x, y)]; 0 where there is none. *)
Definition alpha_at (img : Image) (x y : Z) : Z := nth 3 (getpixel img x y) 0.

(** The size [process_one] aims at: the two target sides when both are
    given, the square of side [target] otherwise. *)
Definition final_size (target : Z) (target_w target_h : option Z) : Z * Z :=
  match target_w, target_h with
  | Some tw, Some th => (tw, th)
  | _, _ => (target, target)
  end.

(** * Properties *)

(** ** Facts about rounding *)

Module FloatFacts.
Import Float.
Local Open Scope Q_scope.

Lemma pow2_pos e : 0 < pow2 e.
Proof. unfold pow2. apply Qpower_0_lt. reflexivity. Qed.

Lemma pow2_add a b : pow2 (a + b) == pow2 a * pow2 b.
Proof. unfold pow2. apply Qpower_plus. discriminate. Qed.

Lemma pow2_opp a : pow2 (- a) == / pow2 a.
Proof. unfold pow2. apply Qpower_opp. Qed.

Lemma pow2_Z a : (0 <= a)%Z -> pow2 a == inject_Z (2 ^ a).
Proof. intros Ha. unfold pow2. rewrite Zpower_Qpower by assumption. reflexivity. Qed.

Lemma pow2_le a b : (a <= b)%Z -> pow2 a <= pow2 b.
Proof.
  intros Hab. unfold pow2. apply Qpower_le_compat_l; [assumption|].
  discriminate.
Qed.

Lemma pow2_lt_inv a b : pow2 a < pow2 b -> (a < b)%Z.
Proof.
  intros H. destruct (Z_lt_le_dec a b) as [Hlt|Hge]; [assumption|].
  apply pow2_le in Hge. lra.
Qed.

End FloatFacts.

Module FloatError.
Import Float FloatFacts.
Local Open Scope Q_scope.

Lemma ilog2_le q : 0 < q -> pow2 (ilog2 q) <= q.
Proof.
  intros Hq. unfold ilog2. destruct q as [n d]. cbn [Qnum Qden].
  remember (Z.log2 n) as a eqn:Ea. remember (Z.log2 (Zpos d)) as b eqn:Eb.
  destruct (Qle_bool (pow2 (a - b)) (n # d)) eqn:Ht.
  - apply Qle_bool_iff. exact Ht.
  - clear Ht.
    assert (Hn : (0 < n)%Z) by (unfold Qlt in Hq; simpl in Hq; lia).
    destruct (Z.log2_spec n Hn) as [Hlo _].
    destruct (Z.log2_spec (Zpos d) (Pos2Z.is_pos d)) as [_ Hhi].
    rewrite <- Ea in Hlo. rewrite <- Eb in Hhi.
    assert (Ha : (0 <= a)%Z) by (subst a; apply Z.log2_nonneg).
    assert (Hb : (0 <= b)%Z) by (subst b; apply Z.log2_nonneg).
    clear Ea Eb.
    replace (a - b - 1)%Z with (a + - (b + 1))%Z by lia.
    rewrite pow2_add, pow2_opp, (pow2_Z a), (pow2_Z (b + 1)) by lia.
    replace (Z.succ b) with (b + 1)%Z in Hhi by lia.
    assert (Hpa : (0 < 2 ^ a)%Z) by (apply Z.pow_pos_nonneg; lia).
    assert (Hpb : (0 < 2 ^ (b + 1))%Z) by (apply Z.pow_pos_nonneg; lia).
    rewrite (Qmake_Qdiv n d).
    apply Qle_shift_div_l; [unfold Qlt; simpl; lia|].
    apply Qle_trans with (inject_Z (2 ^ a)).
    2:{ rewrite <- Zle_Qle. exact Hlo. }
    assert (Hd : inject_Z (Zpos d) <= inject_Z (2 ^ (b + 1)))
      by (rewrite <- Zle_Qle; lia).
    assert (Hpbq : 0 < inject_Z (2 ^ (b + 1)))
      by (rewrite <- (Zlt_Qlt 0); exact Hpb).
    assert (Hpaq : 0 < inject_Z (2 ^ a))
      by (rewrite <- (Zlt_Qlt 0); exact Hpa).
    rewrite <- Qmult_assoc.
    rewrite <- (Qmult_1_r (inject_Z (2 ^ a))) at 2.
    apply Qmult_le_l; [exact Hpaq|].
    rewrite Qmult_comm. apply Qle_shift_div_r; [exact Hpbq|]. lra.
Qed.

Lemma round_half_even_Z z : round_half_even (inject_Z z) = z.
Proof.
  unfold round_half_even. rewrite Qfloor_Z.
  assert (H : inject_Z z - inject_Z z == 0) by ring.
  rewrite H. reflexivity.
Qed.

Lemma round_half_even_err q :
  inject_Z (round_half_even q) - (1 # 2) <= q /\
  q <= inject_Z (round_half_even q) + (1 # 2).
Proof.
  unfold round_half_even.
  pose proof (Qfloor_le q) as Hlo. pose proof (Qlt_floor q) as Hhi.
  rewrite inject_Z_plus in Hhi.
  change (inject_Z 1) with 1 in Hhi.
  destruct (Qcompare (q - inject_Z (Qfloor q)) (1 # 2)) eqn:Hc.
  - apply Qeq_alt in Hc.
    destruct (Z.even (Qfloor q)); [|rewrite inject_Z_plus; change (inject_Z 1) with 1];
      split; lra.
  - apply Qlt_alt in Hc. split; lra.
  - apply Qgt_alt in Hc. rewrite inject_Z_plus. change (inject_Z 1) with 1.
    split; lra.
Qed.

Lemma round_pos_err prec q :
  0 < q ->
  round_pos prec q - q <= q * pow2 (- prec) /\
  q - round_pos prec q <= q * pow2 (- prec).
Proof.
  intros Hq. unfold round_pos.
  set (e := (ilog2 q - (prec - 1))%Z).
  pose proof (pow2_pos e) as He.
  pose proof (round_half_even_err (q / pow2 e)) as [H1 H2].
  set (m := inject_Z (round_half_even (q / pow2 e))) in *.
  assert (Hx : q / pow2 e * pow2 e == q) by (field; lra).
  assert (Hhalf : (1 # 2) * pow2 e <= q * pow2 (- prec)).
  { pose proof (ilog2_le q Hq) as Hl.
    pose proof (pow2_pos (- prec)) as Hp.
    assert (E : (1 # 2) * pow2 e == pow2 (ilog2 q) * pow2 (- prec)).
    { unfold e. replace (ilog2 q - (prec - 1))%Z with (ilog2 q + (- prec + 1))%Z by lia.
      rewrite !pow2_add. change (pow2 1) with 2. ring. }
    rewrite E. apply Qmult_le_compat_r; lra. }
  assert (A1 : (m - (1 # 2)) * pow2 e <= q / pow2 e * pow2 e)
    by (apply Qmult_le_compat_r; lra).
  assert (A2 : q / pow2 e * pow2 e <= (m + (1 # 2)) * pow2 e)
    by (apply Qmult_le_compat_r; lra).
  rewrite Hx in A1, A2.
  split; lra.
Qed.

(** The standard model: a positive result is off by at most [2^-prec]
    relative to the exact value. *)
Lemma fl_rel_err prec q :
  0 < q ->
  q * (1 - pow2 (- prec)) <= fl prec q /\ fl prec q <= q * (1 + pow2 (- prec)).
Proof.
  intros Hq. unfold fl.
  assert (Hc : Qcompare q 0 = Gt) by (apply Qgt_alt; exact Hq).
  rewrite Hc. rewrite Qred_correct.
  assert (Hq' : 0 < Qred q) by (rewrite Qred_correct; exact Hq).
  destruct (round_pos_err prec (Qred q) Hq') as [H1 H2].
  rewrite (Qred_correct q) in H1 at 2 3. rewrite (Qred_correct q) in H2 at 1 3.
  split; lra.
Qed.

Lemma fl_pos prec q : (1 <= prec)%Z -> 0 < q -> 0 < fl prec q.
Proof.
  intros Hp Hq. destruct (fl_rel_err prec q Hq) as [H _].
  assert (Hlt : pow2 (- prec) < 1).
  { assert (Hle : pow2 (- prec) <= pow2 (- 1)) by (apply pow2_le; lia).
    change (pow2 (-1)) with (1 # 2) in Hle. lra. }
  assert (0 < q * (1 - pow2 (- prec))) by (apply Qmult_lt_0_compat; lra).
  lra.
Qed.

End FloatError.

Module FloatExact.
Import Float FloatFacts FloatError.
Local Open Scope Q_scope.

Lemma round_half_even_comp x y : x == y -> round_half_even x = round_half_even y.
Proof.
  intros H. unfold round_half_even. rewrite (Qfloor_comp x y H).
  assert (E : x - inject_Z (Qfloor y) == y - inject_Z (Qfloor y)) by (rewrite H; reflexivity).
  rewrite (Qcompare_comp _ _ E (1 # 2) (1 # 2) (Qeq_refl _)). reflexivity.
Qed.

Lemma fl_comp prec x y : x == y -> fl prec x = fl prec y.
Proof.
  intros H. unfold fl.
  rewrite (Qcompare_comp x y H 0 0 (Qeq_refl 0)).
  rewrite (Qred_complete x y H).
  assert (Hn : - x == - y) by (rewrite H; reflexivity).
  rewrite (Qred_complete _ _ Hn). reflexivity.
Qed.

(** Anything strictly within one half of an integer rounds to it. *)
Lemma round_half_even_near k x :
  inject_Z k - (1 # 2) < x -> x < inject_Z k + (1 # 2) -> round_half_even x = k.
Proof.
  intros Hlo Hhi.
  pose proof (round_half_even_err x) as [H1 H2].
  set (m := round_half_even x) in *.
  assert (Hm : inject_Z m < inject_Z k + 1) by lra.
  assert (Hk : inject_Z k < inject_Z m + 1) by lra.
  change 1 with (inject_Z 1) in Hm, Hk.
  rewrite <- inject_Z_plus in Hm, Hk.
  rewrite <- Zlt_Qlt in Hm, Hk. lia.
Qed.

(** A number with at most [prec] significant bits is its own rounding. *)
Lemma fl_exact prec M E :
  (0 < M < 2 ^ prec)%Z -> (1 <= prec)%Z ->
  fl prec (inject_Z M * pow2 E) == inject_Z M * pow2 E.
Proof.
  intros HM Hp.
  set (q := inject_Z M * pow2 E).
  assert (HMq : 0 < inject_Z M) by (rewrite <- (Zlt_Qlt 0); lia).
  assert (Hq : 0 < q) by (apply Qmult_lt_0_compat; [exact HMq|apply pow2_pos]).
  unfold fl. assert (Hc : Qcompare q 0 = Gt) by (apply Qgt_alt; exact Hq).
  rewrite Hc, Qred_correct.
  set (q' := Qred q). assert (Hq' : q' == q) by apply Qred_correct.
  unfold round_pos. set (e := (ilog2 q' - (prec - 1))%Z).
  assert (He : (e <= E)%Z).
  { assert (Hlog : pow2 (ilog2 q') <= q') by (apply ilog2_le; rewrite Hq'; exact Hq).
    assert (Hup : q < pow2 (E + prec)).
    { unfold q. rewrite pow2_add, (pow2_Z prec) by lia.
      rewrite (Qmult_comm (pow2 E)).
      apply Qmult_lt_compat_r; [apply pow2_pos|]. rewrite <- Zlt_Qlt. lia. }
    assert (Hlt : pow2 (ilog2 q') < pow2 (E + prec)) by lra.
    apply pow2_lt_inv in Hlt. unfold e. lia. }
  assert (Hx : q' / pow2 e == inject_Z (M * 2 ^ (E - e))).
  { rewrite Hq'. unfold q. rewrite inject_Z_mult, <- (pow2_Z (E - e)) by lia.
    replace (E - e)%Z with (E + - e)%Z by lia.
    rewrite pow2_add, pow2_opp. pose proof (pow2_pos e). field. lra. }
  rewrite (round_half_even_comp _ _ Hx), round_half_even_Z.
  rewrite inject_Z_mult, <- (pow2_Z (E - e)) by lia.
  unfold q. replace E with ((E - e) + e)%Z at 2 by lia.
  rewrite (pow2_add (E - e) e). ring.
Qed.

Lemma fl_exact_Z prec z :
  (0 < z < 2 ^ prec)%Z -> (1 <= prec)%Z -> fl prec (inject_Z z) == inject_Z z.
Proof.
  intros Hz Hp. pose proof (fl_exact prec z 0 Hz Hp) as H.
  change (pow2 0) with 1 in H.
  assert (E : inject_Z z * 1 == inject_Z z) by ring.
  rewrite (fl_comp prec _ _ E) in H. rewrite H. exact E.
Qed.

End FloatExact.

(** ** round_to_power_of_two *)

Section RoundToPowerOfTwo.
Local Open Scope Z_scope.

(** With [value - power] iterations left the loop runs to its exit test:
    the result is [power * 2^j] for the least [j] that reaches [value]. *)
Lemma while_power_lt_exit fuel : forall power value,
  1 <= power -> value - power <= Z.of_nat fuel ->
  let r := while_power_lt fuel power value in
  value <= r /\
  exists j, 0 <= j /\ r = power * 2 ^ j /\ (0 < j -> power * 2 ^ (j - 1) < value).
Proof.
  induction fuel as [|n IH]; intros power value Hp Hfuel; cbn zeta.
  - simpl. split; [lia|]. exists 0. repeat split; try lia.
  - cbn [while_power_lt]. destruct (Z.ltb_spec power value) as [Hlt|Hge].
    + rewrite Z.shiftl_mul_pow2 by lia. change (2 ^ 1) with 2.
      destruct (IH (power * 2) value) as [Hv [j [Hj [Hr Hprev]]]]; [lia|lia|].
      split; [exact Hv|]. exists (j + 1). split; [lia|]. split.
      * rewrite Hr, Z.pow_add_r by lia. change (2 ^ 1) with 2. ring.
      * intros _. replace (j + 1 - 1) with j by lia.
        destruct (Z.eq_dec j 0) as [->|Hne]; [simpl; lia|].
        specialize (Hprev ltac:(lia)).
        replace j with ((j - 1) + 1) by lia.
        rewrite Z.pow_add_r by lia. change (2 ^ 1) with 2. lia.
    + split; [lia|]. exists 0. repeat split; try lia.
Qed.

(** More fuel than [value] changes nothing: the loop has already exited. *)
Lemma while_power_lt_fuel fuel : forall power value,
  1 <= power -> value - power <= Z.of_nat fuel ->
  while_power_lt (S fuel) power value = while_power_lt fuel power value.
Proof.
  induction fuel as [|n IH]; intros power value Hp Hfuel.
  - simpl. destruct (Z.ltb_spec power value); [lia|reflexivity].
  - cbn [while_power_lt]. destruct (Z.ltb_spec power value) as [Hlt|Hge];
      [|reflexivity].
    change (while_power_lt (S n) (Z.shiftl power 1) value =
            while_power_lt n (Z.shiftl power 1) value).
    apply IH; rewrite Z.shiftl_mul_pow2 by lia; change (2 ^ 1) with 2; lia.
Qed.

(** What the function computes, for a positive input: [2^j] is the least
    power of two that reaches [value], and the result is [2^j] when that is
    strictly closer to [value] than [2^(j-1)] and [2^(j-1)] otherwise. *)
Lemma round_to_power_of_two_cases value :
  1 <= value ->
  exists j, 0 <= j /\ value <= 2 ^ j /\ (0 < j -> 2 ^ (j - 1) < value) /\
    ((2 ^ j - value < value - 2 ^ (j - 1) /\ round_to_power_of_two value = 2 ^ j) \/
     (0 < j /\ value - 2 ^ (j - 1) <= 2 ^ j - value /\
      round_to_power_of_two value = 2 ^ (j - 1))).
Proof.
  intros Hv. unfold round_to_power_of_two.
  destruct (Z.leb_spec value 0) as [?|_]; [lia|].
  pose proof (while_power_lt_exit (Z.to_nat value) 1 value ltac:(lia) ltac:(lia))
    as [Hle [j [Hj [Hr Hprev]]]].
  cbn zeta in Hle, Hr. rewrite Z.mul_1_l in Hr. rewrite Hr in *. clear Hr.
  exists j. split; [exact Hj|]. split; [exact Hle|]. split.
  { intros H. specialize (Hprev H). lia. }
  destruct (Z.eq_dec j 0) as [->|Hne].
  - change (2 ^ 0) with 1 in *. change (1 / 2) with 0. change (2 ^ (0 - 1)) with 0.
    assert (value = 1) by lia. subst value. left. split; [lia|reflexivity].
  - assert (Hhalf : 2 ^ j / 2 = 2 ^ (j - 1)).
    { replace j with ((j - 1) + 1) at 1 by lia.
      rewrite Z.pow_add_r by lia. change (2 ^ 1) with 2.
      apply Z.div_mul. lia. }
    rewrite Hhalf.
    assert (Hpos : 0 < 2 ^ (j - 1)) by (apply Z.pow_pos_nonneg; lia).
    destruct (Z.ltb_spec (2 ^ j - value) (value - 2 ^ (j - 1))) as [Hc|Hc].
    + left. split; [exact Hc|reflexivity].
    + right. destruct (Z.gtb_spec (2 ^ (j - 1)) 0) as [_|?]; [|lia].
      repeat split; lia.
Qed.

Lemma pow2_mono_le a b : 0 <= a <= b -> 2 ^ a <= 2 ^ b.
Proof. intros H. apply Z.pow_le_mono_r; lia. Qed.

(** The result is a power of two at least as close to [value] as any
    other, and among two equally close ones it is the smaller. *)
Lemma round_to_power_of_two_nearest value :
  1 <= value ->
  exists k, 0 <= k /\ round_to_power_of_two value = 2 ^ k /\
    forall i, 0 <= i ->
      Z.abs (value - 2 ^ k) <= Z.abs (value - 2 ^ i) /\
      (Z.abs (value - 2 ^ k) = Z.abs (value - 2 ^ i) -> 2 ^ k <= 2 ^ i).
Proof.
  intros Hv.
  destruct (round_to_power_of_two_cases value Hv)
    as [j [Hj [Hle [Hprev [[Hc Hr]|[Hj0 [Hc Hr]]]]]]].
  - exists j. split; [exact Hj|]. split; [exact Hr|]. intros i Hi.
    destruct (Z_le_gt_dec j i) as [Hji|Hji].
    + pose proof (pow2_mono_le j i ltac:(lia)). lia.
    + specialize (Hprev ltac:(lia)).
      pose proof (pow2_mono_le i (j - 1) ltac:(lia)). lia.
  - specialize (Hprev Hj0).
    assert (Hlt : 2 ^ (j - 1) < 2 ^ j) by (apply Z.pow_lt_mono_r; lia).
    exists (j - 1). split; [lia|]. split; [exact Hr|]. intros i Hi.
    destruct (Z_le_gt_dec j i) as [Hji|Hji].
    + pose proof (pow2_mono_le j i ltac:(lia)). lia.
    + pose proof (pow2_mono_le i (j - 1) ltac:(lia)). lia.
Qed.

End RoundToPowerOfTwo.

(** ** round_to_multiple *)

Module RoundToMultiple.
Import Float FloatFacts FloatError FloatExact.

Lemma pow2_m53_value : (pow2 (-53) == 1 # 9007199254740992)%Q.
Proof. reflexivity. Qed.

Section Quotient.
Variables v m : Z.
Hypothesis Hv : 0 < v < 2 ^ 52.
Hypothesis Hm : 0 < m.

Let q : Q := (inject_Z v / inject_Z m)%Q.
Let im : Q := (/ inject_Z m)%Q.
Let f : Z := v / m.
Let r : Z := v mod m.

Local Open Scope Q_scope.

Lemma quot_im_pos : 0 < im.
Proof. apply Qinv_lt_0_compat. rewrite <- (Zlt_Qlt 0). exact Hm. Qed.

Lemma quot_m_im : inject_Z m * im == 1.
Proof.
  unfold im. apply Qmult_inv_r. intros H.
  assert (Hlt : 0 < inject_Z m) by (rewrite <- (Zlt_Qlt 0); exact Hm).
  lra.
Qed.

Lemma quot_split : q == inject_Z f + inject_Z r * im.
Proof.
  unfold q, Qdiv. fold im.
  assert (E : v = (m * f + r)%Z) by (apply Z.div_mod; lia).
  rewrite E at 1. rewrite inject_Z_plus, inject_Z_mult.
  pose proof quot_m_im as H.
  transitivity (inject_Z f * (inject_Z m * im) + inject_Z r * im); [ring|].
  rewrite H. ring.
Qed.

Lemma quot_scale a b : (a <= b)%Z -> inject_Z a * im <= inject_Z b * im.
Proof.
  intros H. apply Qmult_le_compat_r; [rewrite <- Zle_Qle; exact H|].
  apply Qlt_le_weak, quot_im_pos.
Qed.

Lemma quot_r_bounds : (0 <= r < m)%Z.
Proof. apply Z.mod_pos_bound. exact Hm. Qed.

Lemma quot_pos : 0 < q.
Proof.
  unfold q, Qdiv. fold im. apply Qmult_lt_0_compat; [|apply quot_im_pos].
  rewrite <- (Zlt_Qlt 0). lia.
Qed.

(** The rounding error of the double quotient is below [1 / (2 m)]. *)
Lemma quot_err :
  q - (1 # 2) * im < fl 53 q /\ fl 53 q < q + (1 # 2) * im.
Proof.
  destruct (fl_rel_err 53 q quot_pos) as [Hlo Hhi].
  pose proof quot_im_pos as Him.
  assert (Hvu : inject_Z v * pow2 (-53) < 1 # 2).
  { rewrite pow2_m53_value. unfold Qlt, Qmult, inject_Z. simpl.
    change (2 ^ 52)%Z with 4503599627370496%Z in Hv. lia. }
  assert (Hu : q * pow2 (-53) < (1 # 2) * im).
  { assert (E : q * pow2 (-53) == inject_Z v * pow2 (-53) * im)
      by (unfold q, Qdiv; fold im; ring).
    rewrite E. apply Qmult_lt_compat_r; [exact Him|exact Hvu]. }
  assert (E1 : q * (1 - pow2 (-53)) == q - q * pow2 (-53)) by ring.
  assert (E2 : q * (1 + pow2 (-53)) == q + q * pow2 (-53)) by ring.
  rewrite E1 in Hlo. rewrite E2 in Hhi.
  set (d := q * pow2 (-53)) in *.
  split; lra.
Qed.

(** Rounding the double quotient gives the same integer as rounding the
    exact quotient. *)
Lemma round_quot : round_half_even (fl 53 q) = div_half_even v m.
Proof.
  pose proof quot_err as [Hlo Hhi]. pose proof quot_split as Hq.
  pose proof quot_r_bounds as Hr. pose proof quot_im_pos as Him.
  pose proof quot_m_im as Hmi.
  unfold div_half_even. fold f r.
  destruct (Z.compare_spec (2 * r) m) as [Heq|Hlt|Hgt].
  - (* tie: the quotient is a half-integer, which is a double *)
    assert (E : q == inject_Z (2 * f + 1) * pow2 (-1)).
    { rewrite Hq, inject_Z_plus, inject_Z_mult. change (pow2 (-1)) with (1 # 2).
      assert (Hr2 : inject_Z 2 * inject_Z r * im == 1)
        by (rewrite <- inject_Z_mult, Heq; exact Hmi).
      change (inject_Z 2) with 2 in *. change (inject_Z 1) with 1. lra. }
    assert (Hf : (0 <= f)%Z) by (apply Z.div_pos; lia).
    assert (Hfv : (f <= v)%Z).
    { unfold f. apply Z.div_le_upper_bound; [lia|]. nia. }
    assert (HM : (0 < 2 * f + 1 < 2 ^ 53)%Z).
    { change (2 ^ 52)%Z with 4503599627370496%Z in Hv.
      change (2 ^ 53)%Z with 9007199254740992%Z. lia. }
    pose proof (fl_exact 53 (2 * f + 1) (-1) HM ltac:(lia)) as Hx.
    rewrite (fl_comp 53 _ _ E).
    rewrite (round_half_even_comp _ _ Hx).
    unfold round_half_even.
    assert (Hfl : Qfloor (inject_Z (2 * f + 1) * pow2 (-1)) = f).
    { change (pow2 (-1)) with (1 # 2).
      assert (E2 : inject_Z (2 * f + 1) * (1 # 2) == inject_Z (2 * f + 1) / inject_Z 2)
        by (change (inject_Z 2) with 2; field).
      rewrite (Qfloor_comp _ _ E2), <- Zdiv_Qdiv.
      replace (2 * f + 1)%Z with (1 + f * 2)%Z by ring.
      rewrite Z.div_add by lia. reflexivity. }
    rewrite Hfl.
    assert (Ec : Qcompare (inject_Z (2 * f + 1) * pow2 (-1) - inject_Z f) (1 # 2) = Eq).
    { apply Qeq_alt. rewrite inject_Z_plus, inject_Z_mult.
      change (pow2 (-1)) with (1 # 2). change (inject_Z 2) with 2.
      change (inject_Z 1) with 1. ring. }
    rewrite Ec. reflexivity.
  - assert (H0 := quot_scale 0 r ltac:(lia)).
    assert (H1 := quot_scale 1 m ltac:(lia)).
    assert (H2 := quot_scale (2 * r + 1) m ltac:(lia)).
    rewrite inject_Z_plus, inject_Z_mult in H2.
    change (inject_Z 0) with 0 in H0. change (inject_Z 1) with 1 in H1, H2.
    change (inject_Z 2) with 2 in H2.
    apply round_half_even_near; lra.
  - assert (H1 := quot_scale (m + 1) (2 * r) ltac:(lia)).
    assert (H2 := quot_scale (r + 1) m ltac:(lia)).
    rewrite inject_Z_plus in H1, H2. rewrite inject_Z_mult in H1.
    change (inject_Z 1) with 1 in H1, H2. change (inject_Z 2) with 2 in H1.
    apply round_half_even_near;
      rewrite inject_Z_plus; change (inject_Z 1) with 1; lra.
Qed.

End Quotient.

Local Open Scope Z_scope.

(** [div_half_even] picks a nearest integer quotient, the even one on a tie. *)
Lemma div_half_even_nearest v m :
  0 < m ->
  let k := div_half_even v m in
  2 * Z.abs (v - k * m) <= m /\
  (2 * Z.abs (v - k * m) = m -> Z.even k = true).
Proof.
  intros Hm. unfold div_half_even.
  pose proof (Z.div_mod v m ltac:(lia)) as E.
  pose proof (Z.mod_pos_bound v m Hm) as Hr.
  set (f := v / m) in *. set (r := v mod m) in *.
  destruct (Z.compare_spec (2 * r) m) as [Heq|Hlt|Hgt]; cbn zeta.
  - destruct (Z.even f) eqn:Hev.
    + split; [nia|]. intros _. exact Hev.
    + split; [nia|]. intros _. rewrite Z.even_add, Hev. reflexivity.
  - split; [nia|]. intros H. exfalso. nia.
  - split; [nia|]. intros H. exfalso. nia.
Qed.

Lemma round_to_multiple_eq value multiple :
  0 < value < 2 ^ 52 -> 0 < multiple ->
  round_to_multiple value multiple = Ok (div_half_even value multiple * multiple).
Proof.
  intros Hv Hm. unfold round_to_multiple.
  destruct (Z.leb_spec value 0) as [?|_]; [lia|].
  unfold Py.truediv. destruct (Z.eqb_spec multiple 0) as [?|_]; [lia|].
  cbn [bind]. unfold Py.round, Py.binary64.
  rewrite (round_quot value multiple Hv Hm). reflexivity.
Qed.

End RoundToMultiple.

(** ** Scaling one side of an image in double arithmetic *)

Module ScaleFacts.
Import Float FloatFacts FloatError FloatExact.
Local Open Scope Q_scope.

Lemma pow2_m53 : pow2 (-53) == u53.
Proof. reflexivity. Qed.

Lemma fl53_bounds q :
  0 < q -> q * (1 - u53) <= fl 53 q /\ fl 53 q <= q * (1 + u53).
Proof.
  intros Hq. destruct (fl_rel_err 53 q Hq) as [H1 H2].
  rewrite pow2_m53 in H1, H2. split; assumption.
Qed.

Lemma inject_Z_pos z : (0 < z)%Z -> 0 < inject_Z z.
Proof. intros H. rewrite <- (Zlt_Qlt 0). exact H. Qed.

Lemma float_of_int_exact z :
  (0 < z < 2 ^ 53)%Z -> Py.float_of_int z == inject_Z z.
Proof.
  intros H. unfold Py.float_of_int, Py.binary64.
  apply fl_exact_Z; [exact H|lia].
Qed.

(** The quotient of two positive ints, times the divisor, is the dividend
    up to one rounding. *)
Lemma truediv_bounds n d :
  (0 < n)%Z -> (0 < d)%Z ->
  exists q, Py.truediv n d = Ok q /\ 0 < q /\
    inject_Z n * (1 - u53) <= q * inject_Z d /\
    q * inject_Z d <= inject_Z n * (1 + u53).
Proof.
  intros Hn Hd. unfold Py.truediv.
  destruct (Z.eqb_spec d 0) as [?|_]; [lia|].
  eexists. split; [reflexivity|].
  pose proof (inject_Z_pos n Hn) as Hnq. pose proof (inject_Z_pos d Hd) as Hdq.
  assert (Hq : 0 < inject_Z n / inject_Z d).
  { apply Qlt_shift_div_l; [exact Hdq|]. lra. }
  unfold Py.binary64.
  destruct (fl53_bounds _ Hq) as [H1 H2].
  set (x := fl 53 (inject_Z n / inject_Z d)) in *.
  assert (Hx : 0 < x) by (apply fl_pos; [lia|exact Hq]).
  split; [exact Hx|].
  assert (E1 : inject_Z n / inject_Z d * (1 - u53) * inject_Z d
               == inject_Z n * (1 - u53)) by (field; lra).
  assert (E2 : inject_Z n / inject_Z d * (1 + u53) * inject_Z d
               == inject_Z n * (1 + u53)) by (field; lra).
  split.
  - rewrite <- E1. apply Qmult_le_compat_r; lra.
  - rewrite <- E2. apply Qmult_le_compat_r; lra.
Qed.

Lemma fmul_int_bounds a s :
  (0 < a < 2 ^ 53)%Z -> 0 < s ->
  let x := Py.fmul (Py.float_of_int a) s in
  0 < x /\ inject_Z a * s * (1 - u53) <= x /\ x <= inject_Z a * s * (1 + u53).
Proof.
  intros Ha Hs. cbn zeta. unfold Py.fmul, Py.binary64.
  assert (E : Py.float_of_int a * s == inject_Z a * s)
    by (rewrite (float_of_int_exact a Ha); reflexivity).
  rewrite (fl_comp 53 _ _ E).
  assert (Hp : 0 < inject_Z a * s).
  { apply Qmult_lt_0_compat; [apply inject_Z_pos; lia|exact Hs]. }
  split; [apply fl_pos; [lia|exact Hp]|]. apply fl53_bounds. exact Hp.
Qed.

Lemma int_lt_succ x t : 0 <= x -> x < inject_Z t + 1 -> (0 <= Py.int x <= t)%Z.
Proof.
  intros H0 Hx. unfold Py.int, trunc.
  assert (Hb : Qle_bool 0 x = true) by (apply Qle_bool_iff; exact H0).
  rewrite Hb. split.
  - change 0%Z with (Qfloor 0). apply Qfloor_resp_le. exact H0.
  - pose proof (Qfloor_le x) as Hf.
    assert (Hlt : inject_Z (Qfloor x) < inject_Z (t + 1)).
    { rewrite inject_Z_plus. change (inject_Z 1) with 1. lra. }
    rewrite <- Zlt_Qlt in Hlt. lia.
Qed.

(** Side [a] of an image scaled by the double [tb / b] truncates to at most
    [ta] whenever [a / b <= ta / tb] holds up to the rounding of the two
    aspect ratios. *)
Lemma scaled_dim_le a b ta tb s :
  (0 < a < 2 ^ 31)%Z -> (0 < b)%Z -> (0 < ta < 2 ^ 31)%Z -> (0 < tb)%Z ->
  inject_Z tb * inject_Z a * (1 - u53) <= inject_Z b * inject_Z ta * (1 + u53) ->
  Py.truediv tb b = Ok s ->
  (0 <= Py.int (Py.fmul (Py.float_of_int a) s) <= ta)%Z.
Proof.
  intros Ha Hb Hta Htb Hasp Hs.
  destruct (truediv_bounds tb b Htb Hb) as [s' [Hs' [Hpos [_ Hup]]]].
  rewrite Hs in Hs'. injection Hs' as <-.
  assert (Ha53 : (0 < a < 2 ^ 53)%Z).
  { change (2 ^ 31)%Z with 2147483648%Z in Ha.
    change (2 ^ 53)%Z with 9007199254740992%Z. lia. }
  destruct (fmul_int_bounds a s Ha53 Hpos) as [Hx0 [_ Hx]].
  set (x := Py.fmul (Py.float_of_int a) s) in *.
  pose proof (inject_Z_pos a ltac:(lia)) as HA.
  pose proof (inject_Z_pos b Hb) as HB.
  pose proof (inject_Z_pos ta ltac:(lia)) as HTA.
  pose proof (inject_Z_pos tb Htb) as HTB.
  assert (HTA' : inject_Z ta <= 2147483648).
  { change 2147483648 with (inject_Z 2147483648). rewrite <- Zle_Qle.
    change (2 ^ 31)%Z with 2147483648%Z in Hta. lia. }
  set (A := inject_Z a) in *. set (B := inject_Z b) in *.
  set (TA := inject_Z ta) in *. set (TB := inject_Z tb) in *.
  (* x * B * (1 - u) <= B * TA * (1 + u)^3 *)
  assert (H1 : x * B <= A * (s * B) * (1 + u53)).
  { assert (E : A * (s * B) * (1 + u53) == A * s * (1 + u53) * B) by ring.
    rewrite E. apply Qmult_le_compat_r; lra. }
  assert (H2 : A * (s * B) <= A * (TB * (1 + u53))).
  { apply Qmult_le_l; [exact HA|exact Hup]. }
  assert (H3 : x * B * (1 - u53) <= B * TA * ((1 + u53) * (1 + u53) * (1 + u53))).
  { assert (Hu : 0 < 1 - u53) by reflexivity.
    assert (Hu' : 0 < 1 + u53) by reflexivity.
    apply Qle_trans with (TB * A * (1 - u53) * ((1 + u53) * (1 + u53))).
    - assert (E : TB * A * (1 - u53) * ((1 + u53) * (1 + u53))
                  == A * (TB * (1 + u53)) * (1 + u53) * (1 - u53)) by ring.
      rewrite E. apply Qmult_le_compat_r; [|lra].
      apply Qle_trans with (A * (s * B) * (1 + u53)); [exact H1|].
      apply Qmult_le_compat_r; lra.
    - assert (E : B * TA * ((1 + u53) * (1 + u53) * (1 + u53))
                  == B * TA * (1 + u53) * ((1 + u53) * (1 + u53))) by ring.
      rewrite E. apply Qmult_le_compat_r; [exact Hasp|].
      apply Qlt_le_weak. apply Qmult_lt_0_compat; exact Hu'. }
  assert (H4 : x * (1 - u53) <= TA * ((1 + u53) * (1 + u53) * (1 + u53))).
  { apply Qmult_le_l with (z := B); [exact HB|].
    assert (E1 : B * (x * (1 - u53)) == x * B * (1 - u53)) by ring.
    assert (E2 : B * (TA * ((1 + u53) * (1 + u53) * (1 + u53)))
                 == B * TA * ((1 + u53) * (1 + u53) * (1 + u53))) by ring.
    rewrite E1, E2. exact H3. }
  apply int_lt_succ; [lra|].
  fold TA. clearbody x TA. clear - H4 HTA' HTA Hx0.
  unfold u53 in H4. lra.
Qed.

End ScaleFacts.

(** ** Images built pixel by pixel *)

Module ImageFacts.
Local Open Scope Z_scope.

Lemma length_zrange n : List.length (zrange n) = Z.to_nat n.
Proof. unfold zrange. rewrite length_map, length_seq. reflexivity. Qed.

Lemma nth_zrange n i d : 0 <= i < n -> nth (Z.to_nat i) (zrange n) d = i.
Proof.
  intros Hi. unfold zrange.
  rewrite (nth_indep _ d (Z.of_nat 0)) by (rewrite length_map, length_seq; lia).
  rewrite map_nth, seq_nth by lia. lia.
Qed.

Lemma nth_map_zrange {A} (g : Z -> A) n i d :
  0 <= i < n -> nth (Z.to_nat i) (map g (zrange n)) d = g i.
Proof.
  intros Hi.
  rewrite (nth_indep _ d (g 0)) by (rewrite length_map, length_zrange; lia).
  rewrite map_nth, nth_zrange by exact Hi. reflexivity.
Qed.

Lemma getpixel_build m w h f x y :
  0 <= x < w -> 0 <= y < h ->
  getpixel (mkImage m w h (build w h f)) x y = f x y.
Proof.
  intros Hx Hy. unfold getpixel, in_bounds. cbn [width height rows].
  destruct (Z.leb_spec 0 x); [|lia]. destruct (Z.ltb_spec x w); [|lia].
  destruct (Z.leb_spec 0 y); [|lia]. destruct (Z.ltb_spec y h); [|lia].
  cbn [andb]. unfold build.
  rewrite (nth_map_zrange (fun y => map (fun x => f x y) (zrange w))) by exact Hy.
  apply (nth_map_zrange (fun x => f x y)). exact Hx.
Qed.

Lemma well_formed_build m w h f :
  0 <= w -> 0 <= h -> well_formed (mkImage m w h (build w h f)).
Proof.
  intros Hw Hh. unfold well_formed. cbn [width height rows].
  split; [exact Hw|]. split; [exact Hh|]. unfold build. split.
  - rewrite length_map, length_zrange. lia.
  - apply Forall_forall. intros row Hin. apply in_map_iff in Hin.
    destruct Hin as [y [<- _]]. rewrite length_map, length_zrange. lia.
Qed.

Section WithImaging.
Context {imaging : Imaging}.

Lemma convert_same m p : convert m m p = p.
Proof. unfold convert. rewrite String.eqb_refl. reflexivity. Qed.

Lemma Image_new_ok m w h color :
  0 <= w -> 0 <= h ->
  Image_new m w h color = Ok (mkImage m w h (build w h (fun _ _ => color))).
Proof.
  intros Hw Hh. unfold Image_new.
  destruct (Z.ltb_spec w 0); [lia|]. destruct (Z.ltb_spec h 0); [lia|].
  reflexivity.
Qed.

Lemma resize_ok im w h f :
  1 <= w -> 1 <= h ->
  resize im (w, h) f = Ok (mkImage (mode im) w h (build w h (resample f im w h))).
Proof.
  intros Hw Hh. unfold resize.
  destruct (Z.ltb_spec w 1); [lia|]. destruct (Z.ltb_spec h 1); [lia|].
  reflexivity.
Qed.

(** What [paste] leaves on a fresh canvas: the pasted image inside its box
    and the canvas colour around it. *)
Lemma getpixel_paste_new m w h color im x y i j :
  0 <= i < w -> 0 <= j < h ->
  getpixel (paste (mkImage m w h (build w h (fun _ _ => color))) im x y) i j =
  if (x <=? i) && (i <? x + width im) && (y <=? j) && (j <? y + height im)
  then convert (mode im) m (getpixel im (i - x) (j - y))
  else color.
Proof.
  intros Hi Hj. unfold paste. cbn [width height mode].
  rewrite getpixel_build by assumption.
  rewrite getpixel_build by assumption. reflexivity.
Qed.

End WithImaging.
End ImageFacts.

(** ** pad_to_square *)

Section PadToSquare.
Context {imaging : Imaging}.
Import ImageFacts.
Local Open Scope Z_scope.

Lemma pad_to_square_raises pil_img side inpaint method :
  side < width pil_img \/ side < height pil_img ->
  exists msg,
    pad_to_square pil_img side inpaint method = Raise (AssertionError msg).
Proof.
  intros H. unfold pad_to_square, size.
  destruct ((width pil_img <=? side) && (height pil_img <=? side)) eqn:E.
  - apply andb_prop in E. destruct E as [E1 E2].
    apply Z.leb_le in E1. apply Z.leb_le in E2. lia.
  - cbn [negb]. eexists. reflexivity.
Qed.

(** When the image fits and is smaller than the square, the result is the
    fresh transparent canvas with the image pasted at the centring offset. *)
Lemma pad_to_square_pastes pil_img side method :
  0 <= width pil_img <= side -> 0 <= height pil_img <= side ->
  (width pil_img =? side) && (height pil_img =? side) = false ->
  pad_to_square pil_img side false method =
  Ok (paste (mkImage "RGBA" side side (build side side (fun _ _ => transparent)))
        pil_img ((side - width pil_img) / 2) ((side - height pil_img) / 2)).
Proof.
  intros Hw Hh Hne. unfold pad_to_square, size.
  destruct (Z.leb_spec (width pil_img) side); [|lia].
  destruct (Z.leb_spec (height pil_img) side); [|lia].
  cbn [andb negb]. rewrite Hne.
  rewrite Image_new_ok by lia. reflexivity.
Qed.

Lemma pad_to_square_same pil_img side inpaint method :
  width pil_img = side -> height pil_img = side ->
  pad_to_square pil_img side inpaint method = Ok pil_img.
Proof.
  intros Hw Hh. unfold pad_to_square, size. rewrite Hw, Hh.
  rewrite !Z.leb_refl, !Z.eqb_refl. reflexivity.
Qed.

End PadToSquare.

(** ** Fitting into a box *)

Section Fitting.
Context {imaging : Imaging}.
Import ImageFacts ScaleFacts.
Local Open Scope Z_scope.

Lemma centre_offset n t : 0 <= n <= t -> 0 <= (t - n) / 2 /\ (t - n) / 2 + n <= t.
Proof.
  intros H. split; [apply Z.div_pos; lia|].
  assert ((t - n) / 2 <= t - n) by (apply Z.div_le_upper_bound; lia). lia.
Qed.

(** A fresh canvas with [fit] pasted at the centring offset shows all of
    [fit] and nothing else. *)
Lemma paste_centred fit tw th :
  0 <= width fit <= tw -> 0 <= height fit <= th ->
  let out := paste (mkImage "RGBA" tw th (build tw th (fun _ _ => transparent)))
               fit ((tw - width fit) / 2) ((th - height fit) / 2) in
  size out = (tw, th) /\ mode out = "RGBA"%string /\ well_formed out /\
  centred_in out fit tw th /\ transparent_around out fit tw th.
Proof.
  intros Hw Hh out.
  destruct (centre_offset _ _ Hw) as [Hx0 Hx1].
  destruct (centre_offset _ _ Hh) as [Hy0 Hy1].
  split; [reflexivity|]. split; [reflexivity|]. split.
  { unfold out, paste. cbn [width height mode]. apply well_formed_build; lia. }
  split.
  - split; [lia|]. split; [lia|]. intros x y Hx Hy. unfold out.
    rewrite getpixel_paste_new by lia.
    destruct (Z.leb_spec ((tw - width fit) / 2) ((tw - width fit) / 2 + x)); [|lia].
    destruct (Z.ltb_spec ((tw - width fit) / 2 + x)
                ((tw - width fit) / 2 + width fit)); [|lia].
    destruct (Z.leb_spec ((th - height fit) / 2) ((th - height fit) / 2 + y)); [|lia].
    destruct (Z.ltb_spec ((th - height fit) / 2 + y)
                ((th - height fit) / 2 + height fit)); [|lia].
    cbn [andb mode].
    replace ((tw - width fit) / 2 + x - (tw - width fit) / 2) with x by lia.
    replace ((th - height fit) / 2 + y - (th - height fit) / 2) with y by lia.
    reflexivity.
  - intros i j Hi Hj Hout. unfold out.
    rewrite getpixel_paste_new by lia.
    destruct (Z.leb_spec ((tw - width fit) / 2) i);
      destruct (Z.ltb_spec i ((tw - width fit) / 2 + width fit));
      destruct (Z.leb_spec ((th - height fit) / 2) j);
      destruct (Z.ltb_spec j ((th - height fit) / 2 + height fit));
      cbn [andb]; try reflexivity.
    exfalso. apply Hout. lia.
Qed.

(** [pad_to_square] under its precondition. *)
Lemma pad_to_square_centred pil_img side method :
  0 <= width pil_img <= side -> 0 <= height pil_img <= side ->
  exists out, pad_to_square pil_img side false method = Ok out /\
    size out = (side, side) /\
    centred_in out pil_img side side /\ transparent_around out pil_img side side.
Proof.
  intros Hw Hh.
  destruct ((width pil_img =? side) && (height pil_img =? side)) eqn:E.
  - apply andb_prop in E. destruct E as [E1 E2].
    apply Z.eqb_eq in E1. apply Z.eqb_eq in E2.
    exists pil_img. split; [apply pad_to_square_same; assumption|].
    split; [unfold size; rewrite E1, E2; reflexivity|]. split.
    + split; [lia|]. split; [lia|]. intros x y Hx Hy.
      rewrite E1, E2, Z.sub_diag. change (0 / 2) with 0.
      rewrite !Z.add_0_l, convert_same. reflexivity.
    + intros i j Hi Hj Hout. exfalso. apply Hout.
      rewrite E1, E2, Z.sub_diag. change (0 / 2) with 0. lia.
  - eexists. split; [apply pad_to_square_pastes; assumption|].
    destruct (paste_centred pil_img side side Hw Hh) as [Hs [_ [_ [Hc Ht]]]].
    split; [exact Hs|]. split; [exact Hc|exact Ht].
Qed.

Lemma aspect_of_Z a b ta tb :
  0 < a -> 0 < b -> 0 < ta -> 0 < tb -> tb * a <= b * ta ->
  (inject_Z tb * inject_Z a * (1 - u53) <= inject_Z b * inject_Z ta * (1 + u53))%Q.
Proof.
  intros Ha Hb Hta Htb H.
  rewrite <- !inject_Z_mult.
  assert (H1 : (inject_Z (tb * a) <= inject_Z (b * ta))%Q)
    by (rewrite <- Zle_Qle; exact H).
  assert (H2 : (0 < inject_Z (tb * a))%Q) by (apply inject_Z_pos; nia).
  unfold u53. lra.
Qed.

(** [resize_lanczos_fit_long] when the image is too large. *)
Lemma fit_long_shrinks pil_img target_long :
  valid_dim (width pil_img) -> valid_dim (height pil_img) ->
  1 <= target_long < Z.max (width pil_img) (height pil_img) ->
  exists out, resize_lanczos_fit_long pil_img target_long = Ok out /\
    fitted_from out pil_img /\ mode out = mode pil_img /\
    1 <= width out <= target_long /\ 1 <= height out <= target_long /\
    (height pil_img <= width pil_img -> width out = target_long) /\
    (width pil_img < height pil_img -> height out = target_long).
Proof.
  unfold valid_dim. intros Hw Hh Ht.
  unfold resize_lanczos_fit_long, size.
  destruct (Z.leb_spec (Z.max (width pil_img) (height pil_img)) target_long);
    [lia|].
  assert (Ht31 : target_long < 2 ^ 31) by lia.
  destruct (Z.geb_spec (width pil_img) (height pil_img)) as [Hge|Hlt].
  - destruct (truediv_bounds target_long (width pil_img) ltac:(lia) ltac:(lia))
      as [s [Hs _]].
    rewrite Hs. cbn [bind].
    pose proof (scaled_dim_le (height pil_img) (width pil_img) target_long
                  target_long s ltac:(lia) ltac:(lia) ltac:(lia) ltac:(lia)
                  (aspect_of_Z (height pil_img) (width pil_img) target_long
                     target_long ltac:(lia) ltac:(lia) ltac:(lia) ltac:(lia)
                     ltac:(nia)) Hs) as Hdim.
    set (nh := Z.max 1 (Py.int (Py.fmul (Py.float_of_int (height pil_img)) s))) in *.
    rewrite resize_ok by lia.
    eexists. split; [reflexivity|]. split.
    { right. exists (target_long, nh). apply resize_ok; lia. }
    cbn [mode width height]. repeat split; lia.
  - destruct (truediv_bounds target_long (height pil_img) ltac:(lia) ltac:(lia))
      as [s [Hs _]].
    rewrite Hs. cbn [bind].
    pose proof (scaled_dim_le (width pil_img) (height pil_img) target_long
                  target_long s ltac:(lia) ltac:(lia) ltac:(lia) ltac:(lia)
                  (aspect_of_Z (width pil_img) (height pil_img) target_long
                     target_long ltac:(lia) ltac:(lia) ltac:(lia) ltac:(lia)
                     ltac:(nia)) Hs) as Hdim.
    set (nw := Z.max 1 (Py.int (Py.fmul (Py.float_of_int (width pil_img)) s))) in *.
    rewrite resize_ok by lia.
    eexists. split; [reflexivity|]. split.
    { right. exists (nw, target_long). apply resize_ok; lia. }
    cbn [mode width height]. repeat split; lia.
Qed.

Lemma fit_long_identity pil_img target_long :
  Z.max (width pil_img) (height pil_img) <= target_long ->
  resize_lanczos_fit_long pil_img target_long = Ok pil_img.
Proof.
  intros H. unfold resize_lanczos_fit_long, size.
  destruct (Z.leb_spec (Z.max (width pil_img) (height pil_img)) target_long);
    [reflexivity|lia].
Qed.

(** Either way the result fits the square of side [target_long]. *)
Lemma fit_long_fits pil_img target_long :
  valid_dim (width pil_img) -> valid_dim (height pil_img) -> 1 <= target_long ->
  exists out, resize_lanczos_fit_long pil_img target_long = Ok out /\
    fitted_from out pil_img /\
    1 <= width out <= target_long /\ 1 <= height out <= target_long.
Proof.
  intros Hw Hh Ht.
  destruct (Z_le_gt_dec (Z.max (width pil_img) (height pil_img)) target_long)
    as [Hle|Hgt].
  - exists pil_img. split; [apply fit_long_identity; exact Hle|].
    split; [left; reflexivity|]. unfold valid_dim in *. lia.
  - destruct (fit_long_shrinks pil_img target_long Hw Hh ltac:(lia))
      as [out [Ho [Hf [_ [Hwo [Hho _]]]]]].
    exists out. repeat split; try assumption; lia.
Qed.

End Fitting.

Section FitToSize.
Context {imaging : Imaging}.
Import ImageFacts ScaleFacts.

(** Comparing the two rounded aspect ratios orders the exact ones up to the
    two roundings. *)
Lemma aspect_from_fle w h tw th qa qt :
  0 < w -> 0 < h -> 0 < tw -> 0 < th ->
  Py.truediv w h = Ok qa -> Py.truediv tw th = Ok qt ->
  (qt <= qa)%Q ->
  (inject_Z tw * inject_Z h * (1 - u53) <= inject_Z w * inject_Z th * (1 + u53))%Q.
Proof.
  intros Hw Hh Htw Hth Ha Ht Hle.
  destruct (truediv_bounds w h Hw Hh) as [qa' [Ea [Hqa [_ Hup]]]].
  destruct (truediv_bounds tw th Htw Hth) as [qt' [Et [Hqt [Hlo _]]]].
  rewrite Ha in Ea. injection Ea as <-. rewrite Ht in Et. injection Et as <-.
  pose proof (inject_Z_pos h Hh) as HH. pose proof (inject_Z_pos th Hth) as HTH.
  set (W := inject_Z w) in *. set (H := inject_Z h) in *.
  set (TW := inject_Z tw) in *. set (TH := inject_Z th) in *.
  apply Qle_trans with (qt * TH * H)%Q.
  - assert (E : (TW * H * (1 - u53) == TW * (1 - u53) * H)%Q) by ring.
    rewrite E. apply Qmult_le_compat_r; lra.
  - apply Qle_trans with (qa * H * TH)%Q.
    + assert (E1 : (qt * TH * H == qt * (TH * H))%Q) by ring.
      assert (E2 : (qa * H * TH == qa * (TH * H))%Q) by ring.
      rewrite E1, E2. apply Qmult_le_compat_r; [exact Hle|].
      apply Qlt_le_weak, Qmult_lt_0_compat; assumption.
    + assert (E : (W * TH * (1 + u53) == W * (1 + u53) * TH)%Q) by ring.
      rewrite E. apply Qmult_le_compat_r; lra.
Qed.

Lemma aspect_delta_ok w h : 1 <= w -> 1 <= h -> exists d, aspect_delta w h = Ok d.
Proof.
  intros Hw Hh. unfold aspect_delta.
  destruct (Z.gtb_spec h 1).
  - destruct (truediv_bounds w h ltac:(lia) ltac:(lia)) as [q [Hq _]].
    rewrite Hq. eexists. reflexivity.
  - unfold Py.fdiv.
    replace (Qeq_bool (Py.lit 1) 0) with false by (vm_compute; reflexivity).
    eexists. reflexivity.
Qed.

(** [smart_square] on the default path. *)
Lemma smart_square_pads pil_img side use_saliency :
  valid_dim (width pil_img) -> valid_dim (height pil_img) -> 1 <= side ->
  exists out fit, smart_square pil_img side use_saliency false = Ok out /\
    size out = (side, side) /\ fitted_from fit pil_img /\
    centred_in out fit side side /\ transparent_around out fit side side.
Proof.
  intros Hw Hh Hs. unfold smart_square, size.
  destruct ((width pil_img =? side) && (height pil_img =? side)) eqn:E.
  - apply andb_prop in E. destruct E as [E1 E2].
    apply Z.eqb_eq in E1. apply Z.eqb_eq in E2.
    destruct (pad_to_square_centred pil_img side "telea" ltac:(lia) ltac:(lia))
      as [out [Ho [Hsz [Hc Ht]]]].
    rewrite (pad_to_square_same pil_img side false "telea" E1 E2) in Ho.
    injection Ho as <-.
    exists pil_img, pil_img. split; [reflexivity|]. split; [exact Hsz|].
    split; [left; reflexivity|]. split; assumption.
  - unfold valid_dim in Hw, Hh.
    destruct (aspect_delta_ok (width pil_img) (height pil_img) ltac:(lia) ltac:(lia))
      as [d Hd].
    rewrite Hd. cbn [bind].
    destruct (fit_long_fits pil_img side Hw Hh Hs) as [fit [Hfit [Hfrom [Hfw Hfh]]]].
    destruct (pad_to_square_centred fit side "telea" ltac:(lia) ltac:(lia))
      as [out [Ho [Hsz [Hc Ht]]]].
    assert (Hgoal : exists out0 fit0,
               (img_fit <- resize_lanczos_fit_long pil_img side ;;
                pad_to_square img_fit side false "telea") = Ok out0 /\
               size out0 = (side, side) /\ fitted_from fit0 pil_img /\
               centred_in out0 fit0 side side /\
               transparent_around out0 fit0 side side).
    { rewrite Hfit. cbn [bind]. exists out, fit.
      split; [exact Ho|]. split; [exact Hsz|]. split; [exact Hfrom|].
      split; assumption. }
    destruct (Py.flt d (Py.lit (1 # 10))).
    + destruct (Z.gtb_spec (Z.max (width pil_img) (height pil_img)) side) as [Hgt|Hle].
      * exact Hgoal.
      * destruct (pad_to_square_centred pil_img side "telea" ltac:(lia) ltac:(lia))
          as [out' [Ho' [Hsz' [Hc' Ht']]]].
        exists out', pil_img. split; [exact Ho'|]. split; [exact Hsz'|].
        split; [left; reflexivity|]. split; assumption.
    + rewrite Hfit. cbn [bind negb]. fold (size fit).
      unfold size. exists out, fit.
      split; [exact Ho|]. split; [exact Hsz|]. split; [exact Hfrom|].
      split; assumption.
Qed.

Lemma fle_false_lt x y : Py.fle x y = false -> (y <= x)%Q.
Proof.
  unfold Py.fle. intros H. destruct (Qlt_le_dec x y) as [Hlt|Hle]; [|exact Hle].
  apply Qlt_le_weak in Hlt. apply Qle_bool_iff in Hlt. congruence.
Qed.

(** The padding step shared by both branches of [fit_to_size]. *)
Lemma pad_to_box fit tw th :
  0 <= width fit <= tw -> 0 <= height fit <= th ->
  exists out,
    (canvas <- Image_new "RGBA" tw th transparent ;;
     Ok (paste canvas fit ((tw - width fit) / 2) ((th - height fit) / 2))) = Ok out /\
    size out = (tw, th) /\
    centred_in out fit tw th /\ transparent_around out fit tw th.
Proof.
  intros Hw Hh. rewrite Image_new_ok by lia. cbn [bind].
  eexists. split; [reflexivity|].
  destruct (paste_centred fit tw th Hw Hh) as [Hs [_ [_ [Hc Ht]]]].
  split; [exact Hs|]. split; assumption.
Qed.

(** [fit_to_size] on the default path. *)
Lemma fit_to_size_pads pil_img target_w target_h :
  valid_dim (width pil_img) -> valid_dim (height pil_img) ->
  valid_dim target_w -> valid_dim target_h ->
  exists out fit, fit_to_size pil_img target_w target_h false = Ok out /\
    size out = (target_w, target_h) /\ fitted_from fit pil_img /\
    centred_in out fit target_w target_h /\
    transparent_around out fit target_w target_h.
Proof.
  unfold valid_dim. intros Hw Hh Htw Hth. unfold fit_to_size, size.
  destruct ((width pil_img =? target_w) && (height pil_img =? target_h)) eqn:E.
  - apply andb_prop in E. destruct E as [E1 E2].
    apply Z.eqb_eq in E1. apply Z.eqb_eq in E2.
    exists pil_img, pil_img. split; [reflexivity|].
    split; [rewrite E1, E2; reflexivity|]. split; [left; reflexivity|].
    rewrite <- E1, <- E2. split.
    + split; [lia|]. split; [lia|]. intros x y Hx Hy.
      rewrite !Z.sub_diag. change (0 / 2) with 0.
      rewrite !Z.add_0_l, convert_same. reflexivity.
    + intros i j Hi Hj Hout. exfalso. apply Hout.
      rewrite !Z.sub_diag. change (0 / 2) with 0. lia.
  - destruct (Z.gtb_spec (height pil_img) 0); [|lia].
    destruct (Z.gtb_spec target_h 0); [|lia].
    destruct (truediv_bounds (width pil_img) (height pil_img) ltac:(lia) ltac:(lia))
      as [qa [Hqa _]].
    destruct (truediv_bounds target_w target_h ltac:(lia) ltac:(lia))
      as [qt [Hqt _]].
    rewrite Hqa, Hqt. cbn [bind].
    destruct ((width pil_img >? target_w) || (height pil_img >? target_h)) eqn:Hd.
    + destruct (Py.fle qt qa) eqn:Hfle.
      * destruct (truediv_bounds target_w (width pil_img) ltac:(lia) ltac:(lia))
          as [s [Hs _]].
        rewrite Hs. cbn [bind].
        assert (Hasp := aspect_from_fle (width pil_img) (height pil_img)
                          target_w target_h qa qt ltac:(lia) ltac:(lia)
                          ltac:(lia) ltac:(lia) Hqa Hqt
                          (proj1 (Qle_bool_iff _ _) Hfle)).
        pose proof (scaled_dim_le (height pil_img) (width pil_img) target_h
                      target_w s ltac:(lia) ltac:(lia) ltac:(lia) ltac:(lia)
                      Hasp Hs) as Hdim.
        set (nh := Z.max 1 (Py.int (Py.fmul (Py.float_of_int (height pil_img)) s))) in *.
        destruct (Z.gtb_spec target_w target_w); [lia|]. cbn [bind].
        destruct (Z.gtb_spec nh target_h); [lia|]. cbn [bind].
        unfold resize_lanczos_to_box. rewrite resize_ok by lia.
        cbn [bind negb width height].
        destruct (pad_to_box
                    (mkImage (mode pil_img) target_w nh
                       (build target_w nh (resample LANCZOS pil_img target_w nh)))
                    target_w target_h) as [out [Ho [Hsz [Hc Ht]]]];
          [cbn [width]; lia|cbn [height]; lia|].
        cbn [width height] in Ho. rewrite Ho.
        eexists. eexists. split; [reflexivity|]. split; [exact Hsz|].
        split; [right; exists (target_w, nh); apply resize_ok; lia|].
        split; assumption.
      * destruct (truediv_bounds target_h (height pil_img) ltac:(lia) ltac:(lia))
          as [s [Hs _]].
        rewrite Hs. cbn [bind].
        assert (Hasp := aspect_from_fle target_w target_h (width pil_img)
                          (height pil_img) qt qa ltac:(lia) ltac:(lia)
                          ltac:(lia) ltac:(lia) Hqt Hqa
                          (fle_false_lt _ _ Hfle)).
        assert (Hasp' : (inject_Z target_h * inject_Z (width pil_img) * (1 - u53)
                         <= inject_Z (height pil_img) * inject_Z target_w * (1 + u53))%Q).
        { assert (E1 : (inject_Z target_h * inject_Z (width pil_img) * (1 - u53)
                        == inject_Z (width pil_img) * inject_Z target_h * (1 - u53))%Q)
            by ring.
          assert (E2 : (inject_Z (height pil_img) * inject_Z target_w * (1 + u53)
                        == inject_Z target_w * inject_Z (height pil_img) * (1 + u53))%Q)
            by ring.
          rewrite E1, E2. exact Hasp. }
        pose proof (scaled_dim_le (width pil_img) (height pil_img) target_w
                      target_h s ltac:(lia) ltac:(lia) ltac:(lia) ltac:(lia)
                      Hasp' Hs) as Hdim.
        set (nw := Z.max 1 (Py.int (Py.fmul (Py.float_of_int (width pil_img)) s))) in *.
        destruct (Z.gtb_spec nw target_w); [lia|]. cbn [bind].
        destruct (Z.gtb_spec target_h target_h); [lia|]. cbn [bind].
        unfold resize_lanczos_to_box. rewrite resize_ok by lia.
        cbn [bind negb width height].
        destruct (pad_to_box
                    (mkImage (mode pil_img) nw target_h
                       (build nw target_h (resample LANCZOS pil_img nw target_h)))
                    target_w target_h) as [out [Ho [Hsz [Hc Ht]]]];
          [cbn [width]; lia|cbn [height]; lia|].
        cbn [width height] in Ho. rewrite Ho.
        eexists. eexists. split; [reflexivity|]. split; [exact Hsz|].
        split; [right; exists (nw, target_h); apply resize_ok; lia|].
        split; assumption.
    + apply orb_false_elim in Hd. destruct Hd as [Hd1 Hd2].
      destruct (Z.gtb_spec (width pil_img) target_w); [discriminate|].
      destruct (Z.gtb_spec (height pil_img) target_h); [discriminate|].
      cbn [bind negb].
      destruct (pad_to_box pil_img target_w target_h ltac:(lia) ltac:(lia))
        as [out [Ho [Hsz [Hc Ht]]]].
      rewrite Ho. exists out, pil_img. split; [reflexivity|]. split; [exact Hsz|].
      split; [left; reflexivity|]. split; assumption.
Qed.

End FitToSize.

(** ** is_alpha_bbox_meaningful *)

Module MeaningfulFacts.
Import Float FloatFacts FloatError FloatExact ScaleFacts.
Local Open Scope Q_scope.

Lemma lit_95 : Py.lit (95 # 100) = c95.
Proof. vm_compute. reflexivity. Qed.

Lemma lit_05 : Py.lit (5 # 100) = c05.
Proof. vm_compute. reflexivity. Qed.

Lemma lit_1 : Py.lit 1 = 1.
Proof. vm_compute. reflexivity. Qed.

Lemma flt_true x y : x < y -> Py.flt x y = true.
Proof.
  intros H. unfold Py.flt. destruct (Qle_bool y x) eqn:E; [|reflexivity].
  apply Qle_bool_iff in E. lra.
Qed.

Lemma flt_false x y : y <= x -> Py.flt x y = false.
Proof.
  intros H. unfold Py.flt. apply Qle_bool_iff in H. rewrite H. reflexivity.
Qed.

Lemma fle_true x y : x <= y -> Py.fle x y = true.
Proof. intros H. unfold Py.fle. apply Qle_bool_iff. exact H. Qed.

Lemma fle_false x y : y < x -> Py.fle x y = false.
Proof.
  intros H. unfold Py.fle. destruct (Qle_bool x y) eqn:E; [|reflexivity].
  apply Qle_bool_iff in E. lra.
Qed.

Lemma cancel_r x y d : 0 < d -> x * d < y * d -> x < y.
Proof. intros Hd H. apply Qmult_lt_r in H; assumption. Qed.

Lemma cancel_le_r x y d : 0 < d -> x * d <= y * d -> x <= y.
Proof. intros Hd H. apply Qmult_le_r in H; assumption. Qed.

Lemma inj_lin a n b d c :
  (a * n <= b * d + c)%Z ->
  inject_Z a * inject_Z n <= inject_Z b * inject_Z d + inject_Z c.
Proof.
  intros H. rewrite <- !inject_Z_mult, <- inject_Z_plus, <- Zle_Qle. exact H.
Qed.

(** The double quotient [n / d] lies below the double [0.95] exactly when
    the exact quotient lies below 19/20. *)
Lemma ratio_lt_095 n d q :
  (0 < n)%Z -> (0 < d <= area_bound)%Z -> Py.truediv n d = Ok q ->
  Py.flt q (Py.lit (95 # 100)) = true <-> (20 * n < 19 * d)%Z.
Proof.
  intros Hn Hd Hq. rewrite lit_95.
  destruct (truediv_bounds n d Hn ltac:(lia)) as [q' [Hq' [Hpos [Hlo Hhi]]]].
  rewrite Hq in Hq'. injection Hq' as <-.
  pose proof (inject_Z_pos d ltac:(lia)) as HD.
  assert (HDb : inject_Z d <= 1099511627776).
  { change 1099511627776 with (inject_Z 1099511627776). rewrite <- Zle_Qle.
    unfold area_bound in Hd. change (2 ^ 40)%Z with 1099511627776%Z in Hd. lia. }
  destruct (Z.compare_spec (20 * n) (19 * d)) as [Heq|Hlt|Hgt].
  - assert (E : inject_Z n / inject_Z d == 95 # 100).
    { assert (H20 : inject_Z 20 * inject_Z n == inject_Z 19 * inject_Z d)
        by (rewrite <- !inject_Z_mult, Heq; reflexivity).
      change (inject_Z 20) with 20 in H20. change (inject_Z 19) with 19 in H20.
      field_simplify_eq; [lra|lra]. }
    unfold Py.truediv in Hq. destruct (Z.eqb_spec d 0); [lia|].
    injection Hq as Hq. rewrite (fl_comp _ _ _ E) in Hq.
    fold (Py.lit (95 # 100)) in Hq. rewrite lit_95 in Hq. subst q.
    rewrite flt_false by lra. split; [discriminate|lia].
  - split; [intros _; exact Hlt|intros _].
    apply flt_true. apply cancel_r with (d := inject_Z d); [exact HD|].
    pose proof (inj_lin 20 n 19 d (-1) ltac:(lia)) as H1.
    change (inject_Z 20) with 20 in H1. change (inject_Z 19) with 19 in H1.
    change (inject_Z (-1)) with (-1) in H1.
    set (N := inject_Z n) in *. set (D := inject_Z d) in *.
    set (qD := q * D) in *. clearbody qD N D.
    unfold u53 in *. unfold c95. lra.
  - split; [|lia]. intros Ht. exfalso.
    assert (Hf : Py.flt q c95 = false).
    { apply flt_false. apply cancel_le_r with (d := inject_Z d); [exact HD|].
      pose proof (inj_lin 19 d 20 n (-1) ltac:(lia)) as H1.
      change (inject_Z 20) with 20 in H1. change (inject_Z 19) with 19 in H1.
      change (inject_Z (-1)) with (-1) in H1.
      set (N := inject_Z n) in *. set (D := inject_Z d) in *.
      set (qD := q * D) in *. clearbody qD N D.
      unfold u53 in *. unfold c95. lra. }
    congruence.
Qed.

Lemma fsub_one_bounds r :
  r < 1 ->
  let t := Py.fsub (Py.lit 1) r in
  (1 - r) * (1 - u53) <= t /\ t <= (1 - r) * (1 + u53).
Proof.
  intros Hr. cbn zeta. unfold Py.fsub. rewrite lit_1.
  apply fl53_bounds. lra.
Qed.

(** The double [1.0 - ba / oa] reaches the double [0.05] exactly when the
    exact trimmed share reaches 5 %. *)
Lemma trim_ge_005 ba oa r :
  (0 < ba <= oa)%Z -> (oa <= area_bound)%Z -> Py.truediv ba oa = Ok r ->
  Py.fle (Py.lit (5 # 100)) (Py.fsub (Py.lit 1) r) = true <-> (20 * ba <= 19 * oa)%Z.
Proof.
  intros Hba Hoa Hr. rewrite lit_05.
  destruct (truediv_bounds ba oa ltac:(lia) ltac:(lia)) as [r' [Hr' [Hpos [Hlo Hhi]]]].
  rewrite Hr in Hr'. injection Hr' as <-.
  pose proof (inject_Z_pos oa ltac:(lia)) as HD.
  assert (HDb : inject_Z oa <= 1099511627776).
  { change 1099511627776 with (inject_Z 1099511627776). rewrite <- Zle_Qle.
    unfold area_bound in Hoa. change (2 ^ 40)%Z with 1099511627776%Z in Hoa. lia. }
  destruct (Z.compare_spec (20 * ba) (19 * oa)) as [Heq|Hlt|Hgt].
  - assert (E : inject_Z ba / inject_Z oa == 95 # 100).
    { assert (H20 : inject_Z 20 * inject_Z ba == inject_Z 19 * inject_Z oa)
        by (rewrite <- !inject_Z_mult, Heq; reflexivity).
      change (inject_Z 20) with 20 in H20. change (inject_Z 19) with 19 in H20.
      field_simplify_eq; [lra|lra]. }
    unfold Py.truediv in Hr. destruct (Z.eqb_spec oa 0); [lia|].
    injection Hr as Hr. rewrite (fl_comp _ _ _ E) in Hr. subst r.
    split; [lia|]. intros _. vm_compute. reflexivity.
  - split; [lia|intros _].
    pose proof (inj_lin 20 ba 19 oa (-1) ltac:(lia)) as H1.
    change (inject_Z 20) with 20 in H1. change (inject_Z 19) with 19 in H1.
    change (inject_Z (-1)) with (-1) in H1.
    assert (Hr1 : r < 1).
    { apply cancel_r with (d := inject_Z oa); [exact HD|].
      set (N := inject_Z ba) in *. set (D := inject_Z oa) in *.
      set (rD := r * D) in *. clearbody rD N D. unfold u53 in *. lra. }
    destruct (fsub_one_bounds r Hr1) as [Ht _].
    set (t := Py.fsub (Py.lit 1) r) in *.
    apply fle_true. apply cancel_le_r with (d := inject_Z oa); [exact HD|].
    assert (Ht' : (inject_Z oa - r * inject_Z oa) * (1 - u53) <= t * inject_Z oa).
    { assert (E : (inject_Z oa - r * inject_Z oa) * (1 - u53)
                  == (1 - r) * (1 - u53) * inject_Z oa) by ring.
      rewrite E. apply Qmult_le_compat_r; lra. }
    set (N := inject_Z ba) in *. set (D := inject_Z oa) in *.
    set (rD := r * D) in *. set (tD := t * D) in *.
    clearbody tD rD N D. clear - Ht' H1 Hhi HD HDb.
    unfold u53 in *. unfold c05. lra.
  - split; [|lia]. intros Ht. exfalso.
    assert (Hf : Py.fle c05 (Py.fsub (Py.lit 1) r) = false); [|congruence].
    destruct (Z.eq_dec ba oa) as [->|Hne].
    + assert (E : inject_Z oa / inject_Z oa == 1) by (field; lra).
      unfold Py.truediv in Hr. destruct (Z.eqb_spec oa 0); [lia|].
      injection Hr as Hr. rewrite (fl_comp _ _ _ E) in Hr. subst r.
      vm_compute. reflexivity.
    + pose proof (inj_lin 19 oa 20 ba (-1) ltac:(lia)) as H1.
      pose proof (inj_lin 1 ba 1 oa (-1) ltac:(lia)) as H2.
      change (inject_Z 20) with 20 in H1. change (inject_Z 19) with 19 in H1.
      change (inject_Z (-1)) with (-1) in H1, H2.
      change (inject_Z 1) with 1 in H2.
      assert (Hr1 : r < 1).
      { apply cancel_r with (d := inject_Z oa); [exact HD|].
        set (N := inject_Z ba) in *. set (D := inject_Z oa) in *.
        set (rD := r * D) in *. clearbody rD N D. unfold u53 in *. lra. }
      destruct (fsub_one_bounds r Hr1) as [_ Ht'].
      set (t := Py.fsub (Py.lit 1) r) in *.
      apply fle_false. apply cancel_r with (d := inject_Z oa); [exact HD|].
      assert (Ht'' : t * inject_Z oa <= (inject_Z oa - r * inject_Z oa) * (1 + u53)).
      { assert (E : (inject_Z oa - r * inject_Z oa) * (1 + u53)
                    == (1 - r) * (1 + u53) * inject_Z oa) by ring.
        rewrite E. apply Qmult_le_compat_r; lra. }
      set (N := inject_Z ba) in *. set (D := inject_Z oa) in *.
      set (rD := r * D) in *. set (tD := t * D) in *.
      clearbody tD rD N D. clear - Ht'' H1 Hlo HD HDb.
      unfold u53 in *. unfold c05. lra.
Qed.

Lemma ratio_lt_iff n d :
  (0 < d)%Z -> inject_Z n / inject_Z d < 95 # 100 <-> (20 * n < 19 * d)%Z.
Proof.
  intros Hd. pose proof (inject_Z_pos d Hd) as HD.
  assert (E : inject_Z n / inject_Z d * inject_Z d == inject_Z n) by (field; lra).
  split; intros H.
  - assert (H1 : inject_Z n / inject_Z d * inject_Z d < (95 # 100) * inject_Z d)
      by (apply Qmult_lt_compat_r; assumption).
    rewrite E in H1.
    assert (H2 : inject_Z (20 * n) < inject_Z (19 * d)).
    { rewrite !inject_Z_mult. change (inject_Z 20) with 20.
      change (inject_Z 19) with 19. lra. }
    rewrite <- Zlt_Qlt in H2. exact H2.
  - apply cancel_r with (d := inject_Z d); [exact HD|]. rewrite E.
    assert (H2 : inject_Z (20 * n) < inject_Z (19 * d))
      by (rewrite <- Zlt_Qlt; exact H).
    rewrite !inject_Z_mult in H2. change (inject_Z 20) with 20 in H2.
    change (inject_Z 19) with 19 in H2. lra.
Qed.

Lemma trim_ge_iff n d :
  (0 < d)%Z -> 5 # 100 <= 1 - inject_Z n / inject_Z d <-> (20 * n <= 19 * d)%Z.
Proof.
  intros Hd. pose proof (inject_Z_pos d Hd) as HD.
  assert (E : inject_Z n / inject_Z d * inject_Z d == inject_Z n) by (field; lra).
  split; intros H.
  - assert (H1 : inject_Z n / inject_Z d * inject_Z d <= (95 # 100) * inject_Z d)
      by (apply Qmult_le_compat_r; lra).
    rewrite E in H1.
    assert (H2 : inject_Z (20 * n) <= inject_Z (19 * d)).
    { rewrite !inject_Z_mult. change (inject_Z 20) with 20.
      change (inject_Z 19) with 19. lra. }
    rewrite <- Zle_Qle in H2. exact H2.
  - assert (H3 : inject_Z n / inject_Z d <= 95 # 100); [|lra].
    apply cancel_le_r with (d := inject_Z d); [exact HD|]. rewrite E.
    assert (H2 : inject_Z (20 * n) <= inject_Z (19 * d))
      by (rewrite <- Zle_Qle; exact H).
    rewrite !inject_Z_mult in H2. change (inject_Z 20) with 20 in H2.
    change (inject_Z 19) with 19 in H2. lra.
Qed.

Section Meaningful.
Context {imaging : Imaging}.

(** The decision computed in double arithmetic is the decision on the
    exact ratios. *)
Lemma is_alpha_bbox_meaningful_exact pil_img x0 y0 x1 y1 :
  (0 <= x0 <= x1)%Z -> (x1 < width pil_img)%Z ->
  (0 <= y0 <= y1)%Z -> (y1 < height pil_img)%Z ->
  (width pil_img * height pil_img <= area_bound)%Z ->
  exists b,
    is_alpha_bbox_meaningful pil_img (x0, y0, x1, y1) (Py.lit (5 # 100)) = Ok b /\
    (b = true <-> meaningful_exact (width pil_img) (height pil_img) (x0, y0, x1, y1)).
Proof.
  intros Hx Hxw Hy Hyh Harea.
  unfold is_alpha_bbox_meaningful, meaningful_exact, size.
  set (w := width pil_img) in *. set (h := height pil_img) in *.
  set (bw := (x1 - x0 + 1)%Z). set (bh := (y1 - y0 + 1)%Z).
  assert (Hbw : (0 < bw <= w)%Z) by (unfold bw; lia).
  assert (Hbh : (0 < bh <= h)%Z) by (unfold bh; lia).
  assert (Hoa : (0 < w * h)%Z) by nia.
  assert (Hba : (0 < bw * bh <= w * h)%Z) by nia.
  assert (Hwb : (w <= area_bound)%Z) by nia.
  assert (Hhb : (h <= area_bound)%Z) by nia.
  destruct (truediv_bounds (bw * bh) (w * h) ltac:(lia) ltac:(lia)) as [r [Hr _]].
  destruct (truediv_bounds bw w ltac:(lia) ltac:(lia)) as [wr [Hwr _]].
  destruct (truediv_bounds bh h ltac:(lia) ltac:(lia)) as [hr [Hhr _]].
  rewrite Hr. cbn [bind]. rewrite Hwr. cbn [bind]. rewrite Hhr. cbn [bind].
  eexists. split; [reflexivity|].
  rewrite !orb_true_iff.
  rewrite (trim_ge_005 (bw * bh) (w * h) r Hba Harea Hr).
  rewrite (ratio_lt_095 bw w wr ltac:(lia) ltac:(lia) Hwr).
  rewrite (ratio_lt_095 bh h hr ltac:(lia) ltac:(lia) Hhr).
  rewrite (trim_ge_iff (bw * bh) (w * h) Hoa).
  rewrite (ratio_lt_iff bw w ltac:(lia)), (ratio_lt_iff bh h ltac:(lia)).
  tauto.
Qed.

End Meaningful.

End MeaningfulFacts.

(** ** unpremultiply_rgba *)

Module UnpremultiplyFacts.
Import ImageFacts.
Local Open Scope Z_scope.

Lemma In_zrange n i : 0 <= i < n -> In i (zrange n).
Proof.
  intros Hi. unfold zrange. apply in_map_iff. exists (Z.to_nat i).
  split; [lia|]. apply in_seq. lia.
Qed.

(** The 256 channel values, checked one by one. *)
Lemma unpremultiply_channel_opaque c :
  0 <= c <= 255 -> unpremultiply_channel 255 c = c.
Proof.
  intros Hc.
  assert (H : forallb (fun c => unpremultiply_channel 255 c =? c) (zrange 256) = true)
    by (vm_compute; reflexivity).
  rewrite forallb_forall in H. apply Z.eqb_eq. apply H. apply In_zrange. lia.
Qed.

Lemma unpremultiply_channel_transparent c :
  0 <= c <= 255 -> unpremultiply_channel 0 c = c.
Proof.
  intros Hc.
  assert (H : forallb (fun c => unpremultiply_channel 0 c =? c) (zrange 256) = true)
    by (vm_compute; reflexivity).
  rewrite forallb_forall in H. apply Z.eqb_eq. apply H. apply In_zrange. lia.
Qed.

Lemma unpremultiply_pixel_opaque r g b :
  channel_values [r; g; b] ->
  unpremultiply_pixel [r; g; b; 255] = [r; g; b; 255].
Proof.
  intros H. inversion H as [|? ? Hr H1]; subst.
  inversion H1 as [|? ? Hg H2]; subst. inversion H2 as [|? ? Hb _]; subst.
  unfold unpremultiply_pixel.
  rewrite !unpremultiply_channel_opaque by assumption. reflexivity.
Qed.

Lemma unpremultiply_pixel_transparent r g b :
  channel_values [r; g; b] ->
  unpremultiply_pixel [r; g; b; 0] = [r; g; b; 0].
Proof.
  intros H. inversion H as [|? ? Hr H1]; subst.
  inversion H1 as [|? ? Hg H2]; subst. inversion H2 as [|? ? Hb _]; subst.
  unfold unpremultiply_pixel.
  rewrite !unpremultiply_channel_transparent by assumption. reflexivity.
Qed.

Lemma nth_map_fix {A} (f : A -> A) d l n :
  f d = d -> nth n (map f l) d = f (nth n l d).
Proof. intros H. rewrite <- H at 1. apply map_nth. Qed.

(** [unpremultiply_rgba] works pixel by pixel. *)
Lemma getpixel_unpremultiply pil_img x y :
  mode pil_img = "RGBA"%string ->
  getpixel (unpremultiply_rgba pil_img) x y = unpremultiply_pixel (getpixel pil_img x y).
Proof.
  intros Hm. unfold unpremultiply_rgba. rewrite Hm, String.eqb_refl. cbn [negb].
  unfold getpixel, in_bounds. cbn [width height rows].
  destruct ((0 <=? x) && (x <? width pil_img) && (0 <=? y) && (y <? height pil_img));
    [|reflexivity].
  rewrite (nth_map_fix (map unpremultiply_pixel)) by reflexivity.
  rewrite (nth_map_fix unpremultiply_pixel) by reflexivity. reflexivity.
Qed.

End UnpremultiplyFacts.

(** ** calculate_target_size *)

Module TargetSizeFacts.
Import Float FloatFacts FloatError FloatExact ScaleFacts.
Local Open Scope Z_scope.

Lemma round_to_power_of_two_pos value : 1 <= round_to_power_of_two value.
Proof.
  destruct (Z_le_gt_dec value 0) as [Hle|Hgt].
  - unfold round_to_power_of_two. destruct (Z.leb_spec value 0); [lia|lia].
  - destruct (round_to_power_of_two_cases value ltac:(lia))
      as [j [Hj [_ [_ [[_ Hr]|[Hj0 [_ Hr]]]]]]]; rewrite Hr.
    + assert (0 < 2 ^ j) by (apply Z.pow_pos_nonneg; lia). lia.
    + assert (0 < 2 ^ (j - 1)) by (apply Z.pow_pos_nonneg; lia). lia.
Qed.


(** From 8 on, rounding to a multiple of 8 gives at least 8. *)
Lemma round_to_multiple_8_ge value :
  8 <= value -> exists r, round_to_multiple value 8 = Ok r /\ 8 <= r.
Proof.
  intros Hv. unfold round_to_multiple.
  destruct (Z.leb_spec value 0); [lia|].
  destruct (truediv_bounds value 8 ltac:(lia) ltac:(lia)) as [q [Hq [Hpos [Hlo _]]]].
  rewrite Hq. cbn [bind]. eexists. split; [reflexivity|].
  assert (Hv' : (8 <= inject_Z value)%Q).
  { change 8%Q with (inject_Z 8). rewrite <- Zle_Qle. exact Hv. }
  change (inject_Z 8) with 8%Q in Hlo.
  assert (Hq1 : (1 # 2 < q)%Q).
  { set (V := inject_Z value) in *. clearbody V. unfold u53 in Hlo. lra. }
  unfold Py.round.
  destruct (FloatError.round_half_even_err q) as [_ Hr].
  assert (Hk : (0 < inject_Z (round_half_even q))%Q) by lra.
  rewrite <- (Zlt_Qlt 0) in Hk. lia.
Qed.

Lemma truediv_pos n d :
  0 < n -> 0 < d -> exists q, Py.truediv n d = Ok q /\ (0 < q)%Q.
Proof.
  intros Hn Hd. destruct (truediv_bounds n d Hn Hd) as [q [Hq [Hpos _]]].
  exists q. split; assumption.
Qed.

Lemma fdiv_ok x y : (0 < y)%Q -> exists q, Py.fdiv x y = Ok q.
Proof.
  intros Hy. unfold Py.fdiv. destruct (Qeq_bool y 0) eqn:E.
  - apply Qeq_bool_eq in E. lra.
  - eexists. reflexivity.
Qed.

Lemma calculate_auto width height mode cw ch multiple :
  is_auto mode ->
  calculate_target_size width height mode cw ch multiple
  = auto_suggest_size width height true.
Proof.
  intros [H1 [H2 H3]]. unfold calculate_target_size.
  destruct (String.eqb_spec mode "custom"); [contradiction|].
  destruct (String.eqb_spec mode "power_of_two"); [contradiction|].
  destruct (String.eqb_spec mode "multiple"); [contradiction|].
  reflexivity.
Qed.





End TargetSizeFacts.

(** ** process_one *)

Section PipelineFacts.
Context {imaging : Imaging}.

Lemma frames_ret {A} P (a : A) : frames P (ret a).
Proof. intros W r W' H. injection H as _ <-. split; reflexivity. Qed.

Lemma frames_lift {A} P (x : result A) : frames P (lift x).
Proof. intros W r W' H. injection H as _ <-. split; reflexivity. Qed.

Lemma frames_bind {A B} P (m : M A) (k : A -> M B) :
  frames P m -> (forall a, frames P (k a)) -> frames P (bindM m k).
Proof.
  intros Hm Hk W r W' H. unfold bindM in H.
  destruct (m W) as [[a|e] W1] eqn:E.
  - destruct (Hm _ _ _ E) as [Hw Hf]. destruct (Hk a _ _ _ H) as [Hw' Hf'].
    split; [congruence|]. intros p Hp. rewrite Hf', Hf by assumption. reflexivity.
  - injection H as <- <-. exact (Hm _ _ _ E).
Qed.

Lemma update_other W path f p : p <> path -> files (update W path f) p = files W p.
Proof.
  intros Hne. unfold update. cbn [files].
  destruct (String.eqb_spec p path); [contradiction|reflexivity].
Qed.

Lemma update_same W path f : files (update W path f) path = f.
Proof. unfold update. cbn [files]. rewrite String.eqb_refl. reflexivity. Qed.

Lemma frames_write (P : string -> Prop) path f : P path -> frames P (write_file path f).
Proof.
  intros HP W r W' H. unfold write_file in H.
  destruct (writable W path); injection H as _ <-.
  - split; [reflexivity|]. intros p Hp. apply update_other. congruence.
  - split; reflexivity.
Qed.

Lemma frames_unlink (P : string -> Prop) path : P path -> frames P (unlink_quietly path).
Proof.
  intros HP W r W' H. unfold unlink_quietly in H. injection H as _ <-.
  destruct (writable W path); split; try reflexivity.
  intros p Hp. apply update_other. congruence.
Qed.

Lemma frames_load P path : frames P (load_image_rgba path).
Proof.
  intros W r W' H. unfold load_image_rgba in H.
  destruct (files W (str path)) as [[img icc|lines|]|]; injection H as _ <-;
    split; reflexivity.
Qed.

Lemma frames_save (P : string -> Prop) img path icc :
  P (str path) -> frames P (save_image_with_icc img path icc).
Proof. intros HP. unfold save_image_with_icc. apply frames_write. exact HP. Qed.

Lemma frames_run_realesrgan (P : string -> Prop) i o :
  P (str o) -> frames P (run_realesrgan i o).
Proof.
  intros HP W r W' H. unfold run_realesrgan in H.
  destruct (files W (str i)) as [[img icc|lines|]|];
    try (injection H as _ <-; split; reflexivity).
  destruct (realesrgan img).
  - exact (frames_write P _ _ HP _ _ _ H).
  - injection H as _ <-. split; reflexivity.
Qed.

Variables src dst : Path.

(** Up to the save, only the two temporary files of the super-resolution
    step are touched. *)
Lemma process_image_frames target target_w target_h kind superres :
  frames (is_tmp src dst) (process_image src dst target target_w target_h kind superres).
Proof.
  unfold process_image.
  apply frames_bind; [apply frames_load|]. intros [pil icc].
  destruct (match target_w, target_h with
            | Some tw, Some th => (tw, th, false)
            | _, _ => (target, target, true)
            end) as [[final_w final_h] is_square].
  apply frames_bind; [apply frames_lift|]. intros k.
  apply frames_bind; [apply frames_lift|]. intros [[pil1 bbox] trimmed].
  apply frames_bind; [apply frames_lift|]. intros pil2.
  apply frames_bind; [|intros pil3; apply frames_ret].
  destruct k; try apply frames_lift.
  - apply frames_bind.
    + destruct (String.eqb superres "realesrgan"); [|apply frames_ret].
      apply frames_bind; [apply frames_save; left; reflexivity|]. intros _.
      apply frames_bind; [apply frames_run_realesrgan; right; reflexivity|]. intros _.
      apply frames_bind; [apply frames_load|]. intros reloaded.
      apply frames_bind; [apply frames_unlink; left; reflexivity|]. intros _.
      apply frames_bind; [apply frames_unlink; right; reflexivity|]. intros _.
      apply frames_ret.
    + intros pil3. apply frames_bind; [apply frames_lift|]. intros pil4.
      apply frames_ret.
  - apply frames_bind.
    + destruct (String.eqb superres "realesrgan"); [|apply frames_ret].
      apply frames_bind; [apply frames_save; left; reflexivity|]. intros _.
      apply frames_bind; [apply frames_run_realesrgan; right; reflexivity|]. intros _.
      apply frames_bind; [apply frames_load|]. intros reloaded.
      apply frames_bind; [apply frames_unlink; left; reflexivity|]. intros _.
      apply frames_bind; [apply frames_unlink; right; reflexivity|]. intros _.
      apply frames_ret.
    + intros pil3. apply frames_bind; [apply frames_lift|]. intros pil4.
      apply frames_ret.
Qed.


Variables (target : Z) (target_w target_h : option Z) (kind : Kind).
Variables (superres : string) (outpaint : bool) (log_jsonl : option Path).

Hypothesis dst_not_tmp : ~ is_tmp src dst (str dst).
Hypothesis log_elsewhere :
  forall l, log_jsonl = Some l -> str l <> str dst /\ ~ is_tmp src dst (str l).




End PipelineFacts.

(** * The examples of the specification, evaluated *)

Example round_to_power_of_two_100 : round_to_power_of_two 100 = 128.
Proof. reflexivity. Qed.

Example round_to_power_of_two_65 : round_to_power_of_two 65 = 64.
Proof. reflexivity. Qed.

(** 96 is halfway between 64 and 128; so is 3 between 2 and 4. *)
Example round_to_power_of_two_96 : round_to_power_of_two 96 = 64.
Proof. reflexivity. Qed.

Example round_to_power_of_two_3 : round_to_power_of_two 3 = 2.
Proof. reflexivity. Qed.

Example round_to_multiple_20_8 : round_to_multiple 20 8 = Ok 16.
Proof. vm_compute. reflexivity. Qed.

Example round_to_multiple_12_8 : round_to_multiple 12 8 = Ok 16.
Proof. vm_compute. reflexivity. Qed.

Example round_to_multiple_4_8 : round_to_multiple 4 8 = Ok 0.
Proof. vm_compute. reflexivity. Qed.

Example round_to_multiple_21_8 : round_to_multiple 21 8 = Ok 24.
Proof. vm_compute. reflexivity. Qed.

Example choose_integer_scale_100_50 : choose_integer_scale (100, 50) 512 = 5.
Proof. reflexivity. Qed.

Example calculate_target_size_640_480 :
  calculate_target_size 640 480 "auto" None None 8 = Ok (512, 384).
Proof. vm_compute. reflexivity. Qed.

(** Only the derived side is floored at 8: a tiny image gets a zero long
    side in auto mode, and in multiple mode too. *)
Example calculate_target_size_1_1 :
  calculate_target_size 1 1 "auto" None None 8 = Ok (0, 8).
Proof. vm_compute. reflexivity. Qed.

Example calculate_target_size_multiple_4_4 :
  calculate_target_size 4 4 "multiple" None None 8 = Ok (0, 8).
Proof. vm_compute. reflexivity. Qed.

Example is_alpha_bbox_meaningful_99_100 :
  is_alpha_bbox_meaningful sample_100 (0, 0, 98, 99) (Py.lit (5 # 100)) = Ok false.
Proof. vm_compute. reflexivity. Qed.

Example is_alpha_bbox_meaningful_60_60 :
  is_alpha_bbox_meaningful sample_100 (20, 20, 79, 79) (Py.lit (5 # 100)) = Ok true.
Proof. vm_compute. reflexivity. Qed.

(** Exactly 5 % trimmed counts as meaningful. *)
Example is_alpha_bbox_meaningful_95_100 :
  is_alpha_bbox_meaningful sample_100 (0, 0, 94, 99) (Py.lit (5 # 100)) = Ok true.
Proof. vm_compute. reflexivity. Qed.

(** A half-transparent pixel is divided by its alpha. *)
Example unpremultiply_pixel_half :
  unpremultiply_pixel [50; 60; 70; 128] = [99; 119; 139; 128].
Proof. vm_compute. reflexivity. Qed.

(** The doubles of the model are those of the machine: 0.1 and
    49 * (1 / 49). *)
Example double_one_tenth :
  Py.lit (1 # 10) = (3602879701896397 # 36028797018963968)%Q.
Proof. vm_compute. reflexivity. Qed.

Example double_49_times_inverse :
  Py.fmul (Py.float_of_int 49) (Py.lit (1 # 49))
  = (9007199254740991 # 9007199254740992)%Q.
Proof. vm_compute. reflexivity. Qed.

(** * The claims of the specification *)

Section Claims.
Context {imaging : Imaging}.
Import ImageFacts.

(** C1.  For an image with width <= side and height <= side,
    [pad_to_square] without inpainting returns an image of exactly
    side x side that shows every pixel of the original unchanged at offset
    ((side - w) // 2, (side - h) // 2) and is fully transparent elsewhere
    (a source in another mode than RGBA is converted to RGBA by the paste;
    an RGBA source appears value for value); for an image with
    width > side or height > side it raises the assertion error. *)
Theorem pad_to_square_spec (pil_img : Image) (side : Z) (method : string) :
  0 <= width pil_img -> 0 <= height pil_img ->
  (width pil_img <= side /\ height pil_img <= side ->
   exists out,
     pad_to_square pil_img side false method = Ok out /\
     size out = (side, side) /\
     centred_in out pil_img side side /\
     transparent_around out pil_img side side /\
     (mode pil_img = "RGBA"%string ->
      forall x y, 0 <= x < width pil_img -> 0 <= y < height pil_img ->
        getpixel out ((side - width pil_img) / 2 + x)
                     ((side - height pil_img) / 2 + y)
        = getpixel pil_img x y)) /\
  (side < width pil_img \/ side < height pil_img ->
   forall inpaint, exists msg,
     pad_to_square pil_img side inpaint method = Raise (AssertionError msg)).
Proof.
  intros Hw Hh. split.
  - intros [Hws Hhs].
    destruct (pad_to_square_centred pil_img side method ltac:(lia) ltac:(lia))
      as [out [Ho [Hsz [Hc Ht]]]].
    exists out. split; [exact Ho|]. split; [exact Hsz|]. split; [exact Hc|].
    split; [exact Ht|]. intros Hm x y Hx Hy.
    destruct Hc as [_ [_ Hpix]]. rewrite (Hpix x y Hx Hy).
    assert (Hmo : mode out = "RGBA"%string).
    { destruct ((width pil_img =? side) && (height pil_img =? side)) eqn:E.
      - apply andb_prop in E. destruct E as [E1 E2].
        apply Z.eqb_eq in E1. apply Z.eqb_eq in E2.
        rewrite (pad_to_square_same pil_img side false method E1 E2) in Ho.
        injection Ho as <-. exact Hm.
      - rewrite (pad_to_square_pastes pil_img side method ltac:(lia) ltac:(lia) E) in Ho.
        injection Ho as <-. reflexivity. }
    rewrite Hm, Hmo. apply convert_same.
  - intros Hbig inpaint. apply pad_to_square_raises. exact Hbig.
Qed.

(** C2.  With [allow_crop] false, [fit_to_size] returns an image of exactly
    (target_w, target_h) and [smart_square] one of exactly side x side, for
    every image and target whose dimensions Pillow can hold; neither crops:
    the output shows the whole of the image, or of the image resampled as a
    whole, centred in the box. *)
Theorem default_path_exact_size (pil_img : Image) (target_w target_h side : Z)
    (use_saliency : bool) :
  valid_dim (width pil_img) -> valid_dim (height pil_img) ->
  valid_dim target_w -> valid_dim target_h -> 1 <= side ->
  (exists out fit,
     fit_to_size pil_img target_w target_h false = Ok out /\
     size out = (target_w, target_h) /\
     fitted_from fit pil_img /\ centred_in out fit target_w target_h) /\
  (exists out fit,
     smart_square pil_img side use_saliency false = Ok out /\
     size out = (side, side) /\
     fitted_from fit pil_img /\ centred_in out fit side side).
Proof.
  intros Hw Hh Htw Hth Hs. split.
  - destruct (fit_to_size_pads pil_img target_w target_h Hw Hh Htw Hth)
      as [out [fit [Ho [Hsz [Hf [Hc _]]]]]].
    exists out, fit. split; [exact Ho|]. split; [exact Hsz|]. split; assumption.
  - destruct (smart_square_pads pil_img side use_saliency Hw Hh Hs)
      as [out [fit [Ho [Hsz [Hf [Hc _]]]]]].
    exists out, fit. split; [exact Ho|]. split; [exact Hsz|]. split; assumption.
Qed.

(** C3.  [resize_lanczos_fit_long] is the identity when
    max(width, height) <= target_long; otherwise it returns an image whose
    long side is exactly target_long and whose other side is at most
    target_long, so that afterwards both dimensions are <= target_long. *)
Theorem fit_long_spec (pil_img : Image) (target_long : Z) :
  valid_dim (width pil_img) -> valid_dim (height pil_img) -> 1 <= target_long ->
  (Z.max (width pil_img) (height pil_img) <= target_long ->
   resize_lanczos_fit_long pil_img target_long = Ok pil_img) /\
  (target_long < Z.max (width pil_img) (height pil_img) ->
   exists out,
     resize_lanczos_fit_long pil_img target_long = Ok out /\
     Z.max (width out) (height out) = target_long /\
     1 <= width out <= target_long /\ 1 <= height out <= target_long /\
     (height pil_img <= width pil_img -> width out = target_long) /\
     (width pil_img < height pil_img -> height out = target_long)).
Proof.
  intros Hw Hh Ht. split.
  - apply fit_long_identity.
  - intros Hbig.
    destruct (fit_long_shrinks pil_img target_long Hw Hh ltac:(lia))
      as [out [Ho [_ [_ [Hwo [Hho [Hlw Hlh]]]]]]].
    exists out. split; [exact Ho|]. split.
    + destruct (Z_le_gt_dec (height pil_img) (width pil_img)) as [H1|H1].
      * rewrite (Hlw H1). lia.
      * rewrite (Hlh ltac:(lia)). lia.
    + split; [exact Hwo|]. split; [exact Hho|]. split; assumption.
Qed.

(** C4 (as amended).  For every positive value, [round_to_power_of_two]
    returns a power of two at least as close to the value as any other
    power of two; when the value is exactly halfway between two powers it
    returns the smaller one. *)
Theorem round_to_power_of_two_spec (value : Z) :
  1 <= value ->
  exists k, 0 <= k /\ round_to_power_of_two value = 2 ^ k /\
    forall i, 0 <= i ->
      Z.abs (value - 2 ^ k) <= Z.abs (value - 2 ^ i) /\
      (Z.abs (value - 2 ^ k) = Z.abs (value - 2 ^ i) -> 2 ^ k <= 2 ^ i).
Proof. apply round_to_power_of_two_nearest. Qed.

(** C5 (as amended).  For a positive value and a positive multiple,
    [round_to_multiple] returns a nearest multiple of the factor; a value
    exactly halfway between two multiples goes to the one with the even
    quotient (round half to even). *)
Theorem round_to_multiple_spec (value multiple : Z) :
  0 < value < 2 ^ 52 -> 0 < multiple ->
  exists k,
    round_to_multiple value multiple = Ok (k * multiple) /\
    2 * Z.abs (value - k * multiple) <= multiple /\
    (2 * Z.abs (value - k * multiple) = multiple -> Z.even k = true).
Proof.
  intros Hv Hm. exists (div_half_even value multiple).
  split; [apply RoundToMultiple.round_to_multiple_eq; assumption|].
  apply (RoundToMultiple.div_half_even_nearest value multiple Hm).
Qed.


(** C7.  For every image of at most 2^40 pixels and every bounding box
    inside it, [is_alpha_bbox_meaningful] returns true if and only if the
    trimmed-area ratio 1 - bbox_area / original_area is at least 5 %, or
    the width ratio is below 0.95, or the height ratio is below 0.95. *)
Theorem is_alpha_bbox_meaningful_spec (pil_img : Image) (x0 y0 x1 y1 : Z) :
  0 <= x0 <= x1 -> x1 < width pil_img ->
  0 <= y0 <= y1 -> y1 < height pil_img ->
  width pil_img * height pil_img <= area_bound ->
  exists b,
    is_alpha_bbox_meaningful pil_img (x0, y0, x1, y1) (Py.lit (5 # 100)) = Ok b /\
    (b = true <-> meaningful_exact (width pil_img) (height pil_img) (x0, y0, x1, y1)).
Proof. apply MeaningfulFacts.is_alpha_bbox_meaningful_exact. Qed.

(** C8 (as amended).  [unpremultiply_rgba] leaves every pixel whose alpha
    is 255 unchanged, and leaves every pixel whose alpha is 0 unchanged as
    well: the guard skips the division and the RGB values stay what they
    were. *)
Theorem unpremultiply_rgba_spec (pil_img : Image) (x y r g b : Z) :
  mode pil_img = "RGBA"%string -> channel_values [r; g; b] ->
  (getpixel pil_img x y = [r; g; b; 255] ->
   getpixel (unpremultiply_rgba pil_img) x y = [r; g; b; 255]) /\
  (getpixel pil_img x y = [r; g; b; 0] ->
   getpixel (unpremultiply_rgba pil_img) x y = [r; g; b; 0]).
Proof.
  intros Hm Hc. split; intros Hp;
    rewrite UnpremultiplyFacts.getpixel_unpremultiply by exact Hm; rewrite Hp.
  - apply UnpremultiplyFacts.unpremultiply_pixel_opaque. exact Hc.
  - apply UnpremultiplyFacts.unpremultiply_pixel_transparent. exact Hc.
Qed.



End Claims.

(** Closed numeric side conditions, by evaluation. *)
Ltac zc :=
  unfold valid_dim, area_bound; vm_compute;
  repeat split; first [reflexivity | discriminate].

(** * The claims at concrete inputs *)

(** C1 at the 2 x 1 sample image and side 4, and at the 60 x 40 sample
    image, which does not fit. *)
Lemma pad_to_square_spec_witness :
  (exists out,
     pad_to_square (imaging := nearest_imaging) sample_rgba 4 false "telea" = Ok out /\
     size out = (4, 4) /\
     getpixel out 1 1 = [10; 20; 30; 255] /\ getpixel out 2 1 = [40; 50; 60; 0] /\
     getpixel out 0 0 = transparent) /\
  (exists msg,
     pad_to_square (imaging := nearest_imaging) sample_large 4 false "telea"
     = Raise (AssertionError msg)).
Proof.
  split.
  - destruct (pad_to_square_spec (imaging := nearest_imaging) sample_rgba 4 "telea"
                ltac:(zc) ltac:(zc)) as [Hfit _].
    destruct (Hfit ltac:(zc)) as [out [Ho [Hsz [_ [Ht Hpix]]]]].
    exists out. split; [exact Ho|]. split; [exact Hsz|]. split; [|split].
    + exact (Hpix eq_refl 0 0 ltac:(zc) ltac:(zc)).
    + exact (Hpix eq_refl 1 0 ltac:(zc) ltac:(zc)).
    + apply Ht; try zc. vm_compute. intros [[H _] _]. apply H. reflexivity.
  - assert (Hw : 0 <= width sample_large) by zc.
    assert (Hh : 0 <= height sample_large) by zc.
    assert (Hb : 4 < width sample_large \/ 4 < height sample_large) by (left; zc).
    destruct (pad_to_square_spec (imaging := nearest_imaging) sample_large 4 "telea"
                Hw Hh) as [_ Hbig].
    exact (Hbig Hb false).
Defined.

(** C2 at the 60 x 40 sample image, a 16 x 16 box and side 32. *)
Lemma default_path_exact_size_witness :
  (exists out,
     fit_to_size (imaging := nearest_imaging) sample_large 16 16 false = Ok out /\
     size out = (16, 16)) /\
  (exists out,
     smart_square (imaging := nearest_imaging) sample_large 32 false false = Ok out /\
     size out = (32, 32)).
Proof.
  assert (Hw : valid_dim (width sample_large)) by zc.
  assert (Hh : valid_dim (height sample_large)) by zc.
  assert (H16 : valid_dim 16) by zc.
  destruct (default_path_exact_size (imaging := nearest_imaging) sample_large
              16 16 32 false Hw Hh H16 H16 ltac:(lia))
    as [[o1 [f1 [H1 [S1 _]]]] [o2 [f2 [H2 [S2 _]]]]].
  split; [exists o1|exists o2]; split; assumption.
Defined.

(** C3 at the 60 x 40 sample image and target 30. *)
Lemma fit_long_spec_witness :
  exists out,
    resize_lanczos_fit_long (imaging := nearest_imaging) sample_large 30 = Ok out /\
    Z.max (width out) (height out) = 30.
Proof.
  assert (Hw : valid_dim (width sample_large)) by zc.
  assert (Hh : valid_dim (height sample_large)) by zc.
  destruct (fit_long_spec (imaging := nearest_imaging) sample_large 30
              Hw Hh ltac:(lia)) as [_ H].
  destruct (H ltac:(zc)) as [out [Ho [Hm _]]].
  exists out. split; assumption.
Defined.

(** The claim C4 fails at 96, halfway between 64 and 128: the result is 64. *)
Lemma round_to_power_of_two_tie_counterexample :
  2 * 96 = 64 + 128 /\ round_to_power_of_two 96 <> 128.
Proof. split; [reflexivity|]. vm_compute. discriminate. Qed.

Lemma round_to_power_of_two_spec_witness :
  exists k, 0 <= k /\ round_to_power_of_two 96 = 2 ^ k /\
    forall i, 0 <= i ->
      Z.abs (96 - 2 ^ k) <= Z.abs (96 - 2 ^ i) /\
      (Z.abs (96 - 2 ^ k) = Z.abs (96 - 2 ^ i) -> 2 ^ k <= 2 ^ i).
Proof. apply (round_to_power_of_two_spec 96). lia. Defined.

(** The claim C5 fails at (20, 8): 20 / 8 = 2.5 rounds to the even 2. *)
Lemma round_to_multiple_half_counterexample :
  round_to_multiple 20 8 <> Ok 24 /\ round_to_multiple 4 8 <> Ok 8.
Proof. split; vm_compute; discriminate. Qed.

Lemma round_to_multiple_spec_witness :
  exists k,
    round_to_multiple 20 8 = Ok (k * 8) /\
    2 * Z.abs (20 - k * 8) <= 8 /\
    (2 * Z.abs (20 - k * 8) = 8 -> Z.even k = true).
Proof. apply (round_to_multiple_spec 20 8); zc. Defined.



(** C7 at a 100 x 100 image trimmed to 99 x 100: not meaningful. *)
Lemma is_alpha_bbox_meaningful_spec_witness :
  exists b,
    is_alpha_bbox_meaningful sample_100 (0, 0, 98, 99) (Py.lit (5 # 100)) = Ok b /\
    (b = true <-> meaningful_exact 100 100 (0, 0, 98, 99)).
Proof.
  apply (is_alpha_bbox_meaningful_spec sample_100 0 0 98 99); zc.
Defined.

(** The claim C8 fails at the transparent pixel (40, 50, 60, 0) of the
    sample image: its RGB stays (40, 50, 60). *)
Lemma unpremultiply_transparent_counterexample :
  nth 3 (getpixel sample_rgba 1 0) 0 = 0 /\
  firstn 3 (getpixel (unpremultiply_rgba sample_rgba) 1 0) <> [0; 0; 0].
Proof. split; [reflexivity|]. vm_compute. discriminate. Qed.

Lemma unpremultiply_rgba_spec_witness :
  getpixel (unpremultiply_rgba sample_rgba) 0 0 = [10; 20; 30; 255] /\
  getpixel (unpremultiply_rgba sample_rgba) 1 0 = [40; 50; 60; 0].
Proof.
  assert (H1 : channel_values [10; 20; 30])
    by (repeat constructor; lia).
  assert (H2 : channel_values [40; 50; 60])
    by (repeat constructor; lia).
  split.
  - apply (unpremultiply_rgba_spec sample_rgba 0 0 10 20 30 eq_refl H1). reflexivity.
  - apply (unpremultiply_rgba_spec sample_rgba 1 0 40 50 60 eq_refl H2). reflexivity.
Defined.




(** * Further properties of the package *)

(** ** Rounding keeps the order *)

Module FloatOrder.
Import Float FloatFacts FloatError FloatExact.
Local Open Scope Q_scope.

Lemma fl_zero prec q : q == 0 -> fl prec q = 0.
Proof.
  intros H. unfold fl.
  assert (Hc : Qcompare q 0 = Eq) by (apply Qeq_alt; exact H).
  rewrite Hc. reflexivity.
Qed.

Lemma ilog2_lt q : 0 < q -> q < pow2 (ilog2 q + 1).
Proof.
  intros Hq. unfold ilog2. destruct q as [n d]. cbn [Qnum Qden].
  remember (Z.log2 n) as a eqn:Ea. remember (Z.log2 (Zpos d)) as b eqn:Eb.
  destruct (Qle_bool (pow2 (a - b)) (n # d)) eqn:Ht.
  - assert (Hn : (0 < n)%Z) by (unfold Qlt in Hq; simpl in Hq; lia).
    destruct (Z.log2_spec n Hn) as [_ Hhi].
    destruct (Z.log2_spec (Zpos d) (Pos2Z.is_pos d)) as [Hlo _].
    rewrite <- Ea in Hhi. rewrite <- Eb in Hlo.
    assert (Ha : (0 <= a)%Z) by (subst a; apply Z.log2_nonneg).
    assert (Hb : (0 <= b)%Z) by (subst b; apply Z.log2_nonneg).
    clear Ea Eb Ht.
    replace (a - b + 1)%Z with ((a + 1) + - b)%Z by lia.
    rewrite pow2_add, pow2_opp, (pow2_Z (a + 1)), (pow2_Z b) by lia.
    replace (Z.succ a) with (a + 1)%Z in Hhi by lia.
    assert (Hpb : (0 < 2 ^ b)%Z) by (apply Z.pow_pos_nonneg; lia).
    assert (Hpbq : 0 < inject_Z (2 ^ b)) by (rewrite <- (Zlt_Qlt 0); exact Hpb).
    rewrite (Qmake_Qdiv n d).
    apply Qlt_shift_div_r; [unfold Qlt; simpl; lia|].
    assert (Hnq : inject_Z n < inject_Z (2 ^ (a + 1))) by (rewrite <- Zlt_Qlt; exact Hhi).
    assert (Hdq : inject_Z (2 ^ b) <= inject_Z (Zpos d)) by (rewrite <- Zle_Qle; exact Hlo).
    assert (Hpa : 0 < inject_Z (2 ^ (a + 1))).
    { rewrite <- (Zlt_Qlt 0). apply Z.pow_pos_nonneg; lia. }
    apply Qlt_le_trans with (inject_Z (2 ^ (a + 1))); [exact Hnq|].
    rewrite <- Qmult_assoc.
    rewrite <- (Qmult_1_r (inject_Z (2 ^ (a + 1)))) at 1.
    apply Qmult_le_l; [exact Hpa|].
    rewrite Qmult_comm. apply Qle_shift_div_l; [exact Hpbq|]. lra.
  - replace (a - b - 1 + 1)%Z with (a - b)%Z by lia.
    destruct (Qlt_le_dec (n # d) (pow2 (a - b))) as [Hlt|Hle]; [exact Hlt|].
    apply Qle_bool_iff in Hle. congruence.
Qed.

Lemma ilog2_mono x y : 0 < x -> x <= y -> (ilog2 x <= ilog2 y)%Z.
Proof.
  intros Hx Hxy.
  pose proof (ilog2_le x Hx) as H1.
  pose proof (ilog2_lt y ltac:(lra)) as H2.
  assert (Hlt : pow2 (ilog2 x) < pow2 (ilog2 y + 1)) by lra.
  apply pow2_lt_inv in Hlt. lia.
Qed.

Lemma round_half_even_mono x y : x <= y -> (round_half_even x <= round_half_even y)%Z.
Proof.
  intros Hxy.
  pose proof (round_half_even_err x) as [Hx1 Hx2].
  pose proof (round_half_even_err y) as [Hy1 Hy2].
  destruct (Z_le_gt_dec (round_half_even x) (round_half_even y)) as [Hle|Hgt];
    [exact Hle|exfalso].
  assert (Hge : (round_half_even y + 1 <= round_half_even x)%Z) by lia.
  assert (Hq : inject_Z (round_half_even y) + 1 <= inject_Z (round_half_even x)).
  { change 1 with (inject_Z 1). rewrite <- inject_Z_plus, <- Zle_Qle. exact Hge. }
  assert (E : x == y) by lra.
  rewrite (round_half_even_comp x y E) in Hgt. lia.
Qed.

(** The rounded value stays within the binade of the exact one. *)
Lemma round_pos_bounds prec q :
  (1 <= prec)%Z -> 0 < q ->
  pow2 (ilog2 q) <= round_pos prec q /\ round_pos prec q <= pow2 (ilog2 q + 1).
Proof.
  intros Hp Hq. unfold round_pos.
  set (e := (ilog2 q - (prec - 1))%Z).
  pose proof (pow2_pos e) as He.
  pose proof (ilog2_le q Hq) as Hlo. pose proof (ilog2_lt q Hq) as Hhi.
  assert (E1 : pow2 (ilog2 q) == inject_Z (2 ^ (prec - 1)) * pow2 e).
  { rewrite <- pow2_Z by lia. rewrite <- pow2_add. unfold e.
    replace (prec - 1 + (ilog2 q - (prec - 1)))%Z with (ilog2 q) by lia. reflexivity. }
  assert (E2 : pow2 (ilog2 q + 1) == inject_Z (2 ^ prec) * pow2 e).
  { rewrite <- pow2_Z by lia. rewrite <- pow2_add. unfold e.
    replace (prec + (ilog2 q - (prec - 1)))%Z with (ilog2 q + 1)%Z by lia. reflexivity. }
  assert (Hx : q / pow2 e * pow2 e == q) by (field; lra).
  assert (L : inject_Z (2 ^ (prec - 1)) <= q / pow2 e).
  { apply Qle_shift_div_l; [exact He|]. rewrite <- E1. exact Hlo. }
  assert (U : q / pow2 e <= inject_Z (2 ^ prec)).
  { apply Qle_shift_div_r; [exact He|]. rewrite <- E2. lra. }
  apply round_half_even_mono in L. apply round_half_even_mono in U.
  rewrite round_half_even_Z in L, U.
  rewrite E1, E2. split; apply Qmult_le_compat_r; try lra;
    rewrite <- Zle_Qle; assumption.
Qed.

Lemma round_pos_mono prec x y :
  (1 <= prec)%Z -> 0 < x -> x <= y -> round_pos prec x <= round_pos prec y.
Proof.
  intros Hp Hx Hxy. assert (Hy : 0 < y) by lra.
  pose proof (ilog2_mono x y Hx Hxy) as Hl.
  destruct (Z.eq_dec (ilog2 x) (ilog2 y)) as [E|Hne].
  - unfold round_pos. rewrite E.
    set (e := (ilog2 y - (prec - 1))%Z). pose proof (pow2_pos e) as He.
    apply Qmult_le_compat_r; [|lra]. rewrite <- Zle_Qle.
    apply round_half_even_mono. apply Qmult_le_compat_r; [exact Hxy|].
    apply Qlt_le_weak, Qinv_lt_0_compat. exact He.
  - destruct (round_pos_bounds prec x Hp Hx) as [_ H1].
    destruct (round_pos_bounds prec y Hp Hy) as [H2 _].
    assert (H3 : pow2 (ilog2 x + 1) <= pow2 (ilog2 y)) by (apply pow2_le; lia).
    lra.
Qed.

(** Rounding to nearest is monotone. *)
Lemma fl_mono prec x y :
  (1 <= prec)%Z -> 0 < x -> x <= y -> fl prec x <= fl prec y.
Proof.
  intros Hp Hx Hxy. assert (Hy : 0 < y) by lra. unfold fl.
  assert (Hcx : Qcompare x 0 = Gt) by (apply Qgt_alt; exact Hx).
  assert (Hcy : Qcompare y 0 = Gt) by (apply Qgt_alt; exact Hy).
  rewrite Hcx, Hcy.
  pose proof (Qred_correct (round_pos prec (Qred x))) as A.
  pose proof (Qred_correct (round_pos prec (Qred y))) as B.
  pose proof (Qred_correct x) as Ex. pose proof (Qred_correct y) as Ey.
  assert (H : round_pos prec (Qred x) <= round_pos prec (Qred y))
    by (apply round_pos_mono; [exact Hp|lra|lra]).
  lra.
Qed.

(** A result above a representable integer rounds to a value above it. *)
Lemma fl_ge_Z prec n q :
  (1 <= prec)%Z -> (0 < n < 2 ^ prec)%Z -> inject_Z n <= q -> inject_Z n <= fl prec q.
Proof.
  intros Hp Hn Hq.
  assert (H0 : 0 < inject_Z n) by (rewrite <- (Zlt_Qlt 0); lia).
  pose proof (fl_mono prec (inject_Z n) q Hp H0 Hq) as H.
  rewrite (fl_exact_Z prec n Hn Hp) in H. exact H.
Qed.

End FloatOrder.

(** ** uint8 values through float32 *)

Module Uint8Facts.
Import Float FloatFacts FloatError FloatExact FloatOrder.
Local Open Scope Q_scope.

Lemma scalar_0 : Np.scalar 0 = 0.
Proof. reflexivity. Qed.

Lemma scalar_255 : Np.scalar 255 = 255.
Proof. vm_compute. reflexivity. Qed.

Lemma trunc_Z q z : q == inject_Z z -> trunc q = z.
Proof.
  intros H. unfold trunc. destruct (Qle_bool 0 q).
  - rewrite (Qfloor_comp _ _ H). apply Qfloor_Z.
  - rewrite (Qceiling_comp _ _ H). apply Qceiling_Z.
Qed.

Lemma of_int_exact z : (0 <= z < 2 ^ 24)%Z -> Np.of_int z == inject_Z z.
Proof.
  intros Hz. unfold Np.of_int, Np.binary32.
  destruct (Z.eq_dec z 0) as [->|Hne]; [reflexivity|].
  apply fl_exact_Z; lia.
Qed.

(** [astype(np.float32)] followed by [astype(np.uint8)] gives a uint8 value
    back. *)
Lemma to_uint8_of_int z : (0 <= z <= 255)%Z -> Np.to_uint8 (Np.of_int z) = z.
Proof.
  intros Hz. unfold Np.to_uint8. apply trunc_Z. apply of_int_exact.
  change (2 ^ 24)%Z with 16777216%Z. lia.
Qed.

Lemma clip_bounds x lo hi : lo <= hi -> lo <= Np.clip x lo hi /\ Np.clip x lo hi <= hi.
Proof.
  intros H. unfold Np.clip.
  destruct (Qle_bool x lo) eqn:E1; [split; lra|].
  destruct (Qle_bool hi x) eqn:E2; [split; lra|].
  split.
  - destruct (Qlt_le_dec lo x) as [Hlt|Hle]; [lra|].
    apply Qle_bool_iff in Hle. congruence.
  - destruct (Qlt_le_dec x hi) as [Hlt|Hle]; [lra|].
    apply Qle_bool_iff in Hle. congruence.
Qed.

Lemma clip_ge x lo hi v : lo <= hi -> v <= x -> v <= hi -> v <= Np.clip x lo hi.
Proof.
  intros H Hx Hv. unfold Np.clip.
  destruct (Qle_bool x lo) eqn:E1; [apply Qle_bool_iff in E1; lra|].
  destruct (Qle_bool hi x) eqn:E2; [exact Hv|exact Hx].
Qed.

Lemma clip_inside x lo hi : lo <= x -> x <= hi -> Np.clip x lo hi == x.
Proof.
  intros H1 H2. unfold Np.clip.
  destruct (Qle_bool x lo) eqn:E1; [apply Qle_bool_iff in E1; lra|].
  destruct (Qle_bool hi x) eqn:E2; [apply Qle_bool_iff in E2; lra|reflexivity].
Qed.

Lemma trunc_bounds q (a b : Z) :
  (0 <= a)%Z -> inject_Z a <= q -> q <= inject_Z b -> (a <= trunc q <= b)%Z.
Proof.
  intros Ha H1 H2. unfold trunc.
  assert (H0 : 0 <= q).
  { apply Qle_trans with (inject_Z a); [|exact H1]. rewrite <- (Zle_Qle 0). exact Ha. }
  assert (Hb : Qle_bool 0 q = true) by (apply Qle_bool_iff; exact H0).
  rewrite Hb. split.
  - rewrite <- (Qfloor_Z a). apply Qfloor_resp_le. exact H1.
  - rewrite <- (Qfloor_Z b). apply Qfloor_resp_le. exact H2.
Qed.

(** Whatever the value, clipping to [0, 255] and casting gives a uint8. *)
Lemma to_uint8_clip x :
  (0 <= Np.to_uint8 (Np.clip x (Np.scalar 0) (Np.scalar 255)) <= 255)%Z.
Proof.
  rewrite scalar_0, scalar_255. unfold Np.to_uint8.
  destruct (clip_bounds x 0 255 ltac:(lra)) as [H1 H2].
  apply trunc_bounds; [lia|exact H1|exact H2].
Qed.

Lemma to_uint8_clip_ge x c :
  (0 <= c <= 255)%Z -> inject_Z c <= x ->
  (c <= Np.to_uint8 (Np.clip x (Np.scalar 0) (Np.scalar 255)))%Z.
Proof.
  intros Hc Hx. rewrite scalar_0, scalar_255. unfold Np.to_uint8.
  assert (H255 : inject_Z c <= 255).
  { change 255 with (inject_Z 255). rewrite <- Zle_Qle. lia. }
  destruct (clip_bounds x 0 255 ltac:(lra)) as [_ H2].
  pose proof (clip_ge x 0 255 (inject_Z c) ltac:(lra) Hx H255) as H1.
  apply (trunc_bounds _ c 255); [lia|exact H1|exact H2].
Qed.

Lemma to_uint8_clip_Z x c :
  (0 <= c <= 255)%Z -> x == inject_Z c ->
  Np.to_uint8 (Np.clip x (Np.scalar 0) (Np.scalar 255)) = c.
Proof.
  intros Hc Hx. rewrite scalar_0, scalar_255. unfold Np.to_uint8.
  apply trunc_Z. rewrite <- Hx. apply clip_inside; rewrite Hx.
  - rewrite <- (Zle_Qle 0). lia.
  - change 255 with (inject_Z 255). rewrite <- Zle_Qle. lia.
Qed.

End Uint8Facts.

(** ** scale.py: the integer factor of the pixel-art path *)

Section IntegerScale.
Context {imaging : Imaging}.
Import ImageFacts.

Lemma choose_integer_scale_ge_1 wh target : 1 <= choose_integer_scale wh target.
Proof. destruct wh as [w h]. unfold choose_integer_scale. lia. Qed.

(** At the chosen factor a source that fits the target still fits. *)
Lemma choose_integer_scale_fits w h target :
  1 <= w <= target -> 1 <= h <= target ->
  w * choose_integer_scale (w, h) target <= target /\
  h * choose_integer_scale (w, h) target <= target.
Proof.
  intros Hw Hh. unfold choose_integer_scale.
  rewrite (Z.max_r 1 w), (Z.max_r 1 h) by lia.
  pose proof (Z.mul_div_le target w ltac:(lia)) as Hwq.
  pose proof (Z.mul_div_le target h ltac:(lia)) as Hhq.
  assert (1 <= target / w) by (apply Z.div_le_lower_bound; lia).
  assert (1 <= target / h) by (apply Z.div_le_lower_bound; lia).
  set (qw := target / w) in *. set (qh := target / h) in *.
  destruct (Z.min_spec qw qh) as [[Hlt ->]|[Hge ->]];
    rewrite (Z.max_r 1), Z.max_l by lia; split; nia.
Qed.

(** X1. [choose_integer_scale] never returns less than 1; for a source that
    fits into the target it returns the largest factor at which both scaled
    sides still fit, and for a source that exceeds the target it returns 1. *)
Lemma choose_integer_scale_largest w h target :
  1 <= w -> 1 <= h ->
  let sf := choose_integer_scale (w, h) target in
  1 <= sf /\
  (w <= target -> h <= target ->
   w * sf <= target /\ h * sf <= target /\
   (target < w * (sf + 1) \/ target < h * (sf + 1))) /\
  (target < w \/ target < h -> sf = 1).
Proof.
  intros Hw Hh. cbn zeta. unfold choose_integer_scale.
  rewrite (Z.max_r 1 w), (Z.max_r 1 h) by lia.
  pose proof (Z.mul_div_le target w ltac:(lia)) as Hwq.
  pose proof (Z.mul_div_le target h ltac:(lia)) as Hhq.
  pose proof (Z.mul_succ_div_gt target w ltac:(lia)) as Hwu.
  pose proof (Z.mul_succ_div_gt target h ltac:(lia)) as Hhu.
  set (qw := target / w) in *. set (qh := target / h) in *.
  split; [lia|]. split.
  - intros Htw Hth.
    assert (1 <= qw) by (apply Z.div_le_lower_bound; lia).
    assert (1 <= qh) by (apply Z.div_le_lower_bound; lia).
    destruct (Z.min_spec qw qh) as [[Hlt ->]|[Hge ->]];
      rewrite (Z.max_r 1), Z.max_l by lia.
    + split; [lia|]. split; [nia|]. left. lia.
    + split; [nia|]. split; [lia|]. right. lia.
  - intros Hbig.
    assert (Z.min qw qh <= 0).
    { destruct Hbig as [Hb|Hb].
      - assert (qw < 1) by (apply Z.div_lt_upper_bound; lia). lia.
      - assert (qh < 1) by (apply Z.div_lt_upper_bound; lia). lia. }
    lia.
Qed.

End IntegerScale.

(** ** pad_crop.py: what the aspect test and the crop option change *)

Section SquareAndBox.
Context {imaging : Imaging}.
Import ImageFacts ScaleFacts FloatError.

(** X2. Without [allow_crop], [smart_square] is [resize_lanczos_fit_long]
    followed by [pad_to_square]: the near-square test on [aspect_delta]
    selects between two branches that compute the same thing. *)
Lemma smart_square_fit_then_pad pil_img side use_saliency :
  1 <= width pil_img -> 1 <= height pil_img ->
  smart_square pil_img side use_saliency false =
  (img_fit <- resize_lanczos_fit_long pil_img side ;;
   pad_to_square img_fit side false "telea").
Proof.
  intros Hw Hh. unfold smart_square, size.
  destruct ((width pil_img =? side) && (height pil_img =? side)) eqn:E.
  - apply andb_prop in E. destruct E as [E1 E2].
    apply Z.eqb_eq in E1. apply Z.eqb_eq in E2.
    rewrite fit_long_identity by lia. cbn [bind].
    rewrite pad_to_square_same by assumption. reflexivity.
  - destruct (aspect_delta_ok (width pil_img) (height pil_img) Hw Hh) as [d Hd].
    rewrite Hd. cbn [bind].
    destruct (Py.flt d (Py.lit (1 # 10))).
    + destruct (Z.gtb_spec (Z.max (width pil_img) (height pil_img)) side) as [Hgt|Hle].
      * reflexivity.
      * rewrite fit_long_identity by exact Hle. reflexivity.
    + destruct (resize_lanczos_fit_long pil_img side) as [fit|e]; reflexivity.
Qed.

(** Cropping an image to its own size keeps every pixel. *)
Lemma crop_whole fit tw th :
  width fit = tw -> height fit = th -> 0 <= tw -> 0 <= th ->
  exists out, crop fit (0, 0, 0 + tw, 0 + th) = Ok out /\
    size out = (tw, th) /\ mode out = mode fit /\
    forall x y, 0 <= x < tw -> 0 <= y < th -> getpixel out x y = getpixel fit x y.
Proof.
  intros Hw Hh Htw Hth. unfold crop. rewrite !Z.add_0_l, !Z.sub_0_r.
  destruct (Z.ltb_spec tw 0); [lia|]. destruct (Z.ltb_spec th 0); [lia|].
  eexists. split; [reflexivity|]. split; [reflexivity|]. split; [reflexivity|].
  intros x y Hx Hy. rewrite getpixel_build by assumption.
  rewrite !Z.add_0_l.
  assert (Hb : in_bounds fit x y = true).
  { unfold in_bounds. rewrite Hw, Hh.
    destruct (Z.leb_spec 0 x); [|lia]. destruct (Z.ltb_spec x tw); [|lia].
    destruct (Z.leb_spec 0 y); [|lia]. destruct (Z.ltb_spec y th); [|lia].
    reflexivity. }
  rewrite Hb. reflexivity.
Qed.

(** An image that fills the box is shown whole by its crop to the box. *)
Lemma crop_whole_centred fit tw th :
  width fit = tw -> height fit = th -> 0 <= tw -> 0 <= th ->
  exists out, crop fit (0, 0, 0 + tw, 0 + th) = Ok out /\
    size out = (tw, th) /\
    centred_in out fit tw th /\ transparent_around out fit tw th.
Proof.
  intros Hw Hh Htw Hth.
  destruct (crop_whole fit tw th Hw Hh Htw Hth) as [out [Ho [Hsz [Hm Hpix]]]].
  exists out. split; [exact Ho|]. split; [exact Hsz|]. split.
  - split; [lia|]. split; [lia|]. intros x y Hx Hy.
    rewrite Hw, Hh, !Z.sub_diag. change (0 / 2) with 0. rewrite !Z.add_0_l.
    rewrite Hm, convert_same. apply Hpix; lia.
  - intros i j Hi Hj Hout. exfalso. apply Hout.
    rewrite Hw, Hh, !Z.sub_diag. change (0 / 2) with 0. lia.
Qed.

(** The last step of [fit_to_size], for an image that already fits the
    box: with or without [allow_crop] the whole image is shown. *)
Lemma box_tail fit tw th allow_crop :
  0 <= width fit <= tw -> 0 <= height fit <= th ->
  exists out,
    (if negb allow_crop
     then canvas <- Image_new "RGBA" tw th transparent ;;
          Ok (paste canvas fit ((tw - width fit) / 2) ((th - height fit) / 2))
     else if (width fit >=? tw) && (height fit >=? th)
     then crop fit ((width fit - tw) / 2, (height fit - th) / 2,
                    (width fit - tw) / 2 + tw, (height fit - th) / 2 + th)
     else canvas <- Image_new "RGBA" tw th transparent ;;
          Ok (paste canvas fit ((tw - width fit) / 2) ((th - height fit) / 2)))
    = Ok out /\
    size out = (tw, th) /\
    centred_in out fit tw th /\ transparent_around out fit tw th.
Proof.
  intros Hw Hh.
  destruct (negb allow_crop); [apply pad_to_box; assumption|].
  destruct (Z.geb_spec (width fit) tw) as [Hgw|Hlw];
    [|apply pad_to_box; assumption].
  destruct (Z.geb_spec (height fit) th) as [Hgh|Hlh];
    [|apply pad_to_box; assumption].
  cbn [andb].
  assert (Ew : width fit = tw) by lia. assert (Eh : height fit = th) by lia.
  rewrite Ew, Eh, !Z.sub_diag. change (0 / 2) with 0.
  apply crop_whole_centred; lia.
Qed.

(** X3. [fit_to_size] returns exactly the requested size and shows the whole
    fitted image with [allow_crop] as well: the crop branch is reached only
    when the fitted image already fills the box, and then cuts nothing. *)
Lemma fit_to_size_never_crops pil_img target_w target_h allow_crop :
  valid_dim (width pil_img) -> valid_dim (height pil_img) ->
  valid_dim target_w -> valid_dim target_h ->
  exists out fit, fit_to_size pil_img target_w target_h allow_crop = Ok out /\
    size out = (target_w, target_h) /\ fitted_from fit pil_img /\
    centred_in out fit target_w target_h /\
    transparent_around out fit target_w target_h.
Proof.
  unfold valid_dim. intros Hw Hh Htw Hth. unfold fit_to_size, size.
  destruct ((width pil_img =? target_w) && (height pil_img =? target_h)) eqn:E.
  - apply andb_prop in E. destruct E as [E1 E2].
    apply Z.eqb_eq in E1. apply Z.eqb_eq in E2.
    exists pil_img, pil_img. split; [reflexivity|].
    split; [rewrite E1, E2; reflexivity|]. split; [left; reflexivity|].
    rewrite <- E1, <- E2. split.
    + split; [lia|]. split; [lia|]. intros x y Hx Hy.
      rewrite !Z.sub_diag. change (0 / 2) with 0.
      rewrite !Z.add_0_l, convert_same. reflexivity.
    + intros i j Hi Hj Hout. exfalso. apply Hout.
      rewrite !Z.sub_diag. change (0 / 2) with 0. lia.
  - destruct (Z.gtb_spec (height pil_img) 0); [|lia].
    destruct (Z.gtb_spec target_h 0); [|lia].
    destruct (truediv_bounds (width pil_img) (height pil_img) ltac:(lia) ltac:(lia))
      as [qa [Hqa _]].
    destruct (truediv_bounds target_w target_h ltac:(lia) ltac:(lia))
      as [qt [Hqt _]].
    rewrite Hqa, Hqt. cbn [bind].
    destruct ((width pil_img >? target_w) || (height pil_img >? target_h)) eqn:Hd.
    + destruct (Py.fle qt qa) eqn:Hfle.
      * destruct (truediv_bounds target_w (width pil_img) ltac:(lia) ltac:(lia))
          as [s [Hs _]].
        rewrite Hs. cbn [bind].
        assert (Hasp := aspect_from_fle (width pil_img) (height pil_img)
                          target_w target_h qa qt ltac:(lia) ltac:(lia)
                          ltac:(lia) ltac:(lia) Hqa Hqt
                          (proj1 (Qle_bool_iff _ _) Hfle)).
        pose proof (scaled_dim_le (height pil_img) (width pil_img) target_h
                      target_w s ltac:(lia) ltac:(lia) ltac:(lia) ltac:(lia)
                      Hasp Hs) as Hdim.
        set (nh := Z.max 1 (Py.int (Py.fmul (Py.float_of_int (height pil_img)) s))) in *.
        destruct (Z.gtb_spec target_w target_w); [lia|]. cbn [bind].
        destruct (Z.gtb_spec nh target_h); [lia|]. cbn [bind].
        unfold resize_lanczos_to_box. rewrite resize_ok by lia. cbn [bind].
        set (fit := mkImage (mode pil_img) target_w nh
                      (build target_w nh (resample LANCZOS pil_img target_w nh))).
        destruct (box_tail fit target_w target_h allow_crop)
          as [out [Ho [Hsz [Hc Ht]]]];
          [unfold fit; cbn [width]; lia|unfold fit; cbn [height]; lia|].
        exists out, fit. split; [exact Ho|]. split; [exact Hsz|].
        split; [right; exists (target_w, nh); apply resize_ok; lia|].
        split; assumption.
      * destruct (truediv_bounds target_h (height pil_img) ltac:(lia) ltac:(lia))
          as [s [Hs _]].
        rewrite Hs. cbn [bind].
        assert (Hasp := aspect_from_fle target_w target_h (width pil_img)
                          (height pil_img) qt qa ltac:(lia) ltac:(lia)
                          ltac:(lia) ltac:(lia) Hqt Hqa
                          (fle_false_lt _ _ Hfle)).
        assert (Hasp' : (inject_Z target_h * inject_Z (width pil_img) * (1 - u53)
                         <= inject_Z (height pil_img) * inject_Z target_w * (1 + u53))%Q).
        { assert (E1 : (inject_Z target_h * inject_Z (width pil_img) * (1 - u53)
                        == inject_Z (width pil_img) * inject_Z target_h * (1 - u53))%Q)
            by ring.
          assert (E2 : (inject_Z (height pil_img) * inject_Z target_w * (1 + u53)
                        == inject_Z target_w * inject_Z (height pil_img) * (1 + u53))%Q)
            by ring.
          rewrite E1, E2. exact Hasp. }
        pose proof (scaled_dim_le (width pil_img) (height pil_img) target_w
                      target_h s ltac:(lia) ltac:(lia) ltac:(lia) ltac:(lia)
                      Hasp' Hs) as Hdim.
        set (nw := Z.max 1 (Py.int (Py.fmul (Py.float_of_int (width pil_img)) s))) in *.
        destruct (Z.gtb_spec nw target_w); [lia|]. cbn [bind].
        destruct (Z.gtb_spec target_h target_h); [lia|]. cbn [bind].
        unfold resize_lanczos_to_box. rewrite resize_ok by lia. cbn [bind].
        set (fit := mkImage (mode pil_img) nw target_h
                      (build nw target_h (resample LANCZOS pil_img nw target_h))).
        destruct (box_tail fit target_w target_h allow_crop)
          as [out [Ho [Hsz [Hc Ht]]]];
          [unfold fit; cbn [width]; lia|unfold fit; cbn [height]; lia|].
        exists out, fit. split; [exact Ho|]. split; [exact Hsz|].
        split; [right; exists (nw, target_h); apply resize_ok; lia|].
        split; assumption.
    + apply orb_false_elim in Hd. destruct Hd as [Hd1 Hd2].
      destruct (Z.gtb_spec (width pil_img) target_w); [discriminate|].
      destruct (Z.gtb_spec (height pil_img) target_h); [discriminate|].
      cbn [bind].
      destruct (box_tail pil_img target_w target_h allow_crop ltac:(lia) ltac:(lia))
        as [out [Ho [Hsz [Hc Ht]]]].
      exists out, pil_img. split; [exact Ho|]. split; [exact Hsz|].
      split; [left; reflexivity|]. split; assumption.
Qed.

Lemma float_of_int_pos z : 1 <= z -> (0 < Py.float_of_int z)%Q.
Proof.
  intros Hz. unfold Py.float_of_int, Py.binary64.
  apply fl_pos; [lia|]. apply inject_Z_pos. lia.
Qed.

Lemma fdiv_pos x y : (0 < x)%Q -> (0 < y)%Q -> exists q, Py.fdiv x y = Ok q /\ (0 < q)%Q.
Proof.
  intros Hx Hy. unfold Py.fdiv.
  destruct (Qeq_bool y 0) eqn:E.
  - apply Qeq_bool_iff in E. lra.
  - eexists. split; [reflexivity|]. unfold Py.binary64. apply fl_pos; [lia|].
    apply Qlt_shift_div_l; [exact Hy|]. lra.
Qed.

(** The saliency box is computed without error on any non-empty image. *)
Lemma bbox_from_saliency_ok pil_img :
  1 <= width pil_img -> 1 <= height pil_img ->
  exists bbox, bbox_from_saliency pil_img = Ok bbox.
Proof.
  intros Hw Hh. unfold bbox_from_saliency.
  assert (H256 : (0 < Py.lit 256)%Q) by (vm_compute; reflexivity).
  assert (H1 : (0 < Py.lit 1)%Q) by (vm_compute; reflexivity).
  destruct (fdiv_pos (Py.lit 256)
              (Py.float_of_int (Z.max (height pil_img) (width pil_img)))
              H256 (float_of_int_pos (Z.max (height pil_img) (width pil_img)) ltac:(lia)))
    as [scale [Hs Hpos]].
  rewrite Hs. cbn [bind].
  destruct (cv2_saliency_rect pil_img) as [[[[x y] ww] hh]|].
  - destruct (fdiv_pos (Py.lit 1) scale H1 Hpos) as [inv [Hi _]].
    rewrite Hi. cbn [bind]. eexists. reflexivity.
  - eexists. reflexivity.
Qed.

(** X4. [bbox_from_saliency] returns on every non-empty image, and its
    box never leaves the image; without an estimate it is the whole image.
    On an image without pixels it divides by zero. *)
Lemma bbox_from_saliency_inside pil_img :
  (1 <= width pil_img -> 1 <= height pil_img ->
   exists x0 y0 x1 y1, bbox_from_saliency pil_img = Ok (x0, y0, x1, y1) /\
     0 <= x0 /\ 0 <= y0 /\ x1 <= width pil_img - 1 /\ y1 <= height pil_img - 1 /\
     (cv2_saliency_rect pil_img = None ->
      (x0, y0, x1, y1) = (0, 0, width pil_img - 1, height pil_img - 1))) /\
  (width pil_img = 0 -> height pil_img = 0 ->
   bbox_from_saliency pil_img = Raise (ZeroDivisionError "float division by zero")).
Proof.
  split.
  - intros Hw Hh. unfold bbox_from_saliency.
    assert (H256 : (0 < Py.lit 256)%Q) by (vm_compute; reflexivity).
    assert (H1 : (0 < Py.lit 1)%Q) by (vm_compute; reflexivity).
    destruct (fdiv_pos (Py.lit 256)
                (Py.float_of_int (Z.max (height pil_img) (width pil_img)))
                H256 (float_of_int_pos (Z.max (height pil_img) (width pil_img))
                        ltac:(lia)))
      as [scale [Hs Hpos]].
    rewrite Hs. cbn [bind].
    destruct (cv2_saliency_rect pil_img) as [[[[x y] ww] hh]|].
    + destruct (fdiv_pos (Py.lit 1) scale H1 Hpos) as [inv [Hi _]].
      rewrite Hi. cbn [bind]. eexists. eexists. eexists. eexists.
      split; [reflexivity|]. split; [lia|]. split; [lia|]. split; [lia|].
      split; [lia|discriminate].
    + exists 0, 0, (width pil_img - 1), (height pil_img - 1).
      split; [reflexivity|]. split; [lia|]. split; [lia|]. split; [lia|].
      split; [lia|reflexivity].
  - intros Hw Hh. unfold bbox_from_saliency. rewrite Hw, Hh. reflexivity.
Qed.

Lemma square_tail fit side (use_saliency allow_crop : bool) :
  1 <= width fit <= side -> 1 <= height fit <= side ->
  exists out,
    (if negb allow_crop then pad_to_square fit side false "telea"
     else if (width fit >=? side) && (height fit >=? side) then
       cxy <-
         (if use_saliency then
            bbox <- bbox_from_saliency fit ;;
            let '(b0, b1, b2, b3) := bbox in
            Ok ((b0 + b2) / 2, (b1 + b3) / 2)
          else Ok (width fit / 2, height fit / 2)) ;;
       let '(cx, cy) := cxy in
       let x0 := Z.max 0 (Z.min (width fit - side) (cx - side / 2)) in
       let y0 := Z.max 0 (Z.min (height fit - side) (cy - side / 2)) in
       crop fit (x0, y0, x0 + side, y0 + side)
     else pad_to_square fit side false "telea") = Ok out /\
    size out = (side, side) /\
    centred_in out fit side side /\ transparent_around out fit side side.
Proof.
  intros Hw Hh.
  destruct (negb allow_crop);
    [apply pad_to_square_centred; lia|].
  destruct (Z.geb_spec (width fit) side) as [Hgw|Hlw];
    [|apply pad_to_square_centred; lia].
  destruct (Z.geb_spec (height fit) side) as [Hgh|Hlh];
    [|apply pad_to_square_centred; lia].
  cbn [andb].
  assert (Ew : width fit = side) by lia. assert (Eh : height fit = side) by lia.
  assert (Hc : exists cx cy,
             (if use_saliency then
                bbox <- bbox_from_saliency fit ;;
                let '(b0, b1, b2, b3) := bbox in
                Ok ((b0 + b2) / 2, (b1 + b3) / 2)
              else Ok (width fit / 2, height fit / 2)) = Ok (cx, cy)).
  { destruct use_saliency; [|eexists; eexists; reflexivity].
    destruct (bbox_from_saliency_ok fit ltac:(lia) ltac:(lia))
      as [[[[b0 b1] b2] b3] Hb].
    rewrite Hb. cbn [bind]. eexists. eexists. reflexivity. }
  destruct Hc as [cx [cy Hc]]. rewrite Hc. cbn [bind]. cbv zeta.
  rewrite Ew, Eh, !Z.sub_diag.
  replace (Z.max 0 (Z.min 0 (cx - side / 2))) with 0 by lia.
  replace (Z.max 0 (Z.min 0 (cy - side / 2))) with 0 by lia.
  apply crop_whole_centred; lia.
Qed.

(** X5. [smart_square] returns a square of the requested side that shows
    the whole fitted image whatever [use_saliency] and [allow_crop] are:
    after [resize_lanczos_fit_long] neither side exceeds [side], so the crop
    branch is reached only by an image that is already [side] x [side]. *)
Lemma smart_square_never_crops pil_img side use_saliency allow_crop :
  valid_dim (width pil_img) -> valid_dim (height pil_img) -> 1 <= side ->
  exists out fit, smart_square pil_img side use_saliency allow_crop = Ok out /\
    size out = (side, side) /\ fitted_from fit pil_img /\
    centred_in out fit side side /\ transparent_around out fit side side.
Proof.
  intros Hw Hh Hs. unfold smart_square, size.
  destruct ((width pil_img =? side) && (height pil_img =? side)) eqn:E.
  - apply andb_prop in E. destruct E as [E1 E2].
    apply Z.eqb_eq in E1. apply Z.eqb_eq in E2.
    destruct (pad_to_square_centred pil_img side "telea" ltac:(lia) ltac:(lia))
      as [out [Ho [Hsz [Hc Ht]]]].
    rewrite (pad_to_square_same pil_img side false "telea" E1 E2) in Ho.
    injection Ho as <-.
    exists pil_img, pil_img. split; [reflexivity|]. split; [exact Hsz|].
    split; [left; reflexivity|]. split; assumption.
  - unfold valid_dim in Hw, Hh.
    destruct (aspect_delta_ok (width pil_img) (height pil_img) ltac:(lia) ltac:(lia))
      as [d Hd].
    rewrite Hd. cbn [bind].
    destruct (fit_long_fits pil_img side Hw Hh Hs) as [fit [Hfit [Hfrom [Hfw Hfh]]]].
    destruct (Py.flt d (Py.lit (1 # 10))).
    + destruct (Z.gtb_spec (Z.max (width pil_img) (height pil_img)) side) as [Hgt|Hle].
      * rewrite Hfit. cbn [bind].
        destruct (pad_to_square_centred fit side "telea" ltac:(lia) ltac:(lia))
          as [out [Ho [Hsz [Hc Ht]]]].
        exists out, fit. split; [exact Ho|]. split; [exact Hsz|].
        split; [exact Hfrom|]. split; assumption.
      * destruct (pad_to_square_centred pil_img side "telea" ltac:(lia) ltac:(lia))
          as [out [Ho [Hsz [Hc Ht]]]].
        exists out, pil_img. split; [exact Ho|]. split; [exact Hsz|].
        split; [left; reflexivity|]. split; assumption.
    + rewrite Hfit. cbn [bind].
      destruct (square_tail fit side use_saliency allow_crop Hfw Hfh)
        as [out [Ho [Hsz [Hc Ht]]]].
      exists out, fit. split; [exact Ho|]. split; [exact Hsz|].
      split; [exact Hfrom|]. split; assumption.
Qed.

(** [smart_square] on an image that fits the square. *)
Lemma smart_square_pad_only pil_img side use_saliency allow_crop :
  1 <= width pil_img <= side -> 1 <= height pil_img <= side ->
  exists out, smart_square pil_img side use_saliency allow_crop = Ok out /\
    size out = (side, side) /\
    centred_in out pil_img side side /\ transparent_around out pil_img side side.
Proof.
  intros Hw Hh. unfold smart_square, size.
  destruct ((width pil_img =? side) && (height pil_img =? side)) eqn:E.
  - apply andb_prop in E. destruct E as [E1 E2].
    apply Z.eqb_eq in E1. apply Z.eqb_eq in E2.
    destruct (pad_to_square_centred pil_img side "telea" ltac:(lia) ltac:(lia))
      as [out [Ho H]].
    rewrite (pad_to_square_same pil_img side false "telea" E1 E2) in Ho.
    injection Ho as <-. exists pil_img. split; [reflexivity|exact H].
  - destruct (aspect_delta_ok (width pil_img) (height pil_img) ltac:(lia) ltac:(lia))
      as [d Hd].
    rewrite Hd. cbn [bind].
    destruct (Py.flt d (Py.lit (1 # 10))).
    + destruct (Z.gtb_spec (Z.max (width pil_img) (height pil_img)) side); [lia|].
      apply pad_to_square_centred; lia.
    + rewrite fit_long_identity by lia. cbn [bind].
      apply square_tail; lia.
Qed.

(** X6. An image that already fits is never enlarged: [smart_square] and
    [fit_to_size] return the image itself, unresampled, centred on the
    transparent canvas, whatever the flags. *)
Lemma fitting_never_upscales pil_img :
  1 <= width pil_img -> 1 <= height pil_img ->
  (forall side use_saliency allow_crop,
     width pil_img <= side -> height pil_img <= side ->
     exists out, smart_square pil_img side use_saliency allow_crop = Ok out /\
       size out = (side, side) /\
       centred_in out pil_img side side /\ transparent_around out pil_img side side) /\
  (forall target_w target_h allow_crop,
     width pil_img <= target_w -> height pil_img <= target_h ->
     exists out, fit_to_size pil_img target_w target_h allow_crop = Ok out /\
       size out = (target_w, target_h) /\
       centred_in out pil_img target_w target_h /\
       transparent_around out pil_img target_w target_h).
Proof.
  intros Hw Hh. split.
  - intros side use_saliency allow_crop Hws Hhs.
    apply smart_square_pad_only; lia.
  - intros target_w target_h allow_crop Hwt Hht. unfold fit_to_size, size.
    destruct ((width pil_img =? target_w) && (height pil_img =? target_h)) eqn:E.
    + apply andb_prop in E. destruct E as [E1 E2].
      apply Z.eqb_eq in E1. apply Z.eqb_eq in E2.
      exists pil_img. split; [reflexivity|].
      split; [rewrite E1, E2; reflexivity|]. rewrite <- E1, <- E2. split.
      * split; [lia|]. split; [lia|]. intros x y Hx Hy.
        rewrite !Z.sub_diag. change (0 / 2) with 0.
        rewrite !Z.add_0_l, convert_same. reflexivity.
      * intros i j Hi Hj Hout. exfalso. apply Hout.
        rewrite !Z.sub_diag. change (0 / 2) with 0. lia.
    + destruct (Z.gtb_spec (height pil_img) 0); [|lia].
      destruct (Z.gtb_spec target_h 0); [|lia].
      destruct (truediv_bounds (width pil_img) (height pil_img) ltac:(lia) ltac:(lia))
        as [qa [Hqa _]].
      destruct (truediv_bounds target_w target_h ltac:(lia) ltac:(lia))
        as [qt [Hqt _]].
      rewrite Hqa, Hqt. cbn [bind].
      destruct (Z.gtb_spec (width pil_img) target_w); [lia|].
      destruct (Z.gtb_spec (height pil_img) target_h); [lia|].
      cbn [orb bind]. apply box_tail; lia.
Qed.

(** X7. The square pixel-art path on a source that fits the target:
    nearest-neighbour scaling by the integer factor succeeds, gives an image
    of [sf] times the source size, and [smart_square] then only pads it, so
    the output shows the integer-scaled image itself, centred. *)
Lemma pixel_art_square_integer_scaled pil_img target :
  1 <= width pil_img <= target -> 1 <= height pil_img <= target ->
  let sf := choose_integer_scale (size pil_img) target in
  exists scaled out,
    resize_nearest pil_img sf = Ok scaled /\
    size scaled = (width pil_img * sf, height pil_img * sf) /\
    smart_square scaled target false false = Ok out /\
    size out = (target, target) /\
    centred_in out scaled target target /\
    transparent_around out scaled target target.
Proof.
  intros Hw Hh sf.
  pose proof (choose_integer_scale_ge_1 (size pil_img) target) as H1.
  destruct (choose_integer_scale_fits (width pil_img) (height pil_img) target Hw Hh)
    as [Hws Hhs].
  fold (size pil_img) in Hws, Hhs. fold sf in H1, Hws, Hhs.
  set (scaled := mkImage (mode pil_img) (width pil_img * sf) (height pil_img * sf)
                   (build (width pil_img * sf) (height pil_img * sf)
                      (resample NEAREST pil_img (width pil_img * sf)
                         (height pil_img * sf)))).
  destruct (smart_square_pad_only scaled target false false)
    as [out [Ho [Hsz [Hc Ht]]]]; [cbn [scaled width]; nia|cbn [scaled height]; nia|].
  exists scaled, out.
  split; [unfold resize_nearest; apply resize_ok; nia|].
  split; [reflexivity|]. split; [exact Ho|]. split; [exact Hsz|].
  split; assumption.
Qed.

End SquareAndBox.

(** ** pad_crop.py: a target without area *)

Section ZeroTarget.
Context {imaging : Imaging}.
Import ImageFacts ScaleFacts FloatError FloatExact FloatOrder.

Lemma truediv_zero d : d <> 0 -> Py.truediv 0 d = Ok 0%Q.
Proof.
  intros Hd. unfold Py.truediv.
  destruct (Z.eqb_spec d 0) as [?|_]; [contradiction|].
  rewrite fl_zero; [reflexivity|]. unfold Qdiv. change (inject_Z 0) with 0%Q. ring.
Qed.

Lemma fmul_zero x : Py.fmul x 0%Q = 0%Q.
Proof. unfold Py.fmul. apply fl_zero. ring. Qed.

Lemma scaled_by_zero a : Z.max 1 (Py.int (Py.fmul (Py.float_of_int a) 0%Q)) = 1.
Proof. rewrite fmul_zero. reflexivity. Qed.

Lemma int_scaled_by_zero a : Py.int (Py.fmul (Py.float_of_int a) 0%Q) = 0.
Proof. rewrite fmul_zero. reflexivity. Qed.

(** With a target side of zero the image is scaled to a side of zero pixels,
    which [resize] refuses. *)
Lemma fit_to_size_zero pil_img target_w target_h allow_crop :
  1 <= width pil_img -> 1 <= height pil_img ->
  0 <= target_w -> 0 <= target_h -> target_w = 0 \/ target_h = 0 ->
  fit_to_size pil_img target_w target_h allow_crop
  = Raise (ValueError "height and width must be > 0").
Proof.
  intros Hw Hh Htw Hth Hz. unfold fit_to_size, size.
  assert (E : (width pil_img =? target_w) && (height pil_img =? target_h) = false).
  { destruct (Z.eqb_spec (width pil_img) target_w);
      destruct (Z.eqb_spec (height pil_img) target_h); try reflexivity. lia. }
  rewrite E. clear E.
  destruct (Z.gtb_spec (height pil_img) 0); [|lia].
  destruct (truediv_bounds (width pil_img) (height pil_img) ltac:(lia) ltac:(lia))
    as [qa [Hqa [Hqa0 _]]].
  rewrite Hqa. cbn [bind].
  assert (Hdown : (width pil_img >? target_w) || (height pil_img >? target_h) = true).
  { destruct (Z.gtb_spec (width pil_img) target_w);
      destruct (Z.gtb_spec (height pil_img) target_h); try reflexivity. lia. }
  destruct (Z.gtb_spec target_h 0) as [Hpos|Hzero].
  - assert (target_w = 0) by lia. subst target_w.
    rewrite (truediv_zero target_h) by lia. cbn [bind]. rewrite Hdown.
    assert (Hfle : Py.fle 0%Q qa = true).
    { unfold Py.fle. apply Qle_bool_iff. lra. }
    rewrite Hfle, (truediv_zero (width pil_img)) by lia. cbn [bind].
    rewrite scaled_by_zero. change (0 >? 0) with false. cbn [bind].
    destruct (Z.gtb_spec 1 target_h); [lia|]. reflexivity.
  - assert (target_h = 0) by lia. subst target_h.
    cbn [bind]. rewrite Hdown.
    destruct (Py.fle (Py.lit 1) qa).
    + destruct (Z.eq_dec target_w 0) as [->|Hne].
      * rewrite (truediv_zero (width pil_img)) by lia. cbn [bind].
        rewrite scaled_by_zero. reflexivity.
      * destruct (truediv_bounds target_w (width pil_img) ltac:(lia) ltac:(lia))
          as [s [Hs _]].
        rewrite Hs. cbn [bind].
        set (nh := Z.max 1 (Py.int (Py.fmul (Py.float_of_int (height pil_img)) s))).
        destruct (Z.gtb_spec target_w target_w); [lia|]. cbn [bind].
        destruct (Z.gtb_spec nh 0); [|lia].
        rewrite (truediv_zero nh) by lia. cbn [bind].
        rewrite int_scaled_by_zero. reflexivity.
    + rewrite (truediv_zero (height pil_img)) by lia. cbn [bind].
      rewrite scaled_by_zero.
      destruct (Z.gtb_spec 1 target_w).
      * assert (target_w = 0) by lia. subst target_w. reflexivity.
      * reflexivity.
Qed.
Lemma fit_long_zero pil_img :
  1 <= width pil_img -> 1 <= height pil_img ->
  resize_lanczos_fit_long pil_img 0
  = Raise (ValueError "height and width must be > 0").
Proof.
  intros Hw Hh. unfold resize_lanczos_fit_long, size.
  destruct (Z.leb_spec (Z.max (width pil_img) (height pil_img)) 0); [lia|].
  destruct (width pil_img >=? height pil_img).
  - rewrite (truediv_zero (width pil_img)) by lia. cbn [bind].
    rewrite scaled_by_zero. reflexivity.
  - rewrite (truediv_zero (height pil_img)) by lia. cbn [bind].
    rewrite scaled_by_zero. reflexivity.
Qed.

(** X8. A target without area is refused: [fit_to_size] with a target width
    or height of zero and [smart_square] with side zero scale the image to a
    side of zero pixels, and [resize] raises. *)
Lemma fit_to_size_zero_target pil_img :
  1 <= width pil_img -> 1 <= height pil_img ->
  (forall target_w target_h allow_crop,
     0 <= target_w -> 0 <= target_h -> target_w = 0 \/ target_h = 0 ->
     fit_to_size pil_img target_w target_h allow_crop
     = Raise (ValueError "height and width must be > 0")) /\
  (forall use_saliency allow_crop,
     smart_square pil_img 0 use_saliency allow_crop
     = Raise (ValueError "height and width must be > 0")).
Proof.
  intros Hw Hh. split.
  - intros target_w target_h allow_crop Htw Hth Hz.
    apply fit_to_size_zero; assumption.
  - intros use_saliency allow_crop. unfold smart_square, size.
    destruct (Z.eqb_spec (width pil_img) 0); [lia|]. cbn [andb].
    destruct (aspect_delta_ok (width pil_img) (height pil_img) Hw Hh) as [d Hd].
    rewrite Hd. cbn [bind]. rewrite (fit_long_zero pil_img Hw Hh).
    destruct (Py.flt d (Py.lit (1 # 10))); [|reflexivity].
    destruct (Z.gtb_spec (Z.max (width pil_img) (height pil_img)) 0); [|lia].
    reflexivity.
Qed.

End ZeroTarget.

(** ** detect.py: the alpha bounding box and the trim *)

Section AlphaBox.
Context {imaging : Imaging}.
Import ImageFacts UnpremultiplyFacts.

Lemma In_zrange_inv n i : In i (zrange n) -> 0 <= i < n.
Proof.
  unfold zrange. intros H. apply in_map_iff in H. destruct H as [k [<- Hk]].
  apply in_seq in Hk. lia.
Qed.

Lemma alpha_mask_coords_In pil_img t x y :
  In (x, y) (alpha_mask_coords pil_img t) <->
  0 <= x < width pil_img /\ 0 <= y < height pil_img /\ t < alpha_at pil_img x y.
Proof.
  unfold alpha_mask_coords, alpha_at. rewrite in_flat_map. split.
  - intros [y' [Hy H]]. apply in_flat_map in H. destruct H as [x' [Hx H]].
    apply In_zrange_inv in Hy. apply In_zrange_inv in Hx.
    destruct (Z.gtb_spec (nth 3 (getpixel pil_img x' y') 0) t) as [Hgt|_];
      [|contradiction].
    destruct H as [H|[]]. injection H as <- <-. repeat split; lia.
  - intros [Hx [Hy Ha]]. exists y. split; [apply In_zrange; exact Hy|].
    apply in_flat_map. exists x. split; [apply In_zrange; exact Hx|].
    destruct (Z.gtb_spec (nth 3 (getpixel pil_img x y) 0) t); [|lia].
    left. reflexivity.
Qed.

Lemma list_min_spec l : forall d,
  list_min d l <= d /\ (forall v, In v l -> list_min d l <= v) /\
  (list_min d l = d \/ In (list_min d l) l).
Proof.
  unfold list_min. induction l as [|a l IH]; intros d; cbn [fold_left].
  - split; [lia|]. split; [intros v []|left; reflexivity].
  - destruct (IH (Z.min d a)) as [H1 [H2 H3]]. split; [lia|]. split.
    + intros v [<-|Hv]; [lia|apply H2; exact Hv].
    + destruct H3 as [H3|H3]; [|right; right; exact H3].
      rewrite H3. destruct (Z.min_spec d a) as [[_ ->]|[_ ->]];
        [left; reflexivity|right; left; reflexivity].
Qed.

Lemma list_max_spec l : forall d,
  d <= list_max d l /\ (forall v, In v l -> v <= list_max d l) /\
  (list_max d l = d \/ In (list_max d l) l).
Proof.
  unfold list_max. induction l as [|a l IH]; intros d; cbn [fold_left].
  - split; [lia|]. split; [intros v []|left; reflexivity].
  - destruct (IH (Z.max d a)) as [H1 [H2 H3]]. split; [lia|]. split.
    + intros v [<-|Hv]; [lia|apply H2; exact Hv].
    + destruct H3 as [H3|H3]; [|right; right; exact H3].
      rewrite H3. destruct (Z.max_spec d a) as [[_ ->]|[_ ->]];
        [right; left; reflexivity|left; reflexivity].
Qed.

(** Without a box no pixel is above the threshold. *)
Lemma bbox_from_alpha_none pil_img t :
  mode pil_img = "RGBA"%string -> bbox_from_alpha pil_img t = None ->
  forall x y, 0 <= x < width pil_img -> 0 <= y < height pil_img ->
    alpha_at pil_img x y <= t.
Proof.
  intros Hm Hn x y Hx Hy. unfold bbox_from_alpha in Hn.
  rewrite Hm, String.eqb_refl in Hn. cbn [negb] in Hn.
  pose proof (alpha_mask_coords_In pil_img t x y) as Hin.
  destruct (alpha_mask_coords pil_img t) as [|[x' y'] rest]; [|discriminate].
  destruct (Z_le_gt_dec (alpha_at pil_img x y) t) as [Hle|Hgt]; [exact Hle|].
  exfalso. apply (proj2 Hin). repeat split; lia.
Qed.

(** The box of [bbox_from_alpha] is the tight box of the pixels above the
    threshold. *)
Lemma bbox_from_alpha_tight pil_img t x0 y0 x1 y1 :
  bbox_from_alpha pil_img t = Some (x0, y0, x1, y1) ->
  0 <= x0 <= x1 /\ x1 < width pil_img /\ 0 <= y0 <= y1 /\ y1 < height pil_img /\
  (forall x y, 0 <= x < width pil_img -> 0 <= y < height pil_img ->
     t < alpha_at pil_img x y -> x0 <= x <= x1 /\ y0 <= y <= y1) /\
  (exists y, 0 <= y < height pil_img /\ t < alpha_at pil_img x0 y) /\
  (exists y, 0 <= y < height pil_img /\ t < alpha_at pil_img x1 y) /\
  (exists x, 0 <= x < width pil_img /\ t < alpha_at pil_img x y0) /\
  (exists x, 0 <= x < width pil_img /\ t < alpha_at pil_img x y1).
Proof.
  unfold bbox_from_alpha.
  destruct (negb (String.eqb (mode pil_img) "RGBA")); [discriminate|].
  pose proof (alpha_mask_coords_In pil_img t) as Hin.
  destruct (alpha_mask_coords pil_img t) as [|[x y] rest]; [discriminate|].
  intros H. injection H as <- <- <- <-.
  assert (Hmem : forall x' y', In (x', y') ((x, y) :: rest) ->
            x' = x \/ In x' (map fst rest)).
  { intros x' y' [H|H]; [injection H as <- <-; left; reflexivity|].
    right. apply in_map_iff. exists (x', y'). split; [reflexivity|exact H]. }
  assert (Hmem' : forall x' y', In (x', y') ((x, y) :: rest) ->
            y' = y \/ In y' (map snd rest)).
  { intros x' y' [H|H]; [injection H as <- <-; left; reflexivity|].
    right. apply in_map_iff. exists (x', y'). split; [reflexivity|exact H]. }
  assert (Hxs : forall v, v = x \/ In v (map fst rest) ->
            exists y', In (v, y') ((x, y) :: rest)).
  { intros v [->|H]; [exists y; left; reflexivity|].
    apply in_map_iff in H. destruct H as [[a b] [<- H]].
    exists b. right. exact H. }
  assert (Hys : forall v, v = y \/ In v (map snd rest) ->
            exists x', In (x', v) ((x, y) :: rest)).
  { intros v [->|H]; [exists x; left; reflexivity|].
    apply in_map_iff in H. destruct H as [[a b] [<- H]].
    exists a. right. exact H. }
  destruct (list_min_spec (map fst rest) x) as [Hx1 [Hx2 Hx3]].
  destruct (list_max_spec (map fst rest) x) as [Hx4 [Hx5 Hx6]].
  destruct (list_min_spec (map snd rest) y) as [Hy1 [Hy2 Hy3]].
  destruct (list_max_spec (map snd rest) y) as [Hy4 [Hy5 Hy6]].
  set (x0 := list_min x (map fst rest)) in *.
  set (x1 := list_max x (map fst rest)) in *.
  set (y0 := list_min y (map snd rest)) in *.
  set (y1 := list_max y (map snd rest)) in *.
  destruct (Hxs x0 Hx3) as [ya Ha]. apply Hin in Ha.
  destruct (Hxs x1 Hx6) as [yb Hb]. apply Hin in Hb.
  destruct (Hys y0 Hy3) as [xa Hc]. apply Hin in Hc.
  destruct (Hys y1 Hy6) as [xb Hd]. apply Hin in Hd.
  split; [lia|]. split; [lia|]. split; [lia|]. split; [lia|]. split.
  - intros x' y' Hx' Hy' Ht.
    assert (Hi : In (x', y') ((x, y) :: rest))
      by (apply Hin; repeat split; lia).
    destruct (Hmem _ _ Hi) as [->|Hi1]; destruct (Hmem' _ _ Hi) as [->|Hi2].
    + lia.
    + specialize (Hy2 _ Hi2). specialize (Hy5 _ Hi2). lia.
    + specialize (Hx2 _ Hi1). specialize (Hx5 _ Hi1). lia.
    + specialize (Hx2 _ Hi1). specialize (Hx5 _ Hi1).
      specialize (Hy2 _ Hi2). specialize (Hy5 _ Hi2). lia.
  - split; [exists ya; split; [lia|apply Ha]|].
    split; [exists yb; split; [lia|apply Hb]|].
    split; [exists xa; split; [lia|apply Hc]|].
    exists xb. split; [lia|apply Hd].
Qed.

(** X9. On an RGBA image [bbox_from_alpha] returns [None] exactly when no
    pixel has an alpha above the threshold.  A box it returns lies inside
    the image, contains every pixel above the threshold, and is tight: each
    of its four edges passes through such a pixel. *)
Lemma bbox_from_alpha_spec pil_img t :
  mode pil_img = "RGBA"%string ->
  (bbox_from_alpha pil_img t = None <->
   forall x y, 0 <= x < width pil_img -> 0 <= y < height pil_img ->
     alpha_at pil_img x y <= t) /\
  forall x0 y0 x1 y1, bbox_from_alpha pil_img t = Some (x0, y0, x1, y1) ->
    0 <= x0 <= x1 /\ x1 < width pil_img /\ 0 <= y0 <= y1 /\ y1 < height pil_img /\
    (forall x y, 0 <= x < width pil_img -> 0 <= y < height pil_img ->
       t < alpha_at pil_img x y -> x0 <= x <= x1 /\ y0 <= y <= y1) /\
    (exists y, 0 <= y < height pil_img /\ t < alpha_at pil_img x0 y) /\
    (exists y, 0 <= y < height pil_img /\ t < alpha_at pil_img x1 y) /\
    (exists x, 0 <= x < width pil_img /\ t < alpha_at pil_img x y0) /\
    (exists x, 0 <= x < width pil_img /\ t < alpha_at pil_img x y1).
Proof.
  intros Hm. split.
  - split; [apply bbox_from_alpha_none; exact Hm|]. intros Hall.
    destruct (bbox_from_alpha pil_img t) as [[[[x0 y0] x1] y1]|] eqn:Hb;
      [exfalso|reflexivity].
    destruct (bbox_from_alpha_tight pil_img t x0 y0 x1 y1 Hb)
      as [Hx [_ [_ [_ [_ [[y [Hy Ha]] _]]]]]].
    destruct (bbox_from_alpha_tight pil_img t x0 y0 x1 y1 Hb)
      as [_ [Hx1 _]].
    specialize (Hall x0 y ltac:(lia) Hy). lia.
  - intros x0 y0 x1 y1. apply bbox_from_alpha_tight.
Qed.

(** [crop_to_bbox] cuts out the region between the clamped corners. *)
Lemma crop_to_bbox_inside pil_img x0 y0 x1 y1 margin :
  0 <= margin ->
  0 <= x0 <= x1 -> x1 < width pil_img -> 0 <= y0 <= y1 -> y1 < height pil_img ->
  let cx0 := Z.max 0 (x0 - margin) in
  let cy0 := Z.max 0 (y0 - margin) in
  let cx1 := Z.min (width pil_img - 1) (x1 + margin) in
  let cy1 := Z.min (height pil_img - 1) (y1 + margin) in
  exists out, crop_to_bbox pil_img (x0, y0, x1, y1) margin = Ok out /\
    mode out = mode pil_img /\
    size out = (cx1 - cx0 + 1, cy1 - cy0 + 1) /\
    x1 - x0 + 1 <= width out <= width pil_img /\
    y1 - y0 + 1 <= height out <= height pil_img /\
    forall x y, cx0 <= x <= cx1 -> cy0 <= y <= cy1 ->
      getpixel out (x - cx0) (y - cy0) = getpixel pil_img x y.
Proof.
  intros Hm Hx Hx1 Hy Hy1 cx0 cy0 cx1 cy1.
  unfold crop_to_bbox, crop. fold cx0 cy0 cx1 cy1.
  assert (Hcx : 0 <= cx0 <= x0 /\ x1 <= cx1 < width pil_img) by (unfold cx0, cx1; lia).
  assert (Hcy : 0 <= cy0 <= y0 /\ y1 <= cy1 < height pil_img) by (unfold cy0, cy1; lia).
  clearbody cx0 cy0 cx1 cy1.
  destruct (Z.ltb_spec (cx1 + 1) cx0); [lia|].
  destruct (Z.ltb_spec (cy1 + 1) cy0); [lia|].
  eexists. split; [reflexivity|]. unfold size. cbn [mode width height].
  split; [reflexivity|]. split; [f_equal; lia|]. split; [lia|]. split; [lia|].
  intros x y Hxx Hyy. rewrite getpixel_build by lia.
  replace (cx0 + (x - cx0)) with x by lia. replace (cy0 + (y - cy0)) with y by lia.
  assert (Hb : in_bounds pil_img x y = true).
  { unfold in_bounds.
    destruct (Z.leb_spec 0 x); [|lia]. destruct (Z.ltb_spec x (width pil_img)); [|lia].
    destruct (Z.leb_spec 0 y); [|lia]. destruct (Z.ltb_spec y (height pil_img)); [|lia].
    reflexivity. }
  rewrite Hb. reflexivity.
Qed.

(** X10. [crop_to_bbox] on a box inside the image: the result is the part
    of the image between the clamped corners, pixel for pixel; it contains
    the box, is never larger than the image, and nothing is padded.  A box
    that starts more than [margin] pixels beyond the right edge is refused. *)
Lemma crop_to_bbox_spec pil_img x0 y0 x1 y1 margin :
  0 <= margin ->
  (0 <= x0 <= x1 -> x1 < width pil_img -> 0 <= y0 <= y1 -> y1 < height pil_img ->
   let cx0 := Z.max 0 (x0 - margin) in
   let cy0 := Z.max 0 (y0 - margin) in
   let cx1 := Z.min (width pil_img - 1) (x1 + margin) in
   let cy1 := Z.min (height pil_img - 1) (y1 + margin) in
   exists out, crop_to_bbox pil_img (x0, y0, x1, y1) margin = Ok out /\
     mode out = mode pil_img /\
     size out = (cx1 - cx0 + 1, cy1 - cy0 + 1) /\
     x1 - x0 + 1 <= width out <= width pil_img /\
     y1 - y0 + 1 <= height out <= height pil_img /\
     forall x y, cx0 <= x <= cx1 -> cy0 <= y <= cy1 ->
       getpixel out (x - cx0) (y - cy0) = getpixel pil_img x y) /\
  (width pil_img + margin < x0 ->
   crop_to_bbox pil_img (x0, y0, x1, y1) margin
   = Raise (ValueError "Coordinate 'right' is less than 'left'")).
Proof.
  intros Hm. split.
  - intros Hx Hx1 Hy Hy1. apply crop_to_bbox_inside; assumption.
  - intros Hout. unfold crop_to_bbox, crop.
    destruct (Z.ltb_spec (Z.min (width pil_img - 1) (x1 + margin) + 1)
                (Z.max 0 (x0 - margin))); [reflexivity|lia].
Qed.

(** The two calls of the trim on a box of [bbox_from_alpha]. *)
Lemma trim_step pil_img t bbox min_trim_ratio margin :
  mode pil_img = "RGBA"%string -> 0 <= margin ->
  bbox_from_alpha pil_img t = Some bbox ->
  (exists b, is_alpha_bbox_meaningful pil_img bbox min_trim_ratio = Ok b) /\
  exists out, crop_to_bbox pil_img bbox margin = Ok out /\
    mode out = "RGBA"%string /\ 1 <= width out /\ 1 <= height out /\
    forall x y, 0 <= x < width pil_img -> 0 <= y < height pil_img ->
      t < alpha_at pil_img x y ->
      getpixel out (x - Z.max 0 (fst (fst (fst bbox)) - margin))
                   (y - Z.max 0 (snd (fst (fst bbox)) - margin))
      = getpixel pil_img x y.
Proof.
  intros Hmode Hm Hb. destruct bbox as [[[x0 y0] x1] y1]. cbn [fst snd].
  destruct (bbox_from_alpha_tight pil_img t x0 y0 x1 y1 Hb)
    as [Hx [Hx1 [Hy [Hy1 [Hall _]]]]].
  split.
  - unfold is_alpha_bbox_meaningful, size, Py.truediv.
    destruct (Z.eqb_spec (width pil_img * height pil_img) 0); [nia|].
    destruct (Z.eqb_spec (width pil_img) 0); [lia|].
    destruct (Z.eqb_spec (height pil_img) 0); [lia|].
    cbn [bind]. eexists. reflexivity.
  - destruct (crop_to_bbox_inside pil_img x0 y0 x1 y1 margin Hm Hx Hx1 Hy Hy1)
      as [out [Ho [Hmo [Hsz [Hw [Hh Hpix]]]]]].
    exists out. split; [exact Ho|]. split; [congruence|].
    split; [lia|]. split; [lia|].
    intros x y Hxx Hyy Ht. destruct (Hall x y Hxx Hyy Ht) as [Hbx Hby].
    apply Hpix; lia.
Qed.

Lemma bbox_from_alpha_mode pil_img t bbox :
  bbox_from_alpha pil_img t = Some bbox -> mode pil_img = "RGBA"%string.
Proof.
  unfold bbox_from_alpha.
  destruct (String.eqb_spec (mode pil_img) "RGBA") as [E|_]; [intros _; exact E|].
  discriminate.
Qed.

(** X11. The trim of [process_one] cannot fail and loses nothing visible.
    On every image it returns; when it reports no trim, the image is
    unchanged; when it reports a trim, the box is that of [bbox_from_alpha],
    the result is a non-empty RGBA image, and every pixel whose alpha is
    above the threshold 5 is still there, moved by the offset of the crop. *)
Lemma trim_keeps_visible_pixels pil :
  exists pil1 bbox trimmed,
    match bbox_from_alpha pil 5 with
    | Some bbox =>
        meaningful <- is_alpha_bbox_meaningful pil bbox (Py.lit (5 # 100)) ;;
        if meaningful
        then cropped <- crop_to_bbox pil bbox 2 ;;
             Ok (cropped, bbox, true)
        else Ok (pil, (0, 0, width pil - 1, height pil - 1), false)
    | None => Ok (pil, (0, 0, width pil - 1, height pil - 1), false)
    end = Ok (pil1, bbox, trimmed) /\
    (trimmed = false -> pil1 = pil) /\
    (trimmed = true ->
     bbox_from_alpha pil 5 = Some bbox /\ mode pil1 = "RGBA"%string /\
     1 <= width pil1 /\ 1 <= height pil1 /\
     forall x y, 0 <= x < width pil -> 0 <= y < height pil ->
       5 < alpha_at pil x y ->
       getpixel pil1 (x - Z.max 0 (fst (fst (fst bbox)) - 2))
                     (y - Z.max 0 (snd (fst (fst bbox)) - 2))
       = getpixel pil x y).
Proof.
  destruct (bbox_from_alpha pil 5) as [bbox|] eqn:Hb.
  2:{ eexists. eexists. eexists. split; [reflexivity|].
      split; [reflexivity|discriminate]. }
  destruct (trim_step pil 5 bbox (Py.lit (5 # 100)) 2
              (bbox_from_alpha_mode _ _ _ Hb) ltac:(lia) Hb)
    as [[b Hm] [out [Hc [Hmode [Hw [Hh Hpix]]]]]].
  rewrite Hm. cbn [bind]. destruct b.
  - rewrite Hc. cbn [bind]. exists out, bbox, true.
    split; [reflexivity|]. split; [discriminate|]. intros _.
    split; [reflexivity|]. split; [exact Hmode|]. split; [exact Hw|].
    split; [exact Hh|exact Hpix].
  - eexists. eexists. eexists. split; [reflexivity|].
    split; [reflexivity|discriminate].
Qed.

Lemma truediv_same n : 0 < n -> Py.truediv n n = Ok 1%Q.
Proof.
  intros Hn. unfold Py.truediv. destruct (Z.eqb_spec n 0); [lia|].
  assert (E : (inject_Z n / inject_Z n == 1)%Q).
  { field. intros H. apply (Qlt_irrefl 0). rewrite <- H at 2.
    rewrite <- (Zlt_Qlt 0). exact Hn. }
  rewrite (FloatExact.fl_comp _ _ _ E). reflexivity.
Qed.

(** X12. An RGBA image in which every pixel is above the threshold is not
    trimmed: the alpha box is the whole image, and for the whole image
    [is_alpha_bbox_meaningful] answers no, whatever the positive minimum
    trim ratio. *)
Lemma opaque_image_is_not_trimmed pil_img t min_trim_ratio :
  mode pil_img = "RGBA"%string -> 1 <= width pil_img -> 1 <= height pil_img ->
  (forall x y, 0 <= x < width pil_img -> 0 <= y < height pil_img ->
     t < alpha_at pil_img x y) ->
  (0 < min_trim_ratio)%Q ->
  bbox_from_alpha pil_img t
  = Some (0, 0, width pil_img - 1, height pil_img - 1) /\
  is_alpha_bbox_meaningful pil_img (0, 0, width pil_img - 1, height pil_img - 1)
    min_trim_ratio = Ok false.
Proof.
  intros Hm Hw Hh Hall Hr. split.
  - destruct (bbox_from_alpha pil_img t) as [[[[x0 y0] x1] y1]|] eqn:Hb.
    + destruct (bbox_from_alpha_tight pil_img t x0 y0 x1 y1 Hb)
        as [Hx [Hx1 [Hy [Hy1 [Hin _]]]]].
      pose proof (Hin 0 0 ltac:(lia) ltac:(lia) (Hall 0 0 ltac:(lia) ltac:(lia))).
      pose proof (Hin (width pil_img - 1) (height pil_img - 1) ltac:(lia) ltac:(lia)
                    (Hall (width pil_img - 1) (height pil_img - 1) ltac:(lia) ltac:(lia))).
      repeat f_equal; lia.
    + exfalso.
      pose proof (bbox_from_alpha_none pil_img t Hm Hb 0 0 ltac:(lia) ltac:(lia)).
      pose proof (Hall 0 0 ltac:(lia) ltac:(lia)). lia.
  - unfold is_alpha_bbox_meaningful, size.
    replace (width pil_img - 1 - 0 + 1) with (width pil_img) by lia.
    replace (height pil_img - 1 - 0 + 1) with (height pil_img) by lia.
    rewrite !truediv_same by nia. cbn [bind].
    assert (E0 : Py.fsub (Py.lit 1) 1%Q = 0%Q) by reflexivity.
    rewrite E0.
    assert (E1 : Py.flt 1%Q (Py.lit (95 # 100)) = false) by (vm_compute; reflexivity).
    rewrite E1.
    assert (E2 : Py.fle min_trim_ratio 0%Q = false).
    { unfold Py.fle. destruct (Qle_bool min_trim_ratio 0) eqn:E; [|reflexivity].
      apply Qle_bool_iff in E. lra. }
    rewrite E2. reflexivity.
Qed.

End AlphaBox.

(** ** alpha_fix.py and enhance.py, pixel by pixel *)

Section PixelOperations.
Context {imaging : Imaging}.
Import ImageFacts UnpremultiplyFacts Uint8Facts.
Import Float FloatFacts FloatError FloatExact FloatOrder.

Lemma unpremultiply_channel_bounds alpha c :
  0 <= alpha <= 255 -> 0 <= c <= 255 ->
  c <= unpremultiply_channel alpha c <= 255.
Proof.
  intros Ha Hc. unfold unpremultiply_channel. split; [|apply to_uint8_clip].
  apply to_uint8_clip_ge; [exact Hc|].
  pose proof (of_int_exact c ltac:(change (2 ^ 24) with 16777216; lia)) as Ec.
  destruct (Np.gt _ _); [|rewrite Ec; apply Qle_refl].
  destruct (Z.eq_dec c 0) as [->|Hne].
  { unfold Np.div. rewrite fl_zero; [apply Qle_refl|].
    change (Np.of_int 0) with 0%Q. unfold Qdiv. ring. }
  set (a := Np.clip _ _ _).
  assert (Hlo : (0 < Np.scalar (1 # 100000))%Q) by (vm_compute; reflexivity).
  assert (Hhi : (Np.scalar (1 # 100000) <= Np.scalar 1)%Q) by (vm_compute; discriminate).
  assert (H1 : Np.scalar 1 = 1%Q) by reflexivity.
  destruct (clip_bounds (Np.div (Np.of_int alpha) (Np.scalar 255))
              (Np.scalar (1 # 100000)) (Np.scalar 1) Hhi) as [Ha1 Ha2].
  fold a in Ha1, Ha2. rewrite H1 in Ha2.
  assert (Hapos : (0 < a)%Q) by lra.
  unfold Np.div, Np.binary32. apply fl_ge_Z; [lia|change (2 ^ 24) with 16777216; lia|].
  rewrite Ec. apply Qle_shift_div_l; [exact Hapos|].
  assert (Hcq : (0 < inject_Z c)%Q) by (rewrite <- (Zlt_Qlt 0); lia).
  clearbody a. clear - Hcq Ha2 Hapos. nra.
Qed.

(** X13. Unpremultiplying keeps the size and the alpha of a pixel, never
    darkens a colour channel and never leaves the range of a byte. *)
Lemma unpremultiply_rgba_brightens pil_img x y r g b a :
  mode pil_img = "RGBA"%string ->
  getpixel pil_img x y = [r; g; b; a] -> channel_values [r; g; b; a] ->
  size (unpremultiply_rgba pil_img) = size pil_img /\
  exists r' g' b',
    getpixel (unpremultiply_rgba pil_img) x y = [r'; g'; b'; a] /\
    r <= r' <= 255 /\ g <= g' <= 255 /\ b <= b' <= 255.
Proof.
  intros Hm Hp Hv.
  inversion Hv as [|? ? Hr H1]; subst. inversion H1 as [|? ? Hg H2]; subst.
  inversion H2 as [|? ? Hb H3]; subst. inversion H3 as [|? ? Ha _]; subst.
  split.
  - unfold unpremultiply_rgba. rewrite Hm, String.eqb_refl. reflexivity.
  - rewrite getpixel_unpremultiply by exact Hm. rewrite Hp.
    unfold unpremultiply_pixel. rewrite to_uint8_of_int by exact Ha.
    eexists. eexists. eexists. split; [reflexivity|].
    split; [|split]; apply unpremultiply_channel_bounds; assumption.
Qed.

Lemma in_bounds_iff img x y :
  in_bounds img x y = true <-> 0 <= x < width img /\ 0 <= y < height img.
Proof.
  unfold in_bounds.
  destruct (Z.leb_spec 0 x); destruct (Z.ltb_spec x (width img));
    destruct (Z.leb_spec 0 y); destruct (Z.ltb_spec y (height img));
    cbn [andb]; split; try discriminate; try lia; reflexivity.
Qed.

(** [dilate_alpha] is the largest alpha in the window around the pixel,
    as far as the window lies inside the image. *)
Lemma dilate_alpha_spec pil_img radius x y :
  0 <= radius -> 0 <= x < width pil_img -> 0 <= y < height pil_img ->
  let a' := dilate_alpha pil_img radius x y in
  (exists i j, x - radius <= i <= x + radius /\ y - radius <= j <= y + radius /\
     0 <= i < width pil_img /\ 0 <= j < height pil_img /\
     alpha_at pil_img i j = a') /\
  forall i j, x - radius <= i <= x + radius -> y - radius <= j <= y + radius ->
    0 <= i < width pil_img -> 0 <= j < height pil_img ->
    alpha_at pil_img i j <= a'.
Proof.
  intros Hr Hx Hy. cbn zeta. unfold dilate_alpha.
  set (window := flat_map _ _).
  assert (Hwin : forall v, In v window <->
            exists i j, x - radius <= i <= x + radius /\
              y - radius <= j <= y + radius /\
              (0 <= i < width pil_img /\ 0 <= j < height pil_img) /\
              v = alpha_at pil_img i j).
  { intros v. unfold window. rewrite in_flat_map. split.
    - intros [dj [Hdj H]]. apply in_flat_map in H. destruct H as [di [Hdi H]].
      apply In_zrange_inv in Hdj. apply In_zrange_inv in Hdi.
      destruct (in_bounds pil_img (x - radius + di) (y - radius + dj)) eqn:Hb;
        [|contradiction].
      destruct H as [<-|[]]. apply in_bounds_iff in Hb.
      exists (x - radius + di), (y - radius + dj).
      split; [lia|]. split; [lia|]. split; [exact Hb|reflexivity].
    - intros [i [j [Hi [Hj [Hb ->]]]]].
      exists (j - (y - radius)). split; [apply In_zrange; lia|].
      apply in_flat_map. exists (i - (x - radius)). split; [apply In_zrange; lia|].
      replace (x - radius + (i - (x - radius))) with i by lia.
      replace (y - radius + (j - (y - radius))) with j by lia.
      apply in_bounds_iff in Hb. rewrite Hb. left. reflexivity. }
  destruct (list_max_spec window (nth 3 (getpixel pil_img x y) 0))
    as [H1 [H2 H3]].
  split.
  - destruct H3 as [H3|H3].
    + exists x, y. split; [lia|]. split; [lia|]. split; [lia|]. split; [lia|].
      unfold alpha_at. symmetry. exact H3.
    + apply Hwin in H3. destruct H3 as [i [j [Hi [Hj [[Hbi Hbj] E]]]]].
      exists i, j. split; [exact Hi|]. split; [exact Hj|].
      split; [exact Hbi|]. split; [exact Hbj|]. symmetry. exact E.
  - intros i j Hi Hj Hbi Hbj. apply H2. apply Hwin. exists i, j.
    split; [exact Hi|]. split; [exact Hj|]. split; [split; assumption|reflexivity].
Qed.

(** X14. [defringe_alpha] on an RGBA image keeps the size and the colour of
    every pixel and replaces its alpha by the largest alpha within [radius]
    pixels; so no alpha decreases, and radius 0 changes nothing.  A negative
    radius is refused. *)
Lemma defringe_alpha_dilates pil_img radius :
  mode pil_img = "RGBA"%string ->
  (radius < 0 -> exists msg, defringe_alpha pil_img radius = Raise (ValueError msg)) /\
  (0 <= radius ->
   exists out, defringe_alpha pil_img radius = Ok out /\
     mode out = "RGBA"%string /\ size out = size pil_img /\
     forall x y r g b a,
       0 <= x < width pil_img -> 0 <= y < height pil_img ->
       getpixel pil_img x y = [r; g; b; a] ->
       exists a', getpixel out x y = [r; g; b; a'] /\ a <= a' /\
         (radius = 0 -> a' = a) /\
         (exists i j, x - radius <= i <= x + radius /\ y - radius <= j <= y + radius /\
            0 <= i < width pil_img /\ 0 <= j < height pil_img /\
            alpha_at pil_img i j = a') /\
         forall i j, x - radius <= i <= x + radius -> y - radius <= j <= y + radius ->
           0 <= i < width pil_img -> 0 <= j < height pil_img ->
           alpha_at pil_img i j <= a').
Proof.
  intros Hm. unfold defringe_alpha. rewrite Hm, String.eqb_refl. cbn [negb]. split.
  - intros Hr. destruct (Z.ltb_spec (radius * 2 + 1) 0); [|lia].
    eexists. reflexivity.
  - intros Hr. destruct (Z.ltb_spec (radius * 2 + 1) 0); [lia|].
    eexists. split; [reflexivity|]. split; [reflexivity|]. split; [reflexivity|].
    intros x y r g b a Hx Hy Hp. rewrite getpixel_build by assumption.
    rewrite Hp. cbn [set_alpha].
    destruct (dilate_alpha_spec pil_img radius x y Hr Hx Hy) as [Hex Hall].
    cbn zeta in Hex, Hall.
    set (a' := dilate_alpha pil_img radius x y) in *.
    assert (Ea : alpha_at pil_img x y = a) by (unfold alpha_at; rewrite Hp; reflexivity).
    exists a'. split; [reflexivity|].
    split; [rewrite <- Ea; apply Hall; lia|].
    split; [|split; [exact Hex|exact Hall]].
    intros ->. destruct Hex as [i [j [Hi [Hj [_ [_ E]]]]]].
    assert (i = x) by lia. assert (j = y) by lia. subst i j. congruence.
Qed.

(** X15. [smooth_alpha_edges] on an RGBA image keeps the size and the three
    colour channels of every pixel; the new alpha is a byte whatever the
    blur returns, and it is the old alpha where the blur returns it. *)
Lemma smooth_alpha_edges_alpha_only pil_img radius x y r g b a :
  mode pil_img = "RGBA"%string ->
  0 <= x < width pil_img -> 0 <= y < height pil_img ->
  getpixel pil_img x y = [r; g; b; a] -> channel_values [r; g; b; a] ->
  size (smooth_alpha_edges pil_img radius) = size pil_img /\
  exists a', getpixel (smooth_alpha_edges pil_img radius) x y = [r; g; b; a'] /\
    0 <= a' <= 255 /\
    (cv2_GaussianBlur pil_img radius x y == inject_Z a -> a' = a)%Q.
Proof.
  intros Hm Hx Hy Hp Hv.
  inversion Hv as [|? ? Hr H1]; subst. inversion H1 as [|? ? Hg H2]; subst.
  inversion H2 as [|? ? Hb H3]; subst. inversion H3 as [|? ? Ha _]; subst.
  unfold smooth_alpha_edges. rewrite Hm, String.eqb_refl. cbn [negb].
  split; [reflexivity|].
  rewrite getpixel_build by assumption. rewrite Hp.
  pose proof (to_uint8_clip (cv2_GaussianBlur pil_img radius x y)) as Hrange.
  set (a' := Np.to_uint8 (Np.clip _ _ _)) in *.
  rewrite !to_uint8_of_int by assumption.
  exists a'. split; [reflexivity|]. split; [exact Hrange|].
  intros E. unfold a'. apply to_uint8_clip_Z; assumption.
Qed.

Lemma sharpen_channel_range amount c cb : 0 <= sharpen_channel amount c cb <= 255.
Proof. unfold sharpen_channel. apply to_uint8_clip. Qed.

(** Where the blurred value equals the value, sharpening changes nothing. *)
Lemma sharpen_channel_flat amount c : 0 <= c <= 255 -> sharpen_channel amount c c = c.
Proof.
  intros Hc. unfold sharpen_channel. apply to_uint8_clip_Z; [exact Hc|].
  pose proof (of_int_exact c ltac:(change (2 ^ 24) with 16777216; lia)) as Ec.
  assert (E0 : Np.sub (Np.of_int c) (Np.of_int c) = 0%Q).
  { unfold Np.sub. apply fl_zero. ring. }
  rewrite E0.
  assert (E1 : Np.mul (Np.scalar amount) 0%Q = 0%Q).
  { unfold Np.mul. apply fl_zero. ring. }
  rewrite E1. unfold Np.add.
  assert (E2 : (Np.of_int c + 0 == inject_Z c)%Q) by (rewrite Ec; ring).
  rewrite (fl_comp _ _ _ E2).
  destruct (Z.eq_dec c 0) as [->|Hne]; [reflexivity|].
  unfold Np.binary32.
  apply fl_exact_Z; [change (2 ^ 24) with 16777216; lia|lia].
Qed.

(** X16. [unsharp_mask] keeps mode and size.  With [rgb_only] on an RGBA
    image the alpha of every pixel is kept and the three colour channels are
    bytes; a pixel that the blur leaves unchanged is left unchanged. *)
Lemma unsharp_mask_rgb_only pil_img radius amount x y r g b a :
  mode pil_img = "RGBA"%string ->
  0 <= x < width pil_img -> 0 <= y < height pil_img ->
  getpixel pil_img x y = [r; g; b; a] -> channel_values [r; g; b; a] ->
  let out := unsharp_mask pil_img radius amount true in
  mode out = mode pil_img /\ size out = size pil_img /\
  (forall rb gb bb ab, pil_GaussianBlur pil_img radius x y = [rb; gb; bb; ab] ->
     exists r' g' b', getpixel out x y = [r'; g'; b'; a] /\
       0 <= r' <= 255 /\ 0 <= g' <= 255 /\ 0 <= b' <= 255) /\
  (pil_GaussianBlur pil_img radius x y = [r; g; b; a] ->
   getpixel out x y = [r; g; b; a]).
Proof.
  intros Hm Hx Hy Hp Hv out.
  inversion Hv as [|? ? Hr H1]; subst. inversion H1 as [|? ? Hg H2]; subst.
  inversion H2 as [|? ? Hb H3]; subst. inversion H3 as [|? ? Ha _]; subst.
  split; [reflexivity|]. split; [reflexivity|].
  assert (Hout : getpixel out x y =
            match pil_GaussianBlur pil_img radius x y with
            | [rb; gb; bb; _] =>
                [sharpen_channel amount r rb; sharpen_channel amount g gb;
                 sharpen_channel amount b bb; Np.to_uint8 (Np.of_int a)]
            | _ => [r; g; b; a]
            end).
  { unfold out, unsharp_mask. rewrite getpixel_build by assumption.
    rewrite Hm, String.eqb_refl, Hp. cbn [andb].
    destruct (pil_GaussianBlur pil_img radius x y) as [|? [|? [|? [|? [|? ?]]]]];
      reflexivity. }
  split.
  - intros rb gb bb ab Hblur. rewrite Hout, Hblur, to_uint8_of_int by exact Ha.
    eexists. eexists. eexists. split; [reflexivity|].
    split; [|split]; apply sharpen_channel_range.
  - intros Hblur. rewrite Hout, Hblur, to_uint8_of_int by exact Ha.
    rewrite !sharpen_channel_flat by assumption. reflexivity.
Qed.

End PixelOperations.

(** ** size_utils.py: fixed points and the zero slip *)

Section SizeRounding.
Import RoundToMultiple TargetSizeFacts.

(** X17. Powers of two are fixed points of [round_to_power_of_two], so the
    function is idempotent. *)
Lemma round_to_power_of_two_idempotent :
  (forall k, 0 <= k -> round_to_power_of_two (2 ^ k) = 2 ^ k) /\
  forall value,
    round_to_power_of_two (round_to_power_of_two value)
    = round_to_power_of_two value.
Proof.
  assert (Hfix : forall k, 0 <= k -> round_to_power_of_two (2 ^ k) = 2 ^ k).
  { intros k Hk.
    assert (Hp : 1 <= 2 ^ k) by (pose proof (Z.pow_pos_nonneg 2 k); lia).
    destruct (round_to_power_of_two_nearest (2 ^ k) Hp) as [j [Hj [Hr Hnear]]].
    destruct (Hnear k Hk) as [Hd _]. rewrite Hr. lia. }
  split; [exact Hfix|]. intros value.
  destruct (Z_le_gt_dec value 0) as [Hle|Hgt].
  - unfold round_to_power_of_two at 2 3.
    destruct (Z.leb_spec value 0); [|lia]. reflexivity.
  - destruct (round_to_power_of_two_nearest value ltac:(lia)) as [j [Hj [Hr _]]].
    rewrite Hr. apply Hfix. exact Hj.
Qed.

Lemma div_half_even_zero v m :
  0 < v -> 0 < m -> (div_half_even v m = 0 <-> 2 * v <= m).
Proof.
  intros Hv Hm. unfold div_half_even.
  pose proof (Z.div_mod v m ltac:(lia)) as E.
  pose proof (Z.mod_pos_bound v m Hm) as Hr.
  assert (Hf : 0 <= v / m) by (apply Z.div_pos; lia).
  set (f := v / m) in *. set (r := v mod m) in *. clearbody f r.
  destruct (Z.compare_spec (2 * r) m) as [Heq|Hlt|Hgt].
  - destruct (Z.even f) eqn:Hev.
    + split; [intros H; nia|]. intros H. nia.
    + split; [lia|]. intros H. assert (f = 0) by nia. subst f. discriminate.
  - split; [intros H; nia|]. intros H. nia.
  - split; [lia|]. intros H. exfalso. nia.
Qed.

Lemma div_half_even_multiple k m : 0 < m -> div_half_even (k * m) m = k.
Proof.
  intros Hm. unfold div_half_even.
  rewrite Z.div_mul, Z.mod_mul by lia. cbn [Z.mul].
  destruct (Z.compare_spec 0 m); [lia|reflexivity|lia].
Qed.

Lemma round_to_multiple_zero_iff value multiple :
  0 < value < 2 ^ 52 -> 0 < multiple ->
  (round_to_multiple value multiple = Ok 0 <-> 2 * value <= multiple).
Proof.
  intros Hv Hm. rewrite (round_to_multiple_eq value multiple Hv Hm).
  pose proof (div_half_even_zero value multiple ltac:(lia) Hm) as Hz.
  split.
  - intros H. injection H as H. apply Hz. nia.
  - intros H. apply Hz in H. rewrite H. reflexivity.
Qed.

Lemma round_to_multiple_fixed value multiple :
  0 < value < 2 ^ 52 -> 0 < multiple -> value mod multiple = 0 ->
  round_to_multiple value multiple = Ok value.
Proof.
  intros Hv Hm Hmod. rewrite (round_to_multiple_eq value multiple Hv Hm). f_equal.
  assert (E : value = value / multiple * multiple).
  { pose proof (Z.div_mod value multiple ltac:(lia)). lia. }
  rewrite E at 1. rewrite div_half_even_multiple by exact Hm.
  symmetry. exact E.
Qed.

(** X18. [round_to_multiple] returns a multiple of [multiple]; it returns
    zero exactly for the values up to half of [multiple], and it returns
    every positive multiple unchanged. *)
Lemma round_to_multiple_zero_and_fixed value multiple :
  0 < value < 2 ^ 52 -> 0 < multiple ->
  (exists k, 0 <= k /\ round_to_multiple value multiple = Ok (k * multiple)) /\
  (round_to_multiple value multiple = Ok 0 <-> 2 * value <= multiple) /\
  (value mod multiple = 0 -> round_to_multiple value multiple = Ok value).
Proof.
  intros Hv Hm. split; [|split].
  - rewrite (round_to_multiple_eq value multiple Hv Hm).
    pose proof (div_half_even_nearest value multiple Hm) as [Hnear _].
    cbn zeta in Hnear. exists (div_half_even value multiple).
    split; [nia|reflexivity].
  - apply round_to_multiple_zero_iff; assumption.
  - apply round_to_multiple_fixed; assumption.
Qed.

(** X19. [round_to_power_of_two] is monotone. *)
Lemma round_to_power_of_two_monotone v1 v2 :
  v1 <= v2 -> round_to_power_of_two v1 <= round_to_power_of_two v2.
Proof.
  intros Hle.
  destruct (Z_le_gt_dec v1 0) as [H0|H0].
  { pose proof (round_to_power_of_two_pos v2).
    unfold round_to_power_of_two at 1. destruct (Z.leb_spec v1 0); lia. }
  destruct (round_to_power_of_two_nearest v1 ltac:(lia)) as [a [Ha [Ea Hna]]].
  destruct (round_to_power_of_two_nearest v2 ltac:(lia)) as [b [Hb [Eb Hnb]]].
  rewrite Ea, Eb.
  destruct (Hna b Hb) as [Ha1 Ha2]. destruct (Hnb a Ha) as [Hb1 Hb2].
  assert (0 < 2 ^ a) by (apply Z.pow_pos_nonneg; lia).
  assert (0 < 2 ^ b) by (apply Z.pow_pos_nonneg; lia).
  lia.
Qed.

(** X20. On positive values [round_to_multiple] is monotone in the value;
    zero is the exception, since a value of at most zero gives [multiple]. *)
Lemma round_to_multiple_monotone v1 v2 multiple :
  0 < v1 <= v2 -> v2 < 2 ^ 52 -> 0 < multiple ->
  exists r1 r2,
    round_to_multiple v1 multiple = Ok r1 /\
    round_to_multiple v2 multiple = Ok r2 /\ r1 <= r2 /\
    round_to_multiple 0 multiple = Ok multiple.
Proof.
  intros Hv Hv2 Hm.
  rewrite (round_to_multiple_eq v1 multiple ltac:(lia) Hm).
  rewrite (round_to_multiple_eq v2 multiple ltac:(lia) Hm).
  eexists. eexists. split; [reflexivity|]. split; [reflexivity|].
  split; [|reflexivity].
  destruct (div_half_even_nearest v1 multiple Hm) as [H1 E1].
  destruct (div_half_even_nearest v2 multiple Hm) as [H2 E2].
  cbn zeta in H1, H2, E1, E2.
  set (k1 := div_half_even v1 multiple) in *.
  set (k2 := div_half_even v2 multiple) in *.
  destruct (Z_le_gt_dec k1 k2) as [Hk|Hk]; [nia|exfalso].
  assert (Hk1 : k1 = k2 + 1) by nia.
  assert (Ev : v1 = v2) by nia.
  assert (Ek : k1 = k2) by (unfold k1, k2; rewrite Ev; reflexivity).
  lia.
Qed.

End SizeRounding.

(** ** size_utils.py: what the auto mode returns *)

Module AutoSizeFacts.
Import Float FloatFacts FloatError FloatExact FloatOrder ScaleFacts.
Import RoundToMultiple TargetSizeFacts.
Local Open Scope Z_scope.

Lemma round_le_Z q n : (q <= inject_Z n)%Q -> Py.round q <= n.
Proof.
  intros H. unfold Py.round. apply round_half_even_mono in H.
  rewrite round_half_even_Z in H. exact H.
Qed.

(** The aspect ratio of a landscape or square image is at least 1, up to
    one rounding; that of a portrait image at most 1. *)
Lemma aspect_landscape w h aspect :
  1 <= h <= w -> Py.truediv w h = Ok aspect -> (1 - u53 <= aspect)%Q.
Proof.
  intros Hwh Ha.
  destruct (truediv_bounds w h ltac:(lia) ltac:(lia)) as [q [Hq [Hpos [Hlo _]]]].
  rewrite Ha in Hq. injection Hq as <-.
  assert (HW : (inject_Z h <= inject_Z w)%Q) by (rewrite <- Zle_Qle; lia).
  assert (HH : (0 < inject_Z h)%Q) by (apply inject_Z_pos; lia).
  assert (H1 : (inject_Z h * (1 - u53) <= aspect * inject_Z h)%Q).
  { apply Qle_trans with (inject_Z w * (1 - u53))%Q; [|exact Hlo].
    apply Qmult_le_compat_r; [exact HW|]. unfold u53. lra. }
  apply Qmult_le_l with (z := inject_Z h); [exact HH|].
  rewrite (Qmult_comm (inject_Z h) aspect). exact H1.
Qed.

Lemma aspect_portrait w h aspect :
  1 <= w <= h -> Py.truediv w h = Ok aspect -> (0 < aspect <= 1 + u53)%Q.
Proof.
  intros Hwh Ha.
  destruct (truediv_bounds w h ltac:(lia) ltac:(lia)) as [q [Hq [Hpos [_ Hup]]]].
  rewrite Ha in Hq. injection Hq as <-. split; [exact Hpos|].
  assert (HW : (inject_Z w <= inject_Z h)%Q) by (rewrite <- Zle_Qle; lia).
  assert (HH : (0 < inject_Z h)%Q) by (apply inject_Z_pos; lia).
  assert (H1 : (aspect * inject_Z h <= inject_Z h * (1 + u53))%Q).
  { apply Qle_trans with (inject_Z w * (1 + u53))%Q; [exact Hup|].
    apply Qmult_le_compat_r; [exact HW|]. unfold u53. lra. }
  apply Qmult_le_l with (z := inject_Z h); [exact HH|].
  rewrite (Qmult_comm (inject_Z h) aspect). exact H1.
Qed.

(** The side derived from the aspect ratio is at most twice the long side. *)
Lemma short_from_landscape sl aspect q :
  0 < sl < 2 ^ 53 -> (1 - u53 <= aspect)%Q ->
  Py.fdiv (Py.float_of_int sl) aspect = Ok q -> Py.round q <= 2 * sl.
Proof.
  intros Hsl Ha Hq. unfold Py.fdiv in Hq.
  assert (Hapos : (0 < aspect)%Q) by (unfold u53 in Ha; lra).
  destruct (Qeq_bool aspect 0) eqn:E; [discriminate|]. injection Hq as <-.
  assert (HS : (0 < inject_Z sl)%Q) by (apply inject_Z_pos; lia).
  assert (Ediv : (Py.float_of_int sl / aspect == inject_Z sl / aspect)%Q)
    by (rewrite (float_of_int_exact sl Hsl); reflexivity).
  rewrite (fl_comp _ _ _ Ediv). unfold Py.binary64.
  assert (Hpos : (0 < inject_Z sl / aspect)%Q).
  { apply Qlt_shift_div_l; [exact Hapos|]. lra. }
  destruct (fl53_bounds _ Hpos) as [_ Hup].
  set (x := (inject_Z sl / aspect)%Q) in *.
  assert (Ex : (x * aspect == inject_Z sl)%Q) by (unfold x; field; lra).
  assert (Hx : (x * (1 - u53) <= inject_Z sl)%Q).
  { rewrite <- Ex. apply Qmult_le_l; [exact Hpos|exact Ha]. }
  apply round_le_Z. rewrite inject_Z_mult. change (inject_Z 2) with 2%Q.
  set (S := inject_Z sl) in *. set (y := fl 53 x) in *.
  clearbody x y S. clear - Hup Hx HS. unfold u53 in *. lra.
Qed.

Lemma short_from_portrait sl aspect :
  0 < sl < 2 ^ 53 -> (0 < aspect <= 1 + u53)%Q ->
  Py.round (Py.fmul (Py.float_of_int sl) aspect) <= 2 * sl.
Proof.
  intros Hsl [Hapos Ha].
  destruct (fmul_int_bounds sl aspect Hsl Hapos) as [_ [_ Hup]].
  assert (HS : (0 < inject_Z sl)%Q) by (apply inject_Z_pos; lia).
  assert (Hx : (inject_Z sl * aspect <= inject_Z sl * (1 + u53))%Q).
  { apply Qmult_le_l; [exact HS|exact Ha]. }
  apply round_le_Z. rewrite inject_Z_mult. change (inject_Z 2) with 2%Q.
  set (S := inject_Z sl) in *. set (x := (S * aspect)%Q) in *.
  set (y := Py.fmul (Py.float_of_int sl) aspect) in *.
  clearbody x y S. clear - Hup Hx HS. unfold u53 in *. nra.
Qed.

(** The power of two chosen for a side of at most [2^31] pixels. *)
Lemma round_to_power_of_two_bounds value :
  1 <= value < 2 ^ 31 ->
  let p := round_to_power_of_two value in
  1 <= p <= 2 ^ 31 /\
  (value <= 6 -> 2 * p <= 8) /\ (7 <= value -> 8 <= p /\ p mod 8 = 0).
Proof.
  intros Hv. cbn zeta.
  destruct (round_to_power_of_two_cases value ltac:(lia))
    as [j [Hj [Hle [Hprev Hcases]]]].
  assert (Hj31 : j <= 31).
  { destruct (Z_le_gt_dec j 31) as [H|H]; [exact H|exfalso].
    specialize (Hprev ltac:(lia)).
    pose proof (pow2_mono_le 31 (j - 1) ltac:(lia)). lia. }
  assert (Hpj : 2 ^ j <= 2 ^ 31) by (apply pow2_mono_le; lia).
  assert (Hmod : forall k, 3 <= k -> 8 <= 2 ^ k /\ 2 ^ k mod 8 = 0).
  { intros k Hk. replace k with ((k - 3) + 3) by lia.
    rewrite Z.pow_add_r by lia. change (2 ^ 3) with 8.
    assert (0 < 2 ^ (k - 3)) by (apply Z.pow_pos_nonneg; lia).
    split; [lia|]. apply Z.mod_mul. lia. }
  assert (Hsmall : forall k, 0 <= k <= 2 -> 2 ^ k <= 4).
  { intros k Hk. change 4 with (2 ^ 2). apply pow2_mono_le. lia. }
  destruct Hcases as [[Hc Hr]|[Hj0 [Hc Hr]]]; rewrite Hr.
  - assert (0 < 2 ^ j) by (apply Z.pow_pos_nonneg; lia).
    split; [lia|]. split.
    + intros H6. destruct (Z_le_gt_dec j 2) as [H2|H2].
      * specialize (Hsmall j ltac:(lia)). lia.
      * exfalso. specialize (Hprev ltac:(lia)).
        destruct (Z.eq_dec j 3) as [->|Hne].
        -- change (2 ^ 3) with 8 in Hc. change (2 ^ (3 - 1)) with 4 in Hc. lia.
        -- pose proof (pow2_mono_le 3 (j - 1) ltac:(lia)) as H8.
           change (2 ^ 3) with 8 in H8. lia.
    + intros H7. apply Hmod.
      destruct (Z_le_gt_dec 3 j) as [H3|H3]; [exact H3|exfalso].
      specialize (Hsmall j ltac:(lia)). lia.
  - specialize (Hprev Hj0).
    assert (Hlt : 2 ^ (j - 1) < 2 ^ j) by (apply Z.pow_lt_mono_r; lia).
    assert (0 < 2 ^ (j - 1)) by (apply Z.pow_pos_nonneg; lia).
    assert (Hdouble : 2 ^ j = 2 * 2 ^ (j - 1)).
    { replace j with ((j - 1) + 1) at 1 by lia.
      rewrite Z.pow_add_r by lia. change (2 ^ 1) with 2. lia. }
    split; [lia|]. split.
    + intros H6. destruct (Z_le_gt_dec j 3) as [H3|H3].
      * pose proof (pow2_mono_le j 3 ltac:(lia)) as H8.
        change (2 ^ 3) with 8 in H8. lia.
      * pose proof (pow2_mono_le 3 (j - 1) ltac:(lia)) as H8.
        change (2 ^ 3) with 8 in H8. lia.
    + intros H7. apply Hmod.
      destruct (Z_le_gt_dec 3 (j - 1)) as [H3|H3]; [exact H3|exfalso].
      specialize (Hsmall (j - 1) ltac:(lia)). lia.
Qed.

End AutoSizeFacts.

Section AutoSize.
Import Float FloatFacts FloatError FloatExact FloatOrder ScaleFacts.
Import RoundToMultiple TargetSizeFacts AutoSizeFacts.

(** Rounding a value of at least 8 to a multiple of 8. *)
Lemma round_to_multiple_8 value :
  8 <= value < 2 ^ 52 ->
  exists k, 1 <= k /\ round_to_multiple value 8 = Ok (8 * k).
Proof.
  intros Hv.
  destruct (round_to_multiple_8_ge value ltac:(lia)) as [r [Hr H8]].
  rewrite (round_to_multiple_eq value 8 ltac:(lia) ltac:(lia)) in Hr.
  injection Hr as Hr. exists (div_half_even value 8).
  split; [lia|]. rewrite (round_to_multiple_eq value 8 ltac:(lia) ltac:(lia)).
  f_equal. lia.
Qed.

(** X21. Auto mode on an image with positive sides: the side derived from
    the aspect ratio is a positive multiple of 8; the long side is the
    power of two nearest to the long side of the image, except that a long
    side of at most 6 pixels gives 0. *)
Lemma auto_mode_sizes width height mode cw ch multiple :
  is_auto mode -> valid_dim width -> valid_dim height ->
  let long_side := Z.max width height in
  exists tw th,
    calculate_target_size width height mode cw ch multiple = Ok (tw, th) /\
    let tl := if width >=? height then tw else th in
    let ts := if width >=? height then th else tw in
    (exists k, 1 <= k /\ ts = 8 * k) /\
    (long_side <= 6 -> tl = 0) /\
    (7 <= long_side -> tl = round_to_power_of_two long_side /\ 8 <= tl /\ tl mod 8 = 0).
Proof.
  intros Hauto Hw Hh long_side. unfold valid_dim in Hw, Hh.
  rewrite calculate_auto by exact Hauto. unfold auto_suggest_size.
  destruct (Z.leb_spec width 0); [lia|]. destruct (Z.leb_spec height 0); [lia|].
  cbn [orb].
  destruct (truediv_pos width height ltac:(lia) ltac:(lia)) as [aspect [Ha Hpos]].
  rewrite Ha. cbn [bind]. fold long_side.
  assert (Hlong : 1 <= long_side < 2 ^ 31) by (unfold long_side; lia).
  destruct (round_to_power_of_two_bounds long_side Hlong) as [Hsl [Hsmall Hbig]].
  set (sl := round_to_power_of_two long_side) in *.
  assert (H31 : 2 ^ 31 = 2147483648) by reflexivity.
  assert (H52 : 2 ^ 52 = 4503599627370496) by reflexivity.
  assert (H53 : 2 ^ 53 = 9007199254740992) by reflexivity.
  (* the long side *)
  assert (Hl : exists tl, round_to_multiple sl 8 = Ok tl /\
             (long_side <= 6 -> tl = 0) /\
             (7 <= long_side -> tl = sl /\ 8 <= tl /\ tl mod 8 = 0)).
  { pose proof (round_to_multiple_zero_iff sl 8 ltac:(lia) ltac:(lia)) as Hzero.
    pose proof (round_to_multiple_fixed sl 8 ltac:(lia) ltac:(lia)) as Hfix.
    destruct (Z_le_gt_dec long_side 6) as [H6|H6].
    - exists 0. split; [apply Hzero; apply Hsmall; exact H6|].
      split; [reflexivity|lia].
    - destruct (Hbig ltac:(lia)) as [H8 Hmod].
      exists sl. split; [apply Hfix; exact Hmod|]. split; [lia|].
      intros _. split; [reflexivity|]. split; assumption. }
  destruct Hl as [tl [Htl [Hl6 Hl7]]].
  destruct (Z.geb_spec width height) as [Hge|Hlt].
  - destruct (fdiv_ok (Py.float_of_int sl) aspect Hpos) as [q Hq].
    rewrite Hq. cbn [bind fst snd].
    pose proof (short_from_landscape sl aspect q ltac:(lia)
                  (aspect_landscape width height aspect ltac:(lia) Ha) Hq) as Hr.
    destruct (round_to_multiple_8 (Z.max 8 (Py.round q)) ltac:(lia)) as [k [Hk Hs]].
    rewrite Htl. cbn [bind]. rewrite Hs. cbn [bind].
    exists tl, (8 * k). split; [reflexivity|]. cbn zeta.
    split; [exists k; split; [exact Hk|reflexivity]|]. split; assumption.
  - cbn [bind fst snd].
    pose proof (short_from_portrait sl aspect ltac:(lia)
                  (aspect_portrait width height aspect ltac:(lia) Ha)) as Hr.
    destruct (round_to_multiple_8
                (Z.max 8 (Py.round (Py.fmul (Py.float_of_int sl) aspect)))
                ltac:(lia)) as [k [Hk Hs]].
    rewrite Hs. cbn [bind]. rewrite Htl. cbn [bind].
    exists (8 * k), tl. split; [reflexivity|]. cbn zeta.
    split; [exists k; split; [exact Hk|reflexivity]|]. split; assumption.
Qed.

End AutoSize.

(** ** The size of whatever is returned *)

Section ReturnedSize.
Context {imaging : Imaging}.
Import ImageFacts.

Lemma bind_Ok {A B} (m : result A) (k : A -> result B) b :
  bind m k = Ok b -> exists a, m = Ok a /\ k a = Ok b.
Proof. destruct m as [a|e]; [|discriminate]. intros H. exists a. split; [reflexivity|exact H]. Qed.

Lemma Image_new_size m w h color out :
  Image_new m w h color = Ok out -> size out = (w, h).
Proof.
  unfold Image_new. destruct ((w <? 0) || (h <? 0)); [discriminate|].
  intros H. injection H as <-. reflexivity.
Qed.

Lemma crop_size im x0 y0 x1 y1 out :
  crop im (x0, y0, x1, y1) = Ok out -> size out = (x1 - x0, y1 - y0).
Proof.
  unfold crop. destruct (x1 <? x0); [discriminate|].
  destruct (y1 <? y0); [discriminate|]. intros H. injection H as <-. reflexivity.
Qed.

Lemma pad_to_square_size pil_img side inpaint method out :
  pad_to_square pil_img side inpaint method = Ok out -> size out = (side, side).
Proof.
  unfold pad_to_square, size.
  destruct (negb ((width pil_img <=? side) && (height pil_img <=? side)));
    [discriminate|].
  destruct ((width pil_img =? side) && (height pil_img =? side)) eqn:E.
  - apply andb_prop in E. destruct E as [E1 E2].
    apply Z.eqb_eq in E1. apply Z.eqb_eq in E2.
    intros H. injection H as <-. rewrite E1, E2. reflexivity.
  - intros H. apply bind_Ok in H. destruct H as [canvas [Hc H]].
    apply Image_new_size in Hc. unfold size in Hc. injection Hc as Hcw Hch.
    destruct (negb inpaint); injection H as <-; cbn [paste width height];
      rewrite Hcw, Hch; reflexivity.
Qed.

Lemma pad_box_size fit tw th out :
  (canvas <- Image_new "RGBA" tw th transparent ;;
   Ok (paste canvas fit ((tw - width fit) / 2) ((th - height fit) / 2))) = Ok out ->
  size out = (tw, th).
Proof.
  intros H. apply bind_Ok in H. destruct H as [canvas [Hc H]].
  apply Image_new_size in Hc. injection H as <-. exact Hc.
Qed.

Lemma smart_square_size pil_img side use_saliency allow_crop out :
  smart_square pil_img side use_saliency allow_crop = Ok out ->
  size out = (side, side).
Proof.
  unfold smart_square, size.
  destruct ((width pil_img =? side) && (height pil_img =? side)) eqn:E.
  { apply andb_prop in E. destruct E as [E1 E2].
    apply Z.eqb_eq in E1. apply Z.eqb_eq in E2.
    intros H. injection H as <-. rewrite E1, E2. reflexivity. }
  intros H. apply bind_Ok in H. destruct H as [d [_ H]].
  destruct (Py.flt d (Py.lit (1 # 10))).
  - destruct (Z.max (width pil_img) (height pil_img) >? side).
    + apply bind_Ok in H. destruct H as [fit [_ H]].
      exact (pad_to_square_size _ _ _ _ _ H).
    + exact (pad_to_square_size _ _ _ _ _ H).
  - apply bind_Ok in H. destruct H as [fit [_ H]].
    destruct (negb allow_crop); [exact (pad_to_square_size _ _ _ _ _ H)|].
    destruct ((width fit >=? side) && (height fit >=? side));
      [|exact (pad_to_square_size _ _ _ _ _ H)].
    apply bind_Ok in H. destruct H as [[cx cy] [_ H]].
    apply crop_size in H. unfold size in H. rewrite H. f_equal; lia.
Qed.

Lemma fit_to_size_size pil_img target_w target_h allow_crop out :
  fit_to_size pil_img target_w target_h allow_crop = Ok out ->
  size out = (target_w, target_h).
Proof.
  unfold fit_to_size, size.
  destruct ((width pil_img =? target_w) && (height pil_img =? target_h)) eqn:E.
  { apply andb_prop in E. destruct E as [E1 E2].
    apply Z.eqb_eq in E1. apply Z.eqb_eq in E2.
    intros H. injection H as <-. rewrite E1, E2. reflexivity. }
  intros H. apply bind_Ok in H. destruct H as [qa [_ H]].
  apply bind_Ok in H. destruct H as [qt [_ H]].
  apply bind_Ok in H. destruct H as [fit [_ H]].
  destruct (negb allow_crop); [exact (pad_box_size _ _ _ _ H)|].
  destruct ((width fit >=? target_w) && (height fit >=? target_h));
    [|exact (pad_box_size _ _ _ _ H)].
  apply crop_size in H. unfold size in H. rewrite H. f_equal; lia.
Qed.

(** X22. Whatever the image, the flags and the numerical kernels: an image
    returned by [pad_to_square], [smart_square] or [fit_to_size] has exactly
    the requested size. *)
Lemma returned_size_is_requested pil_img :
  (forall side inpaint method out,
     pad_to_square pil_img side inpaint method = Ok out -> size out = (side, side)) /\
  (forall side use_saliency allow_crop out,
     smart_square pil_img side use_saliency allow_crop = Ok out ->
     size out = (side, side)) /\
  (forall target_w target_h allow_crop out,
     fit_to_size pil_img target_w target_h allow_crop = Ok out ->
     size out = (target_w, target_h)).
Proof.
  split; [intros side inpaint method out; apply pad_to_square_size|].
  split; [intros side use_saliency allow_crop out; apply smart_square_size|].
  intros target_w target_h allow_crop out. apply fit_to_size_size.
Qed.

Lemma smooth_alpha_edges_size pil_img radius :
  size (smooth_alpha_edges pil_img radius) = size pil_img.
Proof.
  unfold smooth_alpha_edges.
  destruct (negb (String.eqb (mode pil_img) "RGBA")); reflexivity.
Qed.

End ReturnedSize.

(** ** pipeline.py: what a run leaves behind *)

Section PipelineRuns.
Context {imaging : Imaging}.
Import ImageFacts.

Lemma bindM_Ok {A B} (m : M A) (k : A -> M B) W b W' :
  bindM m k W = (Ok b, W') ->
  exists a W1, m W = (Ok a, W1) /\ k a W1 = (Ok b, W').
Proof.
  unfold bindM. destruct (m W) as [[a|e] W1]; [|discriminate].
  intros H. exists a, W1. split; [reflexivity|exact H].
Qed.

Lemma lift_Ok {A} (r : result A) W a W' : lift r W = (Ok a, W') -> r = Ok a /\ W' = W.
Proof. unfold lift. intros H. injection H as -> <-. split; reflexivity. Qed.

Lemma ret_Ok {A} (x : A) W a W' : ret x W = (Ok a, W') -> a = x /\ W' = W.
Proof. unfold ret. intros H. injection H as <- <-. split; reflexivity. Qed.

Lemma convert_image_size img dst : size (convert_image img dst) = size img.
Proof. reflexivity. Qed.

(** A successful load returns a stored image, converted or not, of the
    stored size, with its ICC profile, and leaves the files alone. *)
Lemma load_image_rgba_Ok path W out icc W' :
  load_image_rgba path W = (Ok (out, icc), W') ->
  W' = W /\
  exists img, files W (str path) = Some (ImageFile img icc) /\ size out = size img.
Proof.
  unfold load_image_rgba.
  destruct (files W (str path)) as [[img icc0|lines|]|]; try discriminate.
  intros H. injection H as <- <- <-. split; [reflexivity|].
  exists img. split; [reflexivity|].
  destruct (_ || _); [reflexivity|]. destruct (String.eqb (mode img) "RGB");
    [reflexivity|]. destruct (String.eqb (mode img) "RGBA"); reflexivity.
Qed.

(** X23. [load_image_rgba] hands the pipeline an image of mode RGB or RGBA
    of the size of the stored one: RGB stays RGB, RGBA is returned as it
    is, every other mode is converted to RGBA.  It changes no file, and a
    missing or unreadable file is an error. *)
Lemma load_image_rgba_modes path W r W' :
  load_image_rgba path W = (r, W') ->
  W' = W /\
  match files W (str path) with
  | Some (ImageFile img icc) =>
      exists out, r = Ok (out, icc) /\ size out = size img /\
        (mode out = "RGB"%string \/ mode out = "RGBA"%string) /\
        (mode out = "RGB"%string <-> mode img = "RGB"%string) /\
        (mode img = "RGBA"%string -> out = img)
  | _ => exists e, r = Raise (OSError e)
  end.
Proof.
  unfold load_image_rgba.
  destruct (files W (str path)) as [[img icc|lines|]|]; intros H;
    injection H as <- <-; (split; [reflexivity|]);
    try (eexists; reflexivity).
  destruct (String.eqb_spec (mode img) "P") as [EP|NP];
    [|destruct (String.eqb_spec (mode img) "L") as [EL|NL]]; cbn [orb].
  1,2: eexists; split; [reflexivity|]; split; [reflexivity|];
    split; [right; reflexivity|]; split;
    [split; [discriminate|intros E; rewrite E in *; discriminate]
    |intros E; rewrite E in *; discriminate].
  destruct (String.eqb_spec (mode img) "RGB") as [ER|NR].
  { eexists. split; [reflexivity|]. split; [reflexivity|].
    split; [left; reflexivity|]. split; [split; [intros _; exact ER|reflexivity]|].
    intros E. rewrite E in ER. discriminate. }
  destruct (String.eqb_spec (mode img) "RGBA") as [EA|NA].
  { exists img. split; [reflexivity|]. split; [reflexivity|].
    split; [right; exact EA|]. split; [split; intros E; congruence|reflexivity]. }
  eexists. split; [reflexivity|]. split; [reflexivity|].
  split; [right; reflexivity|]. split; [split; [discriminate|contradiction]|].
  contradiction.
Qed.

Lemma detect_kind_concrete pil_img n t k :
  detect_kind pil_img n t = Ok k -> k = pixel_art \/ k = illustration.
Proof.
  unfold detect_kind. destruct ((width pil_img <? 1) || (height pil_img <? 1));
    [discriminate|].
  destruct (_ && _); intros H; injection H as <-; [left|right]; reflexivity.
Qed.

Lemma fit_step_size (is_square : bool) target final_w final_h pil out :
  (if is_square then smart_square pil target false false
   else fit_to_size pil final_w final_h false) = Ok out ->
  size out = if is_square then (target, target) else (final_w, final_h).
Proof.
  destruct is_square; intros H;
    [exact (smart_square_size _ _ _ _ _ H)|exact (fit_to_size_size _ _ _ _ _ H)].
Qed.

Lemma append_inj_l (s a b : string) : (s ++ a)%string = (s ++ b)%string -> a = b.
Proof.
  induction s as [|c s IH]; cbn [String.append]; intros H; [exact H|].
  injection H as H. exact (IH H).
Qed.

Lemma tmp_paths_differ src dst : str (tmp_in src dst) <> str (tmp_out src dst).
Proof.
  unfold str, tmp_in, tmp_out. cbn [parent stem suffix]. intros H.
  apply append_inj_l in H. cbn [String.append] in H. discriminate H.
Qed.


(** What [process_image] returns when it returns: an image of the final
    size and the first six entries of the metadata; and after the
    super-resolution step of an illustration its two temporary files are
    gone. *)
Lemma process_image_result src dst target target_w target_h kind superres
    W meta pil icc W1 :
  process_image src dst target target_w target_h kind superres W
  = (Ok (meta, pil, icc), W1) ->
  size pil = final_size target target_w target_h /\
  exists img0 k bbox trimmed,
    files W (str src) = Some (ImageFile img0 icc) /\
    meta = [("src", VStr (str src)); ("w", VInt (width img0));
            ("h", VInt (height img0)); ("kind", VStr (Kind_value k));
            ("bbox", VBBox bbox); ("trimmed", VBool trimmed)]%string /\
    k <> Kind_auto /\ (kind <> Kind_auto -> k = kind) /\
    (k = illustration -> superres = "realesrgan"%string ->
     files W1 (str (tmp_in src dst)) = None /\
     files W1 (str (tmp_out src dst)) = None).
Proof.
  unfold process_image. intros H.
  apply bindM_Ok in H. destruct H as [[pil0 icc0] [W0 [Hload H]]].
  destruct (load_image_rgba_Ok _ _ _ _ _ Hload) as [-> [img0 [Hsrc Hsz]]].
  set (fs := match target_w, target_h with
             | Some tw, Some th => (tw, th, false)
             | _, _ => (target, target, true)
             end) in H.
  assert (Hfs : final_size target target_w target_h
                = if snd fs then (target, target) else fst fs).
  { unfold fs, final_size. destruct target_w, target_h; reflexivity. }
  destruct fs as [[final_w final_h] is_square]. cbn [fst snd] in Hfs.
  apply bindM_Ok in H. destruct H as [k [W2 [Hk H]]].
  apply lift_Ok in Hk. destruct Hk as [Hk ->].
  apply bindM_Ok in H. destruct H as [[[pil1 bbox] trimmed] [W3 [Htrim H]]].
  apply lift_Ok in Htrim. destruct Htrim as [Htrim ->].
  apply bindM_Ok in H. destruct H as [pil2 [W4 [Hfix H]]].
  apply lift_Ok in Hfix. destruct Hfix as [Hfix ->].
  apply bindM_Ok in H. destruct H as [pil3 [W5 [Hfit H]]].
  apply ret_Ok in H. destruct H as [H ->]. injection H as -> -> ->.
  assert (Hsize : size pil3 = if is_square then (target, target) else (final_w, final_h)).
  { destruct k.
    - apply bindM_Ok in Hfit. destruct Hfit as [pilsr [W6 [_ Hfit]]].
      apply bindM_Ok in Hfit. destruct Hfit as [pil4 [W7 [Hf Hfit]]].
      apply lift_Ok in Hf. destruct Hf as [Hf _].
      apply ret_Ok in Hfit. destruct Hfit as [-> _].
      rewrite smooth_alpha_edges_size. exact (fit_step_size _ _ _ _ _ _ Hf).
    - apply lift_Ok in Hfit. destruct Hfit as [Hfit _].
      apply bind_Ok in Hfit. destruct Hfit as [scaled [_ Hf]].
      exact (fit_step_size _ _ _ _ _ _ Hf).
    - apply bindM_Ok in Hfit. destruct Hfit as [pilsr [W6 [_ Hfit]]].
      apply bindM_Ok in Hfit. destruct Hfit as [pil4 [W7 [Hf Hfit]]].
      apply lift_Ok in Hf. destruct Hf as [Hf _].
      apply ret_Ok in Hfit. destruct Hfit as [-> _].
      rewrite smooth_alpha_edges_size. exact (fit_step_size _ _ _ _ _ _ Hf). }
  split.
  - rewrite Hfs, <- Hsize. destruct k; reflexivity.
  - unfold size in Hsz. injection Hsz as Hw0 Hh0.
    exists img0, k, bbox, trimmed. split; [exact Hsrc|]. split.
    + rewrite Hw0, Hh0. reflexivity.
    + split; [|split].
      * destruct kind; [|injection Hk as <-; discriminate..].
        apply detect_kind_concrete in Hk. destruct Hk as [->| ->]; discriminate.
      * destruct kind; [intros Hne; contradiction|injection Hk as <-; reflexivity..].
      * intros -> ->. rewrite String.eqb_refl in Hfit.
        apply bindM_Ok in Hfit. destruct Hfit as [pilsr [W6 [Hsr Hfit]]].
        apply bindM_Ok in Hfit. destruct Hfit as [pil4 [W7 [Hf Hfit]]].
        apply lift_Ok in Hf. destruct Hf as [_ ->].
        apply ret_Ok in Hfit. destruct Hfit as [_ ->].
        apply bindM_Ok in Hsr. destruct Hsr as [u1 [Wa [Hsave Hsr]]].
        apply bindM_Ok in Hsr. destruct Hsr as [u2 [Wb [Hrun Hsr]]].
        apply bindM_Ok in Hsr. destruct Hsr as [re [Wc [Hre Hsr]]].
        apply bindM_Ok in Hsr. destruct Hsr as [u3 [Wd [Hu1 Hsr]]].
        apply bindM_Ok in Hsr. destruct Hsr as [u4 [We [Hu2 Hsr]]].
        apply ret_Ok in Hsr. destruct Hsr as [_ ->].
        destruct (frames_save (fun _ => True) _ _ _ I _ _ _ Hsave) as [Hwa _].
        destruct (frames_run_realesrgan (fun _ => True) _ _ I _ _ _ Hrun) as [Hwb _].
        destruct (frames_load (fun _ => True) _ _ _ _ Hre) as [Hwc _].
        assert (Hwin : writable W (str (tmp_in src dst)) = true).
        { unfold save_image_with_icc, write_file in Hsave.
          destruct (writable W (str (tmp_in src dst))); [reflexivity|discriminate]. }
        assert (Hwout : writable Wa (str (tmp_out src dst)) = true).
        { unfold run_realesrgan in Hrun.
          destruct (files Wa (str (tmp_in src dst))) as [[im ic|lines|]|];
            try discriminate.
          destruct (realesrgan im); [|discriminate]. unfold write_file in Hrun.
          destruct (writable Wa (str (tmp_out src dst))); [reflexivity|discriminate]. }
        assert (E1 : writable Wc (str (tmp_in src dst)) = true) by congruence.
        assert (E2 : writable (update Wc (str (tmp_in src dst)) None)
                       (str (tmp_out src dst)) = true).
        { unfold update. cbn [writable]. congruence. }
        unfold unlink_quietly in Hu1, Hu2.
        rewrite E1 in Hu1. injection Hu1 as _ <-.
        rewrite E2 in Hu2. injection Hu2 as _ <-. split.
        -- rewrite update_other by apply tmp_paths_differ. apply update_same.
        -- apply update_same.
Qed.

(** X24. A run of [process_one] that returns has done what it reports: the
    destination holds an image of exactly the final size, saved with the ICC
    profile of the source unless that is empty; the metadata lists the source
    and its size, a kind that is never [auto] and is the requested one unless
    that was [auto], the box, the destination, [ok] and the final size; and
    the log, when there is one, has this metadata as one more record. *)
Lemma process_one_success src dst target target_w target_h kind superres
    outpaint log_jsonl W meta W' :
  (forall l, log_jsonl = Some l ->
     str l <> str dst /\ ~ is_tmp src dst (str l)) ->
  process_one src dst target target_w target_h kind superres outpaint log_jsonl W
  = (Ok meta, W') ->
  exists pil img0 icc k bbox trimmed,
    files W (str src) = Some (ImageFile img0 icc) /\
    files W' (str dst)
    = Some (ImageFile pil match icc with
                          | Some EmptyString => None
                          | other => other
                          end) /\
    size pil = final_size target target_w target_h /\
    meta = [("src", VStr (str src)); ("w", VInt (width img0));
            ("h", VInt (height img0)); ("kind", VStr (Kind_value k));
            ("bbox", VBBox bbox); ("trimmed", VBool trimmed);
            ("dst", VStr (str dst)); ("ok", VBool true);
            ("final_w", VInt (fst (final_size target target_w target_h)));
            ("final_h", VInt (snd (final_size target target_w target_h)))]%string /\
    k <> Kind_auto /\ (kind <> Kind_auto -> k = kind) /\
    forall l, log_jsonl = Some l ->
      files W' (str l) = Some (appended (files W (str l)) meta).
Proof.
  intros Hlog Hrun. unfold process_one in Hrun.
  destruct (process_body src dst target target_w target_h kind superres log_jsonl W)
    as [[meta0|e] W0] eqn:Hbody; [|discriminate].
  injection Hrun as -> ->. unfold process_body in Hbody.
  apply bindM_Ok in Hbody. destruct Hbody as [[[meta1 pil] icc] [W1 [Himg H]]].
  apply bindM_Ok in H. destruct H as [u [W2 [Hsave H]]].
  apply bindM_Ok in H. destruct H as [u' [W3 [Hl H]]].
  apply ret_Ok in H. destruct H as [-> ->].
  destruct (process_image_frames _ _ _ _ _ _ _ _ _ _ Himg) as [Hw Hf].
  destruct (process_image_result _ _ _ _ _ _ _ _ _ _ _ _ Himg)
    as [Hsize [img0 [k [bbox [trimmed [Hsrc [-> [Hk1 [Hk2 _]]]]]]]]].
  unfold save_image_with_icc, write_file in Hsave.
  destruct (writable W1 (str dst)); [|discriminate].
  injection Hsave as _ <-.
  assert (Hw' : width pil = fst (final_size target target_w target_h))
    by (rewrite <- Hsize; reflexivity).
  assert (Hh' : height pil = snd (final_size target target_w target_h))
    by (rewrite <- Hsize; reflexivity).
  exists pil, img0, icc, k, bbox, trimmed.
  split; [exact Hsrc|]. split.
  { destruct log_jsonl as [l|].
    - destruct (Hlog l eq_refl) as [Hne _]. unfold append_log in Hl.
      destruct (writable (update W1 (str dst) _) (str l)); [|discriminate].
      injection Hl as _ <-. rewrite update_other by congruence. apply update_same.
    - apply ret_Ok in Hl. destruct Hl as [_ ->]. apply update_same. }
  split; [exact Hsize|]. split; [cbn [app]; rewrite Hw', Hh'; reflexivity|].
  split; [exact Hk1|]. split; [exact Hk2|].
  intros l El. subst log_jsonl. destruct (Hlog l eq_refl) as [Hne Hnt].
  unfold append_log in Hl.
  destruct (writable (update W1 (str dst) _) (str l)); [|discriminate].
  injection Hl as _ <-. rewrite update_same.
  destruct (String.eqb_spec (str l) (str dst)) as [E|_]; [contradiction|].
  rewrite (Hf _ Hnt). reflexivity.
Qed.


(** X26. After a successful run with super-resolution on an illustration
    the two temporary files are gone. *)
Lemma process_one_removes_temporaries src dst target target_w target_h kind
    outpaint log_jsonl W meta W' :
  ~ is_tmp src dst (str dst) ->
  (forall l, log_jsonl = Some l -> ~ is_tmp src dst (str l)) ->
  process_one src dst target target_w target_h kind "realesrgan" outpaint
    log_jsonl W = (Ok meta, W') ->
  In ("kind"%string, VStr "illustration") meta ->
  files W' (str (tmp_in src dst)) = None /\
  files W' (str (tmp_out src dst)) = None.
Proof.
  intros Hdst Hlog Hrun Hin. unfold process_one in Hrun.
  destruct (process_body src dst target target_w target_h kind "realesrgan"
              log_jsonl W) as [[meta0|e] W0] eqn:Hbody; [|discriminate].
  injection Hrun as -> ->. unfold process_body in Hbody.
  apply bindM_Ok in Hbody. destruct Hbody as [[[meta1 pil] icc] [W1 [Himg H]]].
  apply bindM_Ok in H. destruct H as [u [W2 [Hsave H]]].
  apply bindM_Ok in H. destruct H as [u' [W3 [Hl H]]].
  apply ret_Ok in H. destruct H as [-> ->].
  destruct (process_image_result _ _ _ _ _ _ _ _ _ _ _ _ Himg)
    as [_ [img0 [k [bbox [trimmed [_ [-> [_ [_ Hclean]]]]]]]]].
  assert (Hk : k = illustration).
  { cbn [app] in Hin.
    destruct Hin as [H|[H|[H|[H|[H|[H|[H|[H|[H|[H|[]]]]]]]]]]];
      try discriminate H.
    injection H as H. destruct k; [discriminate H|discriminate H|reflexivity]. }
  destruct (Hclean Hk eq_refl) as [C1 C2].
  assert (Hkeep : forall p, is_tmp src dst p -> files W3 p = files W1 p).
  { intros p Hp.
    assert (Hs : files W2 p = files W1 p).
    { unfold save_image_with_icc, write_file in Hsave.
      destruct (writable W1 (str dst)); [|discriminate].
      injection Hsave as _ <-. apply update_other. intros ->. exact (Hdst Hp). }
    rewrite <- Hs. destruct log_jsonl as [l|].
    - unfold append_log in Hl. destruct (writable W2 (str l)); [|discriminate].
      injection Hl as _ <-. apply update_other. intros ->.
      exact (Hlog l eq_refl Hp).
    - apply ret_Ok in Hl. destruct Hl as [_ ->]. reflexivity. }
  rewrite !Hkeep; [split; assumption|right; reflexivity|left; reflexivity].
Qed.

(** The trim step of [process_one] always returns, and what it returns is
    not empty unless the image was. *)
Lemma trim_total pil :
  exists pil1 bbox trimmed,
    match bbox_from_alpha pil 5 with
    | Some bbox =>
        meaningful <- is_alpha_bbox_meaningful pil bbox (Py.lit (5 # 100)) ;;
        if meaningful
        then cropped <- crop_to_bbox pil bbox 2 ;;
             Ok (cropped, bbox, true)
        else Ok (pil, (0, 0, width pil - 1, height pil - 1), false)
    | None => Ok (pil, (0, 0, width pil - 1, height pil - 1), false)
    end = Ok (pil1, bbox, trimmed) /\
    (1 <= width pil -> 1 <= height pil -> 1 <= width pil1 /\ 1 <= height pil1).
Proof.
  destruct (bbox_from_alpha pil 5) as [bbox|] eqn:Hb.
  2:{ eexists. eexists. eexists. split; [reflexivity|]. intros; split; assumption. }
  destruct (trim_step pil 5 bbox (Py.lit (5 # 100)) 2
              (bbox_from_alpha_mode _ _ _ Hb) ltac:(lia) Hb)
    as [[b Hm] [out [Hc [_ [Hw [Hh _]]]]]].
  rewrite Hm. cbn [bind]. destruct b.
  - rewrite Hc. cbn [bind]. eexists. eexists. eexists.
    split; [reflexivity|]. intros; split; assumption.
  - eexists. eexists. eexists. split; [reflexivity|]. intros; split; assumption.
Qed.

Lemma process_image_tool_failure src dst target target_w target_h W img icc e0 :
  files W (str src) = Some (ImageFile img icc) ->
  writable W (str (tmp_in src dst)) = true ->
  (forall im, realesrgan im = Raise e0) ->
  exists W1 kept,
    process_image src dst target target_w target_h illustration "realesrgan" W
    = (Raise e0, W1) /\
    files W1 (str (tmp_in src dst)) = Some kept.
Proof.
  intros Hsrc Hwin Htool.
  assert (Hload : exists pil0, load_image_rgba src W = (Ok (pil0, icc), W)).
  { unfold load_image_rgba. rewrite Hsrc. eexists. reflexivity. }
  destruct Hload as [pil0 Hload].
  destruct (trim_total pil0) as [pil1 [bbox [trimmed [Ht _]]]].
  unfold process_image. unfold bindM at 1. rewrite Hload.
  destruct target_w as [tw|]; destruct target_h as [th|].
  all: unfold bindM at 1; unfold lift at 1.
  all: unfold bindM at 1; unfold lift at 1; rewrite Ht.
  all: unfold bindM at 1; unfold lift at 1.
  all: unfold bindM at 1; unfold bindM at 1.
  all: rewrite String.eqb_refl.
  all: unfold bindM at 1; unfold save_image_with_icc at 1; unfold write_file at 1.
  all: rewrite Hwin.
  all: unfold bindM at 1; unfold run_realesrgan at 1; rewrite update_same, Htool.
  all: eexists; eexists; split; [reflexivity|]; apply update_same.
Qed.

(** X27. When the super-resolution tool fails, the run fails with the
    error of the tool, and the temporary copy of the input that was written
    for the tool stays behind: the cleanup comes only after the tool has
    returned. *)
Lemma process_one_leaves_input_copy src dst target target_w target_h outpaint
    log_jsonl W img icc e0 :
  files W (str src) = Some (ImageFile img icc) ->
  writable W (str (tmp_in src dst)) = true ->
  (forall im, realesrgan im = Raise e0) ->
  exists W',
    process_one src dst target target_w target_h illustration "realesrgan"
      outpaint log_jsonl W
    = (Raise (RuntimeError (str src ++ ": " ++ exn_str e0)), W') /\
    files W' (str (tmp_in src dst)) <> None.
Proof.
  intros Hsrc Hwin Htool.
  destruct (process_image_tool_failure src dst target target_w target_h W img icc
              e0 Hsrc Hwin Htool) as [W1 [kept [Himg Hkept]]].
  unfold process_one, process_body. unfold bindM at 1. rewrite Himg.
  eexists. split; [reflexivity|].
  destruct log_jsonl as [l|]; [|rewrite Hkept; discriminate].
  unfold append_log. destruct (writable W1 (str l)); cbn [snd];
    [|rewrite Hkept; discriminate].
  unfold update. cbn [files].
  destruct (String.eqb (str (tmp_in src dst)) (str l));
    [discriminate|rewrite Hkept; discriminate].
Qed.

Lemma unpremultiply_rgba_size pil_img : size (unpremultiply_rgba pil_img) = size pil_img.
Proof.
  unfold unpremultiply_rgba.
  destruct (negb (String.eqb (mode pil_img) "RGBA")); reflexivity.
Qed.

Lemma defringe_alpha_size pil_img radius :
  0 <= radius ->
  exists out, defringe_alpha pil_img radius = Ok out /\ size out = size pil_img.
Proof.
  intros Hr. unfold defringe_alpha.
  destruct (negb (String.eqb (mode pil_img) "RGBA")); [eexists; split; reflexivity|].
  destruct (Z.ltb_spec (radius * 2 + 1) 0); [lia|]. eexists. split; reflexivity.
Qed.

(** The image [process_one] fits: loaded, trimmed, repaired and, for pixel
    art, scaled by the integer factor; none of this fails on a stored image
    that has pixels, and the result has pixels too. *)
Lemma process_image_zero_target src dst target tw th kind superres W img icc :
  files W (str src) = Some (ImageFile img icc) ->
  1 <= width img -> 1 <= height img ->
  String.eqb superres "realesrgan" = false ->
  0 <= tw -> 0 <= th -> tw = 0 \/ th = 0 ->
  process_image src dst target (Some tw) (Some th) kind superres W
  = (Raise (ValueError "height and width must be > 0"), W).
Proof.
  intros Hsrc Hw Hh Hsr Htw Hth Hz.
  assert (Hload : exists pil0, load_image_rgba src W = (Ok (pil0, icc), W) /\
                    size pil0 = size img).
  { unfold load_image_rgba. rewrite Hsrc. eexists. split; [reflexivity|].
    destruct (_ || _); [reflexivity|]. destruct (String.eqb (mode img) "RGB");
      [reflexivity|]. destruct (String.eqb (mode img) "RGBA"); reflexivity. }
  destruct Hload as [pil0 [Hload Hs0]]. unfold size in Hs0. injection Hs0 as Hw0 Hh0.
  assert (Hk : exists k, match kind with
                         | Kind_auto => detect_kind pil0 80 (Py.lit (12 # 100))
                         | _ => Ok kind
                         end = Ok k).
  { destruct kind; try (eexists; reflexivity). unfold detect_kind.
    destruct (Z.ltb_spec (width pil0) 1); [lia|].
    destruct (Z.ltb_spec (height pil0) 1); [lia|]. cbn [orb].
    destruct (_ && _); eexists; reflexivity. }
  destruct Hk as [k Hk].
  destruct (trim_total pil0) as [pil1 [bbox [trimmed [Ht Hdim]]]].
  destruct (Hdim ltac:(lia) ltac:(lia)) as [Hw1 Hh1].
  pose proof (unpremultiply_rgba_size pil1) as Hu. unfold size in Hu.
  injection Hu as Hwu Hhu.
  set (pilU := unpremultiply_rgba pil1) in *.
  unfold process_image. unfold bindM at 1. rewrite Hload.
  unfold bindM at 1. unfold lift at 1. rewrite Hk.
  unfold bindM at 1. unfold lift at 1. rewrite Ht. fold pilU.
  destruct k.
  - unfold bindM at 1. unfold lift at 1.
    unfold bindM at 1. unfold bindM at 1. rewrite Hsr.
    unfold ret at 1. unfold bindM at 1. unfold lift at 1.
    rewrite (fit_to_size_zero pilU tw th false) by lia. reflexivity.
  - destruct (defringe_alpha_size pilU 1 ltac:(lia)) as [pilD [Hd Hsd]].
    unfold size in Hsd. injection Hsd as Hwd Hhd.
    unfold bindM at 1. unfold lift at 1. rewrite Hd.
    unfold bindM at 1. unfold lift at 1.
    set (sf := choose_integer_scale
                 (Z.max (width pilD) (height pilD), Z.max (width pilD) (height pilD))
                 (Z.max tw th)).
    assert (Hsf : 1 <= sf).
    { apply choose_integer_scale_ge_1. }
    unfold resize_nearest. rewrite resize_ok by nia. cbn [bind].
    rewrite fit_to_size_zero; [reflexivity|cbn [width]; nia|cbn [height]; nia
                                     |lia|lia|exact Hz].
  - unfold bindM at 1. unfold lift at 1.
    unfold bindM at 1. unfold bindM at 1. rewrite Hsr.
    unfold ret at 1. unfold bindM at 1. unfold lift at 1.
    rewrite (fit_to_size_zero pilU tw th false) by lia. reflexivity.
Qed.

(** X28. A target with a side of zero pixels makes every run fail, whatever
    the kind, as long as no super-resolution is asked for: the image is
    loaded, trimmed and repaired, then [fit_to_size] refuses it; nothing is
    written to the destination. *)
Lemma process_one_zero_target src dst target tw th kind superres outpaint
    log_jsonl W img icc :
  files W (str src) = Some (ImageFile img icc) ->
  1 <= width img -> 1 <= height img ->
  String.eqb superres "realesrgan" = false ->
  0 <= tw -> 0 <= th -> tw = 0 \/ th = 0 ->
  (forall l, log_jsonl = Some l -> str l <> str dst) ->
  exists W',
    process_one src dst target (Some tw) (Some th) kind superres outpaint
      log_jsonl W
    = (Raise (RuntimeError (str src ++ ": height and width must be > 0")), W') /\
    files W' (str dst) = files W (str dst).
Proof.
  intros Hsrc Hw Hh Hsr Htw Hth Hz Hlog.
  pose proof (process_image_zero_target src dst target tw th kind superres W img
                icc Hsrc Hw Hh Hsr Htw Hth Hz) as Himg.
  unfold process_one, process_body. unfold bindM at 1. rewrite Himg.
  eexists. split; [reflexivity|].
  destruct log_jsonl as [l|]; [|reflexivity].
  unfold append_log. destruct (writable W (str l)); cbn [snd]; [|reflexivity].
  apply update_other. intros E. exact (proj1 (conj (Hlog l eq_refl) I) (eq_sym E)).
Qed.

End PipelineRuns.

(** * The further properties at concrete inputs *)

(** X1 at a 37 x 52 source and target 256. *)
Lemma choose_integer_scale_largest_witness :
  let sf := choose_integer_scale (37, 52) 256 in
  1 <= sf /\
  (37 <= 256 -> 52 <= 256 ->
   37 * sf <= 256 /\ 52 * sf <= 256 /\ (256 < 37 * (sf + 1) \/ 256 < 52 * (sf + 1))) /\
  (256 < 37 \/ 256 < 52 -> sf = 1).
Proof. apply (choose_integer_scale_largest 37 52 256); lia. Defined.

(** X2 at the 60 x 40 sample image and side 32. *)
Lemma smart_square_fit_then_pad_witness :
  smart_square (imaging := nearest_imaging) sample_large 32 false false =
  (img_fit <- resize_lanczos_fit_long (imaging := nearest_imaging) sample_large 32 ;;
   pad_to_square (imaging := nearest_imaging) img_fit 32 false "telea").
Proof.
  assert (Hw : 1 <= width sample_large) by zc.
  assert (Hh : 1 <= height sample_large) by zc.
  exact (smart_square_fit_then_pad (imaging := nearest_imaging) sample_large 32
           false Hw Hh).
Defined.

(** X3 at the 60 x 40 sample image and a 16 x 16 box, with [allow_crop]. *)
Lemma fit_to_size_never_crops_witness :
  exists out,
    fit_to_size (imaging := nearest_imaging) sample_large 16 16 true = Ok out /\
    size out = (16, 16).
Proof.
  assert (Hw : valid_dim (width sample_large)) by zc.
  assert (Hh : valid_dim (height sample_large)) by zc.
  assert (H16 : valid_dim 16) by zc.
  destruct (fit_to_size_never_crops (imaging := nearest_imaging) sample_large
              16 16 true Hw Hh H16 H16) as [out [fit [Ho [Hs _]]]].
  exists out. split; assumption.
Defined.

(** X4 at the 60 x 40 sample image. *)
Lemma bbox_from_saliency_inside_witness :
  exists x0 y0 x1 y1,
    bbox_from_saliency (imaging := nearest_imaging) sample_large
    = Ok (x0, y0, x1, y1) /\
    0 <= x0 /\ 0 <= y0 /\ x1 <= width sample_large - 1 /\
    y1 <= height sample_large - 1.
Proof.
  assert (Hw : 1 <= width sample_large) by zc.
  assert (Hh : 1 <= height sample_large) by zc.
  destruct (bbox_from_saliency_inside (imaging := nearest_imaging) sample_large)
    as [H _].
  destruct (H Hw Hh) as [x0 [y0 [x1 [y1 [Hb [H0 [H1 [H2 [H3 _]]]]]]]]].
  exists x0, y0, x1, y1. repeat split; assumption.
Defined.

(** X5 at the 60 x 40 sample image and side 32, with both flags. *)
Lemma smart_square_never_crops_witness :
  exists out,
    smart_square (imaging := nearest_imaging) sample_large 32 true true = Ok out /\
    size out = (32, 32).
Proof.
  assert (Hw : valid_dim (width sample_large)) by zc.
  assert (Hh : valid_dim (height sample_large)) by zc.
  destruct (smart_square_never_crops (imaging := nearest_imaging) sample_large
              32 true true Hw Hh ltac:(lia)) as [out [fit [Ho [Hs _]]]].
  exists out. split; assumption.
Defined.

(** X6 at the 2 x 1 sample image and side 4. *)
Lemma fitting_never_upscales_witness :
  exists out,
    smart_square (imaging := nearest_imaging) sample_rgba 4 true true = Ok out /\
    size out = (4, 4) /\
    centred_in (imaging := nearest_imaging) out sample_rgba 4 4.
Proof.
  assert (Hw : 1 <= width sample_rgba) by zc.
  assert (Hh : 1 <= height sample_rgba) by zc.
  assert (Hw4 : width sample_rgba <= 4) by zc.
  assert (Hh4 : height sample_rgba <= 4) by zc.
  destruct (fitting_never_upscales (imaging := nearest_imaging) sample_rgba Hw Hh)
    as [H _].
  destruct (H 4 true true Hw4 Hh4) as [out [Ho [Hs [Hc _]]]].
  exists out. split; [exact Ho|]. split; assumption.
Defined.

(** X7 at the 2 x 1 sample image and target 4. *)
Lemma pixel_art_square_integer_scaled_witness :
  exists scaled out,
    resize_nearest (imaging := nearest_imaging) sample_rgba
      (choose_integer_scale (size sample_rgba) 4) = Ok scaled /\
    size scaled = (width sample_rgba * choose_integer_scale (size sample_rgba) 4,
                   height sample_rgba * choose_integer_scale (size sample_rgba) 4) /\
    smart_square (imaging := nearest_imaging) scaled 4 false false = Ok out /\
    size out = (4, 4).
Proof.
  assert (Hw : 1 <= width sample_rgba <= 4) by zc.
  assert (Hh : 1 <= height sample_rgba <= 4) by zc.
  destruct (pixel_art_square_integer_scaled (imaging := nearest_imaging) sample_rgba
              4 Hw Hh) as [scaled [out [H1 [H2 [H3 [H4 _]]]]]].
  exists scaled, out. repeat split; assumption.
Defined.

(** X8 at the 2 x 1 sample image and a 0 x 8 box. *)
Lemma fit_to_size_zero_target_witness :
  fit_to_size (imaging := nearest_imaging) sample_rgba 0 8 false
  = Raise (ValueError "height and width must be > 0").
Proof.
  assert (Hw : 1 <= width sample_rgba) by zc.
  assert (Hh : 1 <= height sample_rgba) by zc.
  destruct (fit_to_size_zero_target (imaging := nearest_imaging) sample_rgba Hw Hh)
    as [H _].
  apply (H 0 8 false); [lia|lia|left; reflexivity].
Defined.

(** X9 at the 2 x 1 sample image and threshold 5. *)
Lemma bbox_from_alpha_spec_witness :
  bbox_from_alpha sample_rgba 5 = None <->
  forall x y, 0 <= x < width sample_rgba -> 0 <= y < height sample_rgba ->
    alpha_at sample_rgba x y <= 5.
Proof.
  apply (bbox_from_alpha_spec sample_rgba 5). reflexivity.
Defined.

(** X10 at the 100 x 100 sample image, the box (10, 10, 20, 20) and margin 2. *)
Lemma crop_to_bbox_spec_witness :
  exists out, crop_to_bbox sample_100 (10, 10, 20, 20) 2 = Ok out /\
    mode out = mode sample_100 /\ size out = (15, 15).
Proof.
  assert (Hw : 20 < width sample_100) by zc.
  assert (Hh : 20 < height sample_100) by zc.
  destruct (crop_to_bbox_spec sample_100 10 10 20 20 2 ltac:(lia)) as [H _].
  destruct (H ltac:(lia) Hw ltac:(lia) Hh) as [out [Ho [Hm [Hs _]]]].
  exists out. split; [exact Ho|]. split; [exact Hm|].
  rewrite Hs. vm_compute. reflexivity.
Defined.

(** X12 at the opaque 100 x 100 sample image. *)
Lemma opaque_image_is_not_trimmed_witness :
  bbox_from_alpha sample_100 5
  = Some (0, 0, width sample_100 - 1, height sample_100 - 1) /\
  is_alpha_bbox_meaningful sample_100
    (0, 0, width sample_100 - 1, height sample_100 - 1) (Py.lit (5 # 100)) = Ok false.
Proof.
  assert (Hw : 1 <= width sample_100) by zc.
  assert (Hh : 1 <= height sample_100) by zc.
  assert (Hr : (0 < Py.lit (5 # 100))%Q) by (vm_compute; reflexivity).
  assert (Hall : forall x y, 0 <= x < width sample_100 -> 0 <= y < height sample_100 ->
                   5 < alpha_at sample_100 x y).
  { intros x y Hx Hy. unfold alpha_at, sample_100.
    rewrite ImageFacts.getpixel_build by assumption. cbn [nth]. lia. }
  exact (opaque_image_is_not_trimmed sample_100 5 (Py.lit (5 # 100)) eq_refl Hw Hh
           Hall Hr).
Defined.

(** X13 at the opaque pixel of the 2 x 1 sample image. *)
Lemma unpremultiply_rgba_brightens_witness :
  size (unpremultiply_rgba sample_rgba) = size sample_rgba /\
  exists r' g' b',
    getpixel (unpremultiply_rgba sample_rgba) 0 0 = [r'; g'; b'; 255] /\
    10 <= r' <= 255 /\ 20 <= g' <= 255 /\ 30 <= b' <= 255.
Proof.
  assert (Hv : channel_values [10; 20; 30; 255]) by (repeat constructor; lia).
  exact (unpremultiply_rgba_brightens sample_rgba 0 0 10 20 30 255 eq_refl eq_refl Hv).
Defined.

(** X14 at the 2 x 1 sample image and radius 1. *)
Lemma defringe_alpha_dilates_witness :
  exists out, defringe_alpha sample_rgba 1 = Ok out /\
    mode out = "RGBA"%string /\ size out = size sample_rgba.
Proof.
  destruct (defringe_alpha_dilates sample_rgba 1 eq_refl) as [_ H].
  destruct (H ltac:(lia)) as [out [Ho [Hm [Hs _]]]].
  exists out. repeat split; assumption.
Defined.

(** X15 at the opaque pixel of the 2 x 1 sample image. *)
Lemma smooth_alpha_edges_alpha_only_witness :
  size (smooth_alpha_edges (imaging := nearest_imaging) sample_rgba (1 # 2))
  = size sample_rgba /\
  exists a',
    getpixel (smooth_alpha_edges (imaging := nearest_imaging) sample_rgba (1 # 2)) 0 0
    = [10; 20; 30; a'] /\ 0 <= a' <= 255.
Proof.
  assert (Hv : channel_values [10; 20; 30; 255]) by (repeat constructor; lia).
  assert (Hx : 0 <= 0 < width sample_rgba) by zc.
  assert (Hy : 0 <= 0 < height sample_rgba) by zc.
  destruct (smooth_alpha_edges_alpha_only (imaging := nearest_imaging) sample_rgba
              (1 # 2) 0 0 10 20 30 255 eq_refl Hx Hy eq_refl Hv)
    as [Hs [a' [Hp [Ha _]]]].
  split; [exact Hs|]. exists a'. split; assumption.
Defined.

(** X16 at the opaque pixel of the 2 x 1 sample image, which the blur of the
    sample backend leaves unchanged. *)
Lemma unsharp_mask_rgb_only_witness :
  getpixel (unsharp_mask (imaging := nearest_imaging) sample_rgba 1 (Py.lit (1 # 10)) true)
    0 0 = [10; 20; 30; 255].
Proof.
  assert (Hv : channel_values [10; 20; 30; 255]) by (repeat constructor; lia).
  assert (Hx : 0 <= 0 < width sample_rgba) by zc.
  assert (Hy : 0 <= 0 < height sample_rgba) by zc.
  destruct (unsharp_mask_rgb_only (imaging := nearest_imaging) sample_rgba 1
              (Py.lit (1 # 10)) 0 0 10 20 30 255 eq_refl Hx Hy eq_refl Hv)
    as [_ [_ [_ Hflat]]].
  exact (Hflat eq_refl).
Defined.

(** X18 at value 4 and multiple 8. *)
Lemma round_to_multiple_zero_and_fixed_witness :
  (exists k, 0 <= k /\ round_to_multiple 4 8 = Ok (k * 8)) /\
  (round_to_multiple 4 8 = Ok 0 <-> 2 * 4 <= 8) /\
  (4 mod 8 = 0 -> round_to_multiple 4 8 = Ok 4).
Proof. apply (round_to_multiple_zero_and_fixed 4 8); zc. Defined.

(** X19 at 96 and 97. *)
Lemma round_to_power_of_two_monotone_witness :
  round_to_power_of_two 96 <= round_to_power_of_two 97.
Proof. apply (round_to_power_of_two_monotone 96 97). lia. Defined.

(** X20 at 4, 12 and multiple 8. *)
Lemma round_to_multiple_monotone_witness :
  exists r1 r2,
    round_to_multiple 4 8 = Ok r1 /\ round_to_multiple 12 8 = Ok r2 /\ r1 <= r2 /\
    round_to_multiple 0 8 = Ok 8.
Proof. apply (round_to_multiple_monotone 4 12 8); zc. Defined.

(** X21 at a 640 x 480 image. *)
Lemma auto_mode_sizes_witness :
  exists tw th,
    calculate_target_size 640 480 "auto" None None 8 = Ok (tw, th) /\
    (exists k, 1 <= k /\ th = 8 * k) /\
    tw = round_to_power_of_two 640.
Proof.
  assert (Ha : is_auto "auto") by (repeat split; discriminate).
  assert (Hw : valid_dim 640) by zc.
  assert (Hh : valid_dim 480) by zc.
  destruct (auto_mode_sizes 640 480 "auto" None None 8 Ha Hw Hh)
    as [tw [th [Hc [Hs [_ Hl]]]]].
  exists tw, th. split; [exact Hc|]. split; [exact Hs|].
  destruct (Hl ltac:(lia)) as [Hl1 _]. exact Hl1.
Defined.

(** X22 at the 2 x 1 sample image and a 4 x 4 box. *)
Lemma returned_size_is_requested_witness :
  exists out,
    fit_to_size (imaging := nearest_imaging) sample_rgba 4 4 false = Ok out /\
    size out = (4, 4).
Proof.
  assert (H : exists out,
            fit_to_size (imaging := nearest_imaging) sample_rgba 4 4 false = Ok out)
    by (vm_compute; eexists; reflexivity).
  destruct H as [out Ho]. exists out. split; [exact Ho|].
  destruct (returned_size_is_requested (imaging := nearest_imaging) sample_rgba)
    as [_ [_ Hf]].
  exact (Hf 4 4 false out Ho).
Defined.

(** X23 at the sample source, an RGBA image. *)
Lemma load_image_rgba_modes_witness :
  exists out,
    load_image_rgba (imaging := nearest_imaging) sample_src writable_world
    = (Ok (out, None), writable_world) /\
    size out = size sample_rgba /\ mode out = "RGBA"%string.
Proof.
  destruct (load_image_rgba (imaging := nearest_imaging) sample_src writable_world)
    as [r W'] eqn:E.
  destruct (load_image_rgba_modes (imaging := nearest_imaging) sample_src
              writable_world r W' E) as [HW H].
  change (files writable_world (str sample_src))
    with (Some (ImageFile sample_rgba None)) in H.
  destruct H as [out [Hr [Hs [_ [_ Hsame]]]]].
  exists out. rewrite Hr, HW. split; [reflexivity|]. split; [exact Hs|].
  rewrite (Hsame eq_refl). reflexivity.
Defined.

(** X24 at the sample source: a run to a 4 x 4 square with a log. *)
Lemma process_one_success_witness :
  exists meta W' pil,
    process_one (imaging := nearest_imaging) sample_src sample_dst 4 None None
      Kind_auto "none" false (Some sample_log) writable_world = (Ok meta, W') /\
    files W' (str sample_dst) = Some (ImageFile pil None) /\
    size pil = (4, 4) /\
    files W' (str sample_log) = Some (LogFile [meta]).
Proof.
  assert (E : exists meta W',
            process_one (imaging := nearest_imaging) sample_src sample_dst 4 None None
              Kind_auto "none" false (Some sample_log) writable_world = (Ok meta, W'))
    by (vm_compute; eexists; eexists; reflexivity).
  destruct E as [meta [W' E]].
  assert (Hl : forall l, Some sample_log = Some l ->
                 str l <> str sample_dst /\ ~ is_tmp sample_src sample_dst (str l)).
  { intros l H. injection H as <-. split.
    - vm_compute. discriminate.
    - intros [H|H]; vm_compute in H; discriminate. }
  destruct (process_one_success (imaging := nearest_imaging) sample_src sample_dst 4
              None None Kind_auto "none" false (Some sample_log) writable_world
              meta W' Hl E)
    as [pil [img0 [icc [k [bbox [trimmed [Hsrc [Hdst [Hsz [_ [_ [_ Hlog]]]]]]]]]]]].
  change (files writable_world (str sample_src))
    with (Some (ImageFile sample_rgba None)) in Hsrc.
  injection Hsrc as <- <-.
  exists meta, W', pil. split; [exact E|]. split; [exact Hdst|].
  split; [exact Hsz|]. exact (Hlog sample_log eq_refl).
Defined.


(** X26 at the sample source with a working super-resolution tool. *)
Lemma process_one_removes_temporaries_witness :
  exists meta W',
    process_one (imaging := upscaling_imaging) sample_src sample_dst 4 None None
      illustration "realesrgan" false (Some sample_log) writable_world
    = (Ok meta, W') /\
    files W' (str (tmp_in sample_src sample_dst)) = None /\
    files W' (str (tmp_out sample_src sample_dst)) = None.
Proof.
  assert (E : exists meta W',
            process_one (imaging := upscaling_imaging) sample_src sample_dst 4 None
              None illustration "realesrgan" false (Some sample_log) writable_world
            = (Ok meta, W') /\
            In ("kind"%string, VStr "illustration") meta).
  { vm_compute. eexists. eexists. split; [reflexivity|].
    right. right. right. left. reflexivity. }
  destruct E as [meta [W' [E Hin]]].
  assert (Hd : ~ is_tmp sample_src sample_dst (str sample_dst))
    by (intros [H|H]; vm_compute in H; discriminate).
  assert (Hl : forall l, Some sample_log = Some l ->
                 ~ is_tmp sample_src sample_dst (str l)).
  { intros l H. injection H as <-. intros [H|H]; vm_compute in H; discriminate. }
  exists meta, W'. split; [exact E|].
  exact (process_one_removes_temporaries (imaging := upscaling_imaging) sample_src
           sample_dst 4 None None illustration false (Some sample_log)
           writable_world meta W' Hd Hl E Hin).
Defined.

(** X27 at the sample source with the tool missing. *)
Lemma process_one_leaves_input_copy_witness :
  exists W',
    process_one (imaging := nearest_imaging) sample_src sample_dst 4 None None
      illustration "realesrgan" false (Some sample_log) writable_world
    = (Raise (RuntimeError "inputs/hero.png: realesrgan-ncnn-vulkan not found"), W') /\
    files writable_world (str (tmp_in sample_src sample_dst)) = None /\
    files W' (str (tmp_in sample_src sample_dst)) <> None.
Proof.
  destruct (process_one_leaves_input_copy (imaging := nearest_imaging) sample_src
              sample_dst 4 None None false (Some sample_log) writable_world
              sample_rgba None (RuntimeError "realesrgan-ncnn-vulkan not found")
              eq_refl eq_refl (fun _ => eq_refl)) as [W' [Hrun Hkept]].
  exists W'. split; [exact Hrun|]. split; [reflexivity|exact Hkept].
Defined.

(** X28 at the sample source and a 0 x 8 target. *)
Lemma process_one_zero_target_witness :
  exists W',
    process_one (imaging := nearest_imaging) sample_src sample_dst 4 (Some 0) (Some 8)
      Kind_auto "none" false (Some sample_log) writable_world
    = (Raise (RuntimeError "inputs/hero.png: height and width must be > 0"), W') /\
    files W' (str sample_dst) = None.
Proof.
  assert (Hw : 1 <= width sample_rgba) by zc.
  assert (Hh : 1 <= height sample_rgba) by zc.
  assert (Hl : forall l, Some sample_log = Some l -> str l <> str sample_dst).
  { intros l H. injection H as <-. vm_compute. discriminate. }
  destruct (process_one_zero_target (imaging := nearest_imaging) sample_src
              sample_dst 4 0 8 Kind_auto "none" false (Some sample_log)
              writable_world sample_rgba None eq_refl Hw Hh eq_refl
              ltac:(lia) ltac:(lia) (or_introl eq_refl) Hl) as [W' [Hrun Hdst]].
  exists W'. split; [exact Hrun|]. rewrite Hdst. reflexivity.
Defined.
